(** * Access control and security-audit core of the collaboration platform

    A shallow embedding of the RBAC service (services/rbac.service.js), the
    audit service (services/audit.service.js), the authorization middleware
    (middleware/auth.js) and the team-membership routes (routes/team.routes.js).

    Every service method is an [async] function that talks to the database
    through the Prisma client.  Such a method is embedded as a computation in
    the monad [M]: it threads the persisted tables ([World]) and either
    returns a value or throws (a rejected promise).  Every Prisma call can be
    rejected by the storage layer; the world carries the schedule of such
    rejections ([faults]), so that statements can quantify over runs in which
    storage fails as well as over runs in which it does not.

    [new Date()] / [Date.now()] is the parameter [now] (milliseconds since
    the epoch) of each method that reads the clock; one call reads one
    instant.  Identifiers generated by the database are numbers drawn from
    the supply [nextId].  The application logger appends to [appLog] and does
    not throw.

    Two calls that are in flight at the same time interleave at their
    [await]s; where a statement depends on it, a method is also given as a
    [Task], the sequence of its queries, and two tasks are run under a
    schedule.

    The Prisma schema is not part of the sources.  Where the behaviour of a
    query depends on it (the referential action of a relation, the range of a
    [DateTime] column), the dependency is an argument of the query. *)

From Stdlib Require Import ZArith List String Bool Lia DecimalString.
From Stdlib Require Import Permutation Sorted.
Import ListNotations.
Open Scope Z_scope.
Open Scope string_scope.

(** ** Errors (middleware/errorHandler.js) *)

Inductive Exn : Type :=
| Error (message : string)                (* new Error(message) *)
| ValidationError (message : string)      (* 400 VALIDATION_ERROR *)
| AuthenticationError (message : string)  (* 401 AUTHENTICATION_ERROR *)
| AuthorizationError (message : string)   (* 403 AUTHORIZATION_ERROR *)
| NotFoundError (resource : string)       (* 404 NOT_FOUND *)
| ConflictError (message : string)        (* 409 CONFLICT *)
| RateLimitError (retryAfter : Z)         (* 429 RATE_LIMITED *)
| PrismaClientError (code : string).      (* a query rejected by Prisma *)

Definition isConflictError (e : Exn) : bool :=
  match e with ConflictError _ => true | _ => false end.

Definition isNotFoundError (e : Exn) : bool :=
  match e with NotFoundError _ => true | _ => false end.

(** ** Persisted rows *)

Definition Instant := Z.

Record Role := mkRole {
  role_id : string;
  role_name : string;
  role_description : string;
  role_permissions : list string;
  role_isSystem : bool
}.

Record UserRole := mkUserRole {
  ur_userId : string;
  ur_roleId : string;
  ur_grantedBy : string;
  ur_grantedAt : Instant;
  ur_expiresAt : option Instant
}.

(** The team roles, in the order of [roleHierarchy] (middleware/auth.js) *)
Inductive TeamRole : Type := VIEWER | MEMBER | LEAD | OWNER.

Record TeamMember := mkTeamMember {
  tm_teamId : string;
  tm_userId : string;
  tm_role : TeamRole;
  tm_joinedAt : Instant;
  tm_leftAt : option Instant
}.

Record AuditLog := mkAuditLog {
  al_id : nat;
  al_userId : option string;
  al_action : string;
  al_resource : string;
  al_resourceId : option string;
  al_details : option string;
  al_ipAddress : option string;
  al_userAgent : option string;
  al_status : string;
  al_errorMessage : option string;
  al_duration : option Z;
  al_createdAt : Instant
}.

(** Modelled from the spec: the Prisma schema is not part of the sources.
    The services name the statuses OPEN, INVESTIGATING and RESOLVED; the
    fourth status of the enumeration is FALSE_POSITIVE. *)
Inductive IncidentStatus : Type := OPEN | INVESTIGATING | RESOLVED | FALSE_POSITIVE.

Record SecurityIncident := mkSecurityIncident {
  si_id : nat;
  si_type : string;
  si_severity : string;
  si_title : string;
  si_description : string;
  si_status : IncidentStatus;
  si_detectedAt : Instant;
  si_affectedUsers : list string;
  si_resolution : option string;
  si_resolvedBy : option string;
  si_resolvedAt : option Instant
}.

Inductive LogLevel : Type := info | warn | error.

(** ** The world: the tables, the id supply, the storage-fault schedule and
    the lines written through the application logger. *)

Record World := mkWorld {
  roles : list Role;
  userRoles : list UserRole;
  teamMembers : list TeamMember;
  auditLogs : list AuditLog;
  securityIncidents : list SecurityIncident;
  nextId : nat;
  faults : list bool;
  appLog : list (LogLevel * string)
}.

Definition set_roles (x : list Role) (w : World) : World :=
  mkWorld x (userRoles w) (teamMembers w) (auditLogs w) (securityIncidents w)
          (nextId w) (faults w) (appLog w).

Definition set_userRoles (x : list UserRole) (w : World) : World :=
  mkWorld (roles w) x (teamMembers w) (auditLogs w) (securityIncidents w)
          (nextId w) (faults w) (appLog w).

Definition set_teamMembers (x : list TeamMember) (w : World) : World :=
  mkWorld (roles w) (userRoles w) x (auditLogs w) (securityIncidents w)
          (nextId w) (faults w) (appLog w).

Definition set_auditLogs (x : list AuditLog) (w : World) : World :=
  mkWorld (roles w) (userRoles w) (teamMembers w) x (securityIncidents w)
          (nextId w) (faults w) (appLog w).

Definition set_securityIncidents (x : list SecurityIncident) (w : World) : World :=
  mkWorld (roles w) (userRoles w) (teamMembers w) (auditLogs w) x
          (nextId w) (faults w) (appLog w).

Definition set_nextId (x : nat) (w : World) : World :=
  mkWorld (roles w) (userRoles w) (teamMembers w) (auditLogs w)
          (securityIncidents w) x (faults w) (appLog w).

Definition set_faults (x : list bool) (w : World) : World :=
  mkWorld (roles w) (userRoles w) (teamMembers w) (auditLogs w)
          (securityIncidents w) (nextId w) x (appLog w).

Definition set_appLog (x : list (LogLevel * string)) (w : World) : World :=
  mkWorld (roles w) (userRoles w) (teamMembers w) (auditLogs w)
          (securityIncidents w) (nextId w) (faults w) x.

(** ** The monad of async service methods *)

Inductive Outcome (A : Type) : Type :=
| Ok (a : A)
| Throw (e : Exn).
Arguments Ok {A} a.
Arguments Throw {A} e.

Definition M (A : Type) : Type := World -> Outcome A * World.

Definition ret {A} (a : A) : M A := fun w => (Ok a, w).

Definition bind {A B} (m : M A) (k : A -> M B) : M B :=
  fun w => match m w with
           | (Ok a, w') => k a w'
           | (Throw e, w') => (Throw e, w')
           end.

Definition throw {A} (e : Exn) : M A := fun w => (Throw e, w).

(** [try { body } catch (error) { handler }] *)
Definition try_catch {A} (body : M A) (handler : Exn -> M A) : M A :=
  fun w => match body w with
           | (Ok a, w') => (Ok a, w')
           | (Throw e, w') => handler e w'
           end.

Notation "x <- c ;; k" := (bind c (fun x => k))
  (at level 61, c at next level, right associativity).
Notation "c ;;; k" := (bind c (fun _ => k))
  (at level 61, right associativity).

(** [logger.info / logger.warn / logger.error]: a line in the local log. *)
Definition logger (level : LogLevel) (message : string) : M unit :=
  fun w => (Ok tt, set_appLog (appLog w ++ [(level, message)])%list w).

(** One round trip to the database.  The head of the fault schedule says
    whether the storage layer rejects this query; an exhausted schedule means
    that storage works from then on. *)
Definition query {A} (run : M A) : M A :=
  fun w => match faults w with
           | true :: fs => (Throw (PrismaClientError "P1001"), set_faults fs w)
           | false :: fs => run (set_faults fs w)
           | [] => run w
           end.

(** ** Calls in flight

    An [async] function runs without interruption up to its next [await].
    While the awaited query is pending the event loop serves other requests,
    so the queries of two calls in flight reach the database in any order
    that respects the order within each call.  A call is embedded as a
    task: the query that it awaits next and the code that resumes with the
    answer; the logger is called synchronously, between two awaits. *)
Inductive Task (A : Type) : Type :=
| Return (a : A)
| Log (level : LogLevel) (message : string) (next : Task A)
| Await {B : Type} (awaited : M B) (resume : B -> Task A).
Arguments Return {A} a.
Arguments Log {A} level message next.
Arguments Await {A B} awaited resume.

(** A call that nothing else overlaps *)
Fixpoint runTask {A} (t : Task A) : M A :=
  match t with
  | Return a => ret a
  | Log level message next => logger level message ;;; runTask next
  | Await awaited resume => b <- awaited ;; runTask (resume b)
  end.

(** A call in flight: waiting at an [await], or settled *)
Inductive Call (A : Type) : Type :=
| Pending (t : Task A)
| Settled (o : Outcome A).
Arguments Pending {A} t.
Arguments Settled {A} o.

(** The synchronous stretch of a call, up to its next [await] *)
Fixpoint advance {A} (t : Task A) (w : World) : Call A * World :=
  match t with
  | Return a => (Settled (Ok a), w)
  | Log level message next => advance next (snd (logger level message w))
  | Await awaited resume => (Pending (Await awaited resume), w)
  end.

(** The database answers the query that the call awaits, and the call runs
    on to its next [await]; a rejected query rejects the call. *)
Definition resumeCall {A} (c : Call A) (w : World) : Call A * World :=
  match c with
  | Pending (Await awaited resume) =>
      match awaited w with
      | (Ok b, w') => advance (resume b) w'
      | (Throw e, w') => (Settled (Throw e), w')
      end
  | Pending t => advance t w
  | Settled o => (Settled o, w)
  end.

Inductive Turn : Type := First | Second.

(** Two calls in flight; the schedule is the order in which the database
    answers their queries. *)
Fixpoint interleave {A B} (schedule : list Turn) (a : Call A) (b : Call B) (w : World)
  : Call A * Call B * World :=
  match schedule with
  | [] => (a, b, w)
  | First :: rest =>
      let (a', w') := resumeCall a w in interleave rest a' b w'
  | Second :: rest =>
      let (b', w') := resumeCall b w in interleave rest a b' w'
  end.

(** ** Small JavaScript helpers *)

(** [array.includes(x)] on an array of strings *)
Definition includes (xs : list string) (x : string) : bool :=
  existsb (String.eqb x) xs.

(** Truthiness of a possibly missing string: [null], [undefined] and the
    empty string are falsy. *)
Definition truthy (s : option string) : bool :=
  match s with
  | Some EmptyString => false
  | Some _ => true
  | None => false
  end.

(** A value interpolated in a template literal *)
Definition interp (s : option string) : string :=
  match s with Some x => x | None => "undefined" end.

Definition showNat (n : nat) : string := NilEmpty.string_of_uint (Nat.to_uint n).

Definition showZ (z : Z) : string := NilEmpty.string_of_int (Z.to_int z).

(** [Promise.all([a, b])]: both queries are issued; the result is the pair
    of their results, or the first rejection. *)
Definition Promise_all2 {A B} (ma : M A) (mb : M B) : M (A * B) :=
  fun w =>
    let (ra, w1) := ma w in
    let (rb, w2) := mb w1 in
    match ra, rb with
    | Ok a, Ok b => (Ok (a, b), w2)
    | Throw e, _ => (Throw e, w2)
    | Ok _, Throw e => (Throw e, w2)
    end.

(** [new Set()] followed by [add]: insertion order, no duplicates *)
Definition Set_add (acc : list string) (x : string) : list string :=
  if includes acc x then acc else (acc ++ [x])%list.


(** ** Prisma queries used by the services

    The relation [userRole.role] is a required foreign key: every assignment
    row points to a role row, and [include: { role: true }] returns the
    assignment together with that role. *)

Module Prisma.

Definition role_findUnique_name (name : string) : M (option Role) :=
  query (fun w => (Ok (find (fun r => role_name r =? name) (roles w)), w)).

Definition withRole (rs : list Role) (ur : UserRole) : list (UserRole * Role) :=
  match find (fun r => role_id r =? ur_roleId ur) rs with
  | Some r => [(ur, r)]
  | None => []
  end.

Definition userRole_findMany_includeRole (where_ : UserRole -> bool)
  : M (list (UserRole * Role)) :=
  query (fun w =>
    (Ok (flat_map (withRole (roles w)) (filter where_ (userRoles w))), w)).

(** [findFirst] with a condition on the related role *)
Definition userRole_findFirst_role (where_ : UserRole * Role -> bool)
  : M (option (UserRole * Role)) :=
  query (fun w =>
    (Ok (find where_ (flat_map (withRole (roles w)) (userRoles w))), w)).

Definition userRole_findFirst (where_ : UserRole -> bool) : M (option UserRole) :=
  query (fun w => (Ok (find where_ (userRoles w)), w)).

(** Modelled from the spec: the Prisma schema is not part of the sources.
    An assignment gets its granted-at instant from the clock when it is
    written. *)
Definition userRole_create (now : Instant) (data : Instant -> UserRole) : M unit :=
  query (fun w => (Ok tt, set_userRoles (userRoles w ++ [data now])%list w)).

Definition userRole_deleteMany (where_ : UserRole -> bool) : M unit :=
  query (fun w =>
    (Ok tt, set_userRoles (filter (fun ur => negb (where_ ur)) (userRoles w)) w)).

Definition isMembership (teamId userId : string) (m : TeamMember) : bool :=
  (tm_teamId m =? teamId) && (tm_userId m =? userId).

(** [teamMember.findUnique({ where: { teamId_userId: { teamId, userId } } })] *)
Definition teamMember_findUnique (teamId userId : string) : M (option TeamMember) :=
  query (fun w => (Ok (find (isMembership teamId userId) (teamMembers w)), w)).

Definition teamMember_count (where_ : TeamMember -> bool) : M nat :=
  query (fun w => (Ok (List.length (filter where_ (teamMembers w))), w)).

Fixpoint updateFirst {A} (p : A -> bool) (f : A -> A) (xs : list A)
  : option (A * list A) :=
  match xs with
  | [] => None
  | x :: rest =>
      if p x then Some (f x, f x :: rest)
      else match updateFirst p f rest with
           | Some (y, rest') => Some (y, x :: rest')
           | None => None
           end
  end.

(** [update] on a unique key: the addressed row is rewritten and returned;
    Prisma rejects with P2025 when there is no such row. *)
Definition teamMember_update (teamId userId : string)
           (data : TeamMember -> TeamMember) : M TeamMember :=
  query (fun w =>
    match updateFirst (isMembership teamId userId) data (teamMembers w) with
    | Some (row, rows) => (Ok row, set_teamMembers rows w)
    | None => (Throw (PrismaClientError "P2025"), w)
    end).

(** Modelled from the spec: the Prisma schema is not part of the sources.
    The pair of team and user is the unique key [teamId_userId] of the
    queries above, so [create] rejects a second row for the pair with P2002;
    a new row gets the current instant as joined-at and no left-at. *)
Definition teamMember_create (now : Instant) (teamId userId : string) (role : TeamRole)
  : M TeamMember :=
  query (fun w =>
    if existsb (isMembership teamId userId) (teamMembers w)
    then (Throw (PrismaClientError "P2002"), w)
    else
      let row := mkTeamMember teamId userId role now None in
      (Ok row, set_teamMembers (teamMembers w ++ [row])%list w)).

(** A row of the users table, as far as the membership routes read it *)
Record UserRow := mkUserRow {
  user_id : string
}.

(** [user.findUnique({ where: { id } })].  No code modelled here writes the
    users table; the rows on record are passed as [users]. *)
Definition user_findUnique (users : list UserRow) (id : string) : M (option UserRow) :=
  query (fun w => (Ok (find (fun u => user_id u =? id) users), w)).

(** Modelled from the spec: the Prisma schema is not part of the sources.
    An audit entry gets its identifier from the database and its
    created-at instant from the clock when it is written. *)
Definition auditLog_create (now : Instant) (data : nat -> Instant -> AuditLog)
  : M AuditLog :=
  query (fun w =>
    let row := data (nextId w) now in
    (Ok row, set_nextId (S (nextId w)) (set_auditLogs (auditLogs w ++ [row])%list w))).

Definition auditLog_count (where_ : AuditLog -> bool) : M nat :=
  query (fun w => (Ok (List.length (filter where_ (auditLogs w))), w)).

Definition optString_eqb (a b : option string) : bool :=
  match a, b with
  | None, None => true
  | Some x, Some y => x =? y
  | _, _ => false
  end.

Fixpoint distinct (xs : list (option string)) : list (option string) :=
  match xs with
  | [] => []
  | x :: rest => x :: filter (fun y => negb (optString_eqb x y)) (distinct rest)
  end.

(** [findMany({ where, select: { ipAddress: true }, distinct: ['ipAddress'] })] *)
Definition auditLog_findMany_distinct_ipAddress (where_ : AuditLog -> bool)
  : M (list (option string)) :=
  query (fun w => (Ok (distinct (map al_ipAddress (filter where_ (auditLogs w)))), w)).

Definition securityIncident_findFirst (where_ : SecurityIncident -> bool)
  : M (option SecurityIncident) :=
  query (fun w => (Ok (find where_ (securityIncidents w)), w)).

(** Modelled from the spec: the Prisma schema is not part of the sources.
    A new incident gets a fresh identifier, status [OPEN], the current
    instant as detected-at and no resolution. *)
Definition securityIncident_create (now : Instant)
           (data : nat -> IncidentStatus -> Instant -> SecurityIncident)
  : M SecurityIncident :=
  query (fun w =>
    let row := data (nextId w) OPEN now in
    (Ok row, set_nextId (S (nextId w))
               (set_securityIncidents (securityIncidents w ++ [row])%list w))).

(** [update({ where: { id }, data })]; P2025 when no row has this id *)
Definition securityIncident_update (id : nat)
           (data : SecurityIncident -> SecurityIncident) : M SecurityIncident :=
  query (fun w =>
    match updateFirst (fun i => Nat.eqb (si_id i) id) data (securityIncidents w) with
    | Some (row, rows) => (Ok row, set_securityIncidents rows w)
    | None => (Throw (PrismaClientError "P2025"), w)
    end).

(** Modelled from the spec: the Prisma schema is not part of the sources.
    The identifier that the database generates for a new role, drawn from
    the id supply. *)
Definition generatedId (n : nat) : string := "id-" ++ showNat n.

Definition role_findUnique_id (id : string) : M (option Role) :=
  query (fun w => (Ok (find (fun r => role_id r =? id) (roles w)), w)).

(** [role.create]: role names are a unique key (they are the key of
    [findUnique] and [upsert]), so a second role of the same name is rejected
    with P2002. *)
Definition role_create (data : string -> Role) : M Role :=
  query (fun w =>
    let row := data (generatedId (nextId w)) in
    if existsb (fun r => role_name r =? role_name row) (roles w)
    then (Throw (PrismaClientError "P2002"), w)
    else (Ok row, set_nextId (S (nextId w)) (set_roles (roles w ++ [row])%list w))).

(** Modelled from the spec: the Prisma schema is not part of the sources.
    An assignment relates one actor to one role, so the identifier of a role
    cannot change under the assignments that refer to it: the database
    either rewrites the references ([Cascade], the default of Prisma) or
    refuses the update with P2003 ([Restrict]).  The schema fixes which one;
    it is an argument of [role.update]. *)
Inductive ReferentialAction : Type := Cascade | Restrict.

Definition set_roleId (roleId : string) (ur : UserRole) : UserRole :=
  mkUserRole (ur_userId ur) roleId (ur_grantedBy ur) (ur_grantedAt ur) (ur_expiresAt ur).

Definition retarget (from to : string) (ur : UserRole) : UserRole :=
  if ur_roleId ur =? from then set_roleId to ur else ur.

(** [role.update({ where: { id }, data })]: P2025 when no row has this id,
    P2002 when the new name or the new identifier is that of another row. *)
Definition role_update (onUpdate : ReferentialAction) (id : string) (data : Role -> Role)
  : M Role :=
  query (fun w =>
    match find (fun r => role_id r =? id) (roles w) with
    | None => (Throw (PrismaClientError "P2025"), w)
    | Some old =>
        if (negb (role_name (data old) =? role_name old)
            && existsb (fun r => role_name r =? role_name (data old)) (roles w))
           || (negb (role_id (data old) =? id)
               && existsb (fun r => role_id r =? role_id (data old)) (roles w))
        then (Throw (PrismaClientError "P2002"), w)
        else match updateFirst (fun r => role_id r =? id) data (roles w) with
             | Some (row, rows) =>
                 if role_id row =? id then (Ok row, set_roles rows w)
                 else
                   match onUpdate with
                   | Cascade =>
                       (Ok row,
                        set_userRoles (map (retarget id (role_id row)) (userRoles w))
                          (set_roles rows w))
                   | Restrict =>
                       if existsb (fun ur => ur_roleId ur =? id) (userRoles w)
                       then (Throw (PrismaClientError "P2003"), w)
                       else (Ok row, set_roles rows w)
                   end
             | None => (Throw (PrismaClientError "P2025"), w)
             end
    end).

Fixpoint removeFirst {A} (p : A -> bool) (xs : list A) : option (list A) :=
  match xs with
  | [] => None
  | x :: rest =>
      if p x then Some rest
      else match removeFirst p rest with
           | Some rest' => Some (x :: rest')
           | None => None
           end
  end.

(** [role.delete({ where: { id } })]; P2025 when no row has this id *)
Definition role_delete (id : string) : M unit :=
  query (fun w =>
    match removeFirst (fun r => role_id r =? id) (roles w) with
    | Some rows => (Ok tt, set_roles rows w)
    | None => (Throw (PrismaClientError "P2025"), w)
    end).

(** [role.upsert({ where: { name }, update, create })] *)
Definition role_upsert (name : string) (update : Role -> Role)
           (create : string -> Role) : M Role :=
  query (fun w =>
    match updateFirst (fun r => role_name r =? name) update (roles w) with
    | Some (row, rows) => (Ok row, set_roles rows w)
    | None =>
        let row := create (generatedId (nextId w)) in
        (Ok row, set_nextId (S (nextId w)) (set_roles (roles w ++ [row])%list w))
    end).

(** A query with a [DateTime] argument.  The client rejects an Invalid Date
    (an instant beyond 8.64e15 ms from the epoch) and the database an instant
    outside the range of the column type; that range depends on the schema
    and on the database, which are not part of the sources.  [dateTime t] is
    the rejection with which a query that carries the instant [t] fails, and
    [None] when the instant is accepted; the query is then not run. *)
Definition withDateTime {A} (dateTime : Instant -> option Exn) (t : Instant) (run : M A)
  : M A :=
  match dateTime t with
  | Some e => throw e
  | None => run
  end.

Definition auditLog_deleteMany (where_ : AuditLog -> bool) : M nat :=
  query (fun w =>
    (Ok (List.length (filter where_ (auditLogs w))),
     set_auditLogs (filter (fun l => negb (where_ l)) (auditLogs w)) w)).

Fixpoint insertDesc {A} (key : A -> Z) (x : A) (l : list A) : list A :=
  match l with
  | [] => [x]
  | y :: rest =>
      if Z.leb (key y) (key x) then x :: y :: rest
      else y :: insertDesc key x rest
  end.

(** [orderBy: { key: 'desc' }].  The database leaves the order of rows with
    equal keys open; here they keep the order of the table. *)
Definition orderByDesc {A} (key : A -> Z) (l : list A) : list A :=
  fold_right (insertDesc key) [] l.

(** [skip] and [take] of [findMany]: Prisma rejects a negative [skip]. *)
Definition page {A} (skip : Z) (take : nat) (rows : list A) : Outcome (list A) :=
  if Z.ltb skip 0 then Throw (PrismaClientError "PrismaClientValidationError")
  else Ok (firstn take (skipn (Z.to_nat skip) rows)).

Definition auditLog_findMany (where_ : AuditLog -> bool) (skip : Z) (take : nat)
  : M (list AuditLog) :=
  query (fun w =>
    (page skip take (orderByDesc al_createdAt (filter where_ (auditLogs w))), w)).

Fixpoint countBy (keys : list string) (values : list string) : list (string * nat) :=
  match keys with
  | [] => []
  | k :: rest => (k, List.length (filter (String.eqb k) values)) :: countBy rest values
  end.

Fixpoint distinctStrings (xs : list string) : list string :=
  match xs with
  | [] => []
  | x :: rest => x :: filter (fun y => negb (x =? y)) (distinctStrings rest)
  end.

(** [groupBy({ by: ['action'], where, _count: { action: true } })]: one group
    per action that occurs, with the number of its entries *)
Definition auditLog_groupBy_action (where_ : AuditLog -> bool)
  : M (list (string * nat)) :=
  query (fun w =>
    let actions := map al_action (filter where_ (auditLogs w)) in
    (Ok (countBy (distinctStrings actions) actions), w)).

Definition securityIncident_findMany (where_ : SecurityIncident -> bool)
           (skip : Z) (take : nat) : M (list SecurityIncident) :=
  query (fun w =>
    (page skip take (orderByDesc si_detectedAt (filter where_ (securityIncidents w))),
     w)).

Definition securityIncident_count (where_ : SecurityIncident -> bool) : M nat :=
  query (fun w => (Ok (List.length (filter where_ (securityIncidents w))), w)).

End Prisma.

(** ** RBAC service (services/rbac.service.js) *)

Module RBACService.
Import Prisma.

(** The filter [OR: [{ expiresAt: null }, { expiresAt: { gt: new Date() } }]] *)
Definition notExpired (now : Instant) (ur : UserRole) : bool :=
  match ur_expiresAt ur with
  | None => true
  | Some e => Z.ltb now e
  end.

Definition activeOf (now : Instant) (userId : string) (ur : UserRole) : bool :=
  (ur_userId ur =? userId) && notExpired now ur.

Definition hasPermission (now : Instant) (userId permission : string) : M bool :=
  userRoles <- userRole_findMany_includeRole (activeOf now userId) ;;
  ret (existsb (fun ur => includes (role_permissions (snd ur)) permission) userRoles).

Fixpoint hasAnyPermission (now : Instant) (userId : string)
         (permissions : list string) : M bool :=
  match permissions with
  | [] => ret false
  | permission :: rest =>
      b <- hasPermission now userId permission ;;
      if b then ret true else hasAnyPermission now userId rest
  end.

Fixpoint hasAllPermissions (now : Instant) (userId : string)
         (permissions : list string) : M bool :=
  match permissions with
  | [] => ret true
  | permission :: rest =>
      b <- hasPermission now userId permission ;;
      if negb b then ret false else hasAllPermissions now userId rest
  end.

Definition hasRole (now : Instant) (userId roleName : string) : M bool :=
  userRole <- userRole_findFirst_role
                (fun ur => activeOf now userId (fst ur)
                           && (role_name (snd ur) =? roleName)) ;;
  ret (match userRole with Some _ => true | None => false end).

Definition getUserPermissions (now : Instant) (userId : string) : M (list string) :=
  userRoles <- userRole_findMany_includeRole (activeOf now userId) ;;
  ret (fold_left (fun permissions ur =>
                    fold_left Set_add (role_permissions (snd ur)) permissions)
                 userRoles []).

Definition assignRole (now : Instant) (userId roleName grantedBy : string)
           (expiresAt : option Instant) : M unit :=
  role <- role_findUnique_name roleName ;;
  match role with
  | None => throw (Error ("Role '" ++ roleName ++ "' not found"))
  | Some role =>
      existingAssignment <-
        userRole_findFirst (fun ur => (ur_userId ur =? userId)
                                      && (ur_roleId ur =? role_id role)) ;;
      match existingAssignment with
      | Some _ => throw (Error ("User already has role '" ++ roleName ++ "'"))
      | None =>
          userRole_create now (fun grantedAt =>
          mkUserRole userId (role_id role) grantedBy grantedAt expiresAt) ;;;
          logger info ("Role '" ++ roleName ++ "' assigned to user " ++ userId
                       ++ " by " ++ grantedBy)
      end
  end.

Definition revokeRole (userId roleName : string) : M unit :=
  role <- role_findUnique_name roleName ;;
  match role with
  | None => throw (Error ("Role '" ++ roleName ++ "' not found"))
  | Some role =>
      userRole_deleteMany (fun ur => (ur_userId ur =? userId)
                                     && (ur_roleId ur =? role_id role)) ;;;
      logger info ("Role '" ++ roleName ++ "' revoked from user " ++ userId)
  end.

(** The table inside [hasTeamPermission] *)
Definition teamPermissions (role : TeamRole) : list string :=
  match role with
  | OWNER => ["teams:write"; "teams:manage_members"; "projects:manage"; "documents:write"]
  | LEAD => ["teams:manage_members"; "projects:write"; "documents:write"]
  | MEMBER => ["projects:read"; "documents:read"; "documents:write"]
  | VIEWER => ["projects:read"; "documents:read"]
  end.

Definition hasTeamPermission (now : Instant) (userId teamId permission : string)
  : M bool :=
  g <- hasPermission now userId permission ;;
  if g then ret true
  else
    membership <- teamMember_findUnique teamId userId ;;
    match membership with
    | None => ret false
    | Some membership => ret (includes (teamPermissions (tm_role membership)) permission)
    end.

(** An element of the result of [getUserRoles] *)
Record UserRoleInfo := mkUserRoleInfo {
  info_id : string;
  info_name : string;
  info_description : string;
  info_grantedAt : Instant;
  info_expiresAt : option Instant
}.

Definition getUserRoles (now : Instant) (userId : string) : M (list UserRoleInfo) :=
  userRoles <- userRole_findMany_includeRole (activeOf now userId) ;;
  ret (map (fun ur => mkUserRoleInfo (role_id (snd ur)) (role_name (snd ur))
                        (role_description (snd ur)) (ur_grantedAt (fst ur))
                        (ur_expiresAt (fst ur)))
           userRoles).

(** The permission catalog [PERMISSIONS]: identifier and description *)
Definition PERMISSIONS : list (string * string) :=
  [("users:read", "View user profiles");
   ("users:write", "Create and edit users");
   ("users:delete", "Delete users");
   ("users:manage_roles", "Assign and revoke roles");
   ("teams:read", "View teams");
   ("teams:write", "Create and edit teams");
   ("teams:delete", "Delete teams");
   ("teams:manage_members", "Add/remove team members");
   ("projects:read", "View projects");
   ("projects:write", "Create and edit projects");
   ("projects:delete", "Delete projects");
   ("projects:manage", "Full project management");
   ("documents:read", "View documents");
   ("documents:write", "Create and edit documents");
   ("documents:delete", "Delete documents");
   ("documents:export", "Export documents");
   ("github:read", "View GitHub profiles and repos");
   ("github:write", "Connect GitHub accounts");
   ("github:sync", "Sync GitHub data");
   ("ai:analyze", "Request AI analysis");
   ("ai:view_suggestions", "View AI suggestions");
   ("hr:view_all", "View all team data");
   ("hr:suggestions", "Access HR AI suggestions");
   ("hr:reports", "Generate HR reports");
   ("admin:dashboard", "Access admin dashboard");
   ("admin:audit_logs", "View audit logs");
   ("admin:security", "Manage security settings");
   ("admin:compliance", "Manage compliance settings");
   ("admin:system", "System administration");
   ("compliance:view", "View compliance reports");
   ("compliance:manage", "Manage compliance policies");
   ("compliance:export", "Export compliance data")].

(** The property names that every object literal inherits from
    [Object.prototype]; their values are functions (and the prototype object
    itself for [__proto__]), hence truthy. *)
Definition objectPrototypeKeys : list string :=
  ["constructor"; "__defineGetter__"; "__defineSetter__"; "hasOwnProperty";
   "__lookupGetter__"; "__lookupSetter__"; "isPrototypeOf";
   "propertyIsEnumerable"; "toString"; "valueOf"; "__proto__"; "toLocaleString"].

(** Truthiness of [PERMISSIONS[p]]: an own entry (every description is a
    non-empty string) or an inherited property *)
Definition PERMISSIONS_has (p : string) : bool :=
  existsb (fun entry => truthy (Some (snd entry)) && (fst entry =? p)) PERMISSIONS
  || includes objectPrototypeKeys p.

Record RoleConfig := mkRoleConfig {
  cfg_description : string;
  cfg_permissions : list string
}.

(** [DEFAULT_ROLES], in the order of [Object.entries] *)
Definition DEFAULT_ROLES : list (string * RoleConfig) :=
  [("admin",
    mkRoleConfig "Full system administrator with all permissions"
                 (map fst PERMISSIONS));
   ("hr_manager",
    mkRoleConfig "HR manager with access to all HR features"
      ["users:read"; "teams:read"; "projects:read"; "documents:read";
       "github:read"; "ai:view_suggestions"; "hr:view_all"; "hr:suggestions";
       "hr:reports"; "compliance:view"]);
   ("team_lead",
    mkRoleConfig "Team leader with team management capabilities"
      ["users:read"; "teams:read"; "teams:write"; "teams:manage_members";
       "projects:read"; "projects:write"; "projects:manage";
       "documents:read"; "documents:write"; "github:read"; "github:write";
       "github:sync"; "ai:analyze"; "ai:view_suggestions"]);
   ("member",
    mkRoleConfig "Standard team member"
      ["users:read"; "teams:read"; "projects:read"; "projects:write";
       "documents:read"; "documents:write"; "github:read"; "github:write";
       "ai:analyze"]);
   ("viewer",
    mkRoleConfig "Read-only access to team data"
      ["users:read"; "teams:read"; "projects:read"; "documents:read";
       "github:read"])].

Definition set_config (config : RoleConfig) (r : Role) : Role :=
  mkRole (role_id r) (role_name r) (cfg_description config) (cfg_permissions config)
         (role_isSystem r).

(** The loop of [initializeRoles] *)
Fixpoint upsertRoles (entries : list (string * RoleConfig)) : M unit :=
  match entries with
  | [] => ret tt
  | (name, config) :: rest =>
      role_upsert name (set_config config)
        (fun id => mkRole id name (cfg_description config) (cfg_permissions config) true) ;;;
      upsertRoles rest
  end.

Definition initializeRoles : M unit :=
  upsertRoles DEFAULT_ROLES ;;;
  logger info "Default roles initialized".

Definition invalidPermissions (permissions : list string) : list string :=
  filter (fun p => negb (PERMISSIONS_has p)) permissions.

Definition createRole (name description : string) (permissions : list string)
           (createdBy : string) : M Role :=
  let invalidPerms := invalidPermissions permissions in
  if Nat.ltb 0 (List.length invalidPerms) then
    throw (Error ("Invalid permissions: " ++ String.concat ", " invalidPerms))
  else
    role <- role_create (fun id => mkRole id name description permissions false) ;;
    logger info ("Custom role '" ++ name ++ "' created by " ++ createdBy) ;;;
    ret role.

(** The [updates] object of [updateRole], handed to Prisma as it is: one
    field for each column of the role row, an absent field being [None].
    (Objects with other keys are not covered: the timestamps and nested
    writes of the data language of Prisma.) *)
Record RoleUpdates := mkRoleUpdates {
  upd_id : option string;
  upd_name : option string;
  upd_description : option string;
  upd_permissions : option (list string);
  upd_isSystem : option bool
}.

(** [data: updates]: the fields that are present replace those of the row *)
Definition applyUpdates (updates : RoleUpdates) (r : Role) : Role :=
  mkRole (match upd_id updates with Some i => i | None => role_id r end)
         (match upd_name updates with Some n => n | None => role_name r end)
         (match upd_description updates with Some d => d | None => role_description r end)
         (match upd_permissions updates with Some ps => ps | None => role_permissions r end)
         (match upd_isSystem updates with Some b => b | None => role_isSystem r end).

Definition updateRole (onUpdate : ReferentialAction) (roleId : string)
           (updates : RoleUpdates) : M Role :=
  role <- role_findUnique_id roleId ;;
  match role with
  | None => throw (Error "Role not found")
  | Some role =>
      if role_isSystem role && truthy (upd_name updates) then
        throw (Error "Cannot rename system roles")
      else
        let invalidPerms :=
          match upd_permissions updates with
          | Some permissions => invalidPermissions permissions
          | None => []
          end in
        if Nat.ltb 0 (List.length invalidPerms) then
          throw (Error ("Invalid permissions: " ++ String.concat ", " invalidPerms))
        else role_update onUpdate roleId (applyUpdates updates)
  end.

Definition deleteRole (roleId : string) : M unit :=
  role <- role_findUnique_id roleId ;;
  match role with
  | None => throw (Error "Role not found")
  | Some role =>
      if role_isSystem role then throw (Error "Cannot delete system roles")
      else
        userRole_deleteMany (fun ur => ur_roleId ur =? roleId) ;;;
        role_delete roleId ;;;
        logger info ("Role '" ++ role_name role ++ "' deleted")
  end.

End RBACService.

(** ** Audit service (services/audit.service.js) *)

Module AuditService.
Import Prisma.

Definition LOGIN_FAILED := "LOGIN_FAILED".
Definition SENSITIVE_DATA_ACCESSED := "SENSITIVE_DATA_ACCESSED".
Definition SECURITY_INCIDENT_RESOLVED := "SECURITY_INCIDENT_RESOLVED".
Definition TEAM_MEMBER_REMOVED := "TEAM_MEMBER_REMOVED".
Definition TEAM_MEMBER_ADDED := "TEAM_MEMBER_ADDED".

(** The argument of [log] *)
Record LogOptions := mkLogOptions {
  opt_userId : option string;
  opt_action : string;
  opt_resource : string;
  opt_resourceId : option string;
  opt_details : option string;
  opt_ipAddress : option string;
  opt_userAgent : option string;
  opt_status : option string;
  opt_errorMessage : option string;
  opt_duration : option Z
}.

(** The argument of [_createSecurityIncident] *)
Record Candidate := mkCandidate {
  c_type : string;
  c_severity : string;
  c_title : string;
  c_description : string;
  c_affectedUsers : list string
}.

Definition newline : string := String (Ascii.ascii_of_nat 10) EmptyString.

Definition set_description (d : string) (i : SecurityIncident) : SecurityIncident :=
  mkSecurityIncident (si_id i) (si_type i) (si_severity i) (si_title i) d
    (si_status i) (si_detectedAt i) (si_affectedUsers i)
    (si_resolution i) (si_resolvedBy i) (si_resolvedAt i).

Definition isActiveStatus (s : IncidentStatus) : bool :=
  match s with OPEN | INVESTIGATING => true | _ => false end.

(** [affectedUsers: { hasSome: users }] *)
Definition hasSome (row users : list string) : bool :=
  existsb (includes row) users.

(** The [where] clause of the lookup in [_createSecurityIncident] *)
Definition correlates (now : Instant) (incident : Candidate) (i : SecurityIncident)
  : bool :=
  (si_type i =? c_type incident)
  && hasSome (si_affectedUsers i) (c_affectedUsers incident)
  && isActiveStatus (si_status i)
  && Z.leb (now - 60 * 60 * 1000) (si_detectedAt i).

Definition _createSecurityIncident (now : Instant) (incident : Candidate) : M unit :=
  existing <- securityIncident_findFirst (correlates now incident) ;;
  match existing with
  | Some existing =>
      securityIncident_update (si_id existing)
        (set_description (si_description existing ++ newline ++ c_description incident)) ;;;
      ret tt
  | None =>
      securityIncident_create now (fun id status detectedAt =>
        mkSecurityIncident id (c_type incident) (c_severity incident)
          (c_title incident) (c_description incident) status detectedAt
          (c_affectedUsers incident) None None None) ;;;
      (* the message starts with an alert emoji in the source *)
      logger warn ("Security Incident Created: " ++ c_title incident)
  end.

(** The same method as a call in flight: it awaits the lookup, then the
    write. *)
Definition _createSecurityIncident_task (now : Instant) (incident : Candidate)
  : Task unit :=
  Await (securityIncident_findFirst (correlates now incident)) (fun existing =>
    match existing with
    | Some existing =>
        Await (securityIncident_update (si_id existing)
                 (set_description
                    (si_description existing ++ newline ++ c_description incident)))
              (fun _ => Return tt)
    | None =>
        Await (securityIncident_create now (fun id status detectedAt =>
                 mkSecurityIncident id (c_type incident) (c_severity incident)
                   (c_title incident) (c_description incident) status detectedAt
                   (c_affectedUsers incident) None None None))
              (fun _ => Log warn ("Security Incident Created: " ++ c_title incident)
                          (Return tt))
    end).

(** [if (userId) { ... }]: the block runs, with the actor's id, when
    [userId] is truthy *)
Definition whenActor (userId : option string) (block : string -> M unit) : M unit :=
  match userId with
  | Some u => if truthy (Some u) then block u else ret tt
  | None => ret tt
  end.

Definition since (now window : Z) (l : AuditLog) : bool :=
  Z.leb (now - window) (al_createdAt l).

Definition bruteForceCandidate (u : string) (recentFailures : nat)
           (ipAddress : option string) : Candidate :=
  mkCandidate "BRUTE_FORCE" "HIGH" "Multiple failed login attempts detected"
    ("User " ++ u ++ " has " ++ showNat recentFailures
     ++ " failed login attempts in the last 15 minutes from IP " ++ interp ipAddress)
    [u].

(** First block of [_detectSuspiciousActivity]: multiple failed logins *)
Definition checkFailedLogins (now : Instant) (event : LogOptions) : M unit :=
  if opt_action event =? LOGIN_FAILED then
    whenActor (opt_userId event) (fun u =>
      recentFailures <- auditLog_count (fun l =>
          optString_eqb (al_userId l) (Some u)
          && (al_action l =? LOGIN_FAILED)
          && since now (15 * 60 * 1000) l) ;;
      if Nat.leb 5 recentFailures then
        _createSecurityIncident now
          (bruteForceCandidate u recentFailures (opt_ipAddress event))
      else ret tt)
  else ret tt.

(** Second block: unusual access patterns *)
Definition checkSensitiveAccess (now : Instant) (event : LogOptions) : M unit :=
  if opt_action event =? SENSITIVE_DATA_ACCESSED then
    whenActor (opt_userId event) (fun u =>
      recentAccess <- auditLog_count (fun l =>
          optString_eqb (al_userId l) (Some u)
          && (al_action l =? SENSITIVE_DATA_ACCESSED)
          && since now (60 * 60 * 1000) l) ;;
      if Nat.leb 50 recentAccess then
        _createSecurityIncident now
          (mkCandidate "SUSPICIOUS_ACTIVITY" "MEDIUM"
             "Unusual data access pattern detected"
             ("User " ++ u ++ " has accessed sensitive data " ++ showNat recentAccess
              ++ " times in the last hour")
             [u])
      else ret tt)
  else ret tt.

(** Third block: multiple IPs in short time *)
Definition checkMultipleIPs (now : Instant) (event : LogOptions) : M unit :=
  whenActor (opt_userId event) (fun u =>
    recentIPs <- auditLog_findMany_distinct_ipAddress (fun l =>
        optString_eqb (al_userId l) (Some u) && since now (30 * 60 * 1000) l) ;;
    if Nat.leb 5 (List.length recentIPs) then
      _createSecurityIncident now
        (mkCandidate "SUSPICIOUS_ACTIVITY" "MEDIUM"
           "Multiple IP addresses detected"
           ("User " ++ u ++ " has been active from " ++ showNat (List.length recentIPs)
            ++ " different IP addresses in the last 30 minutes")
           [u])
    else ret tt).

Definition _detectSuspiciousActivity (now : Instant) (event : LogOptions) : M unit :=
  checkFailedLogins now event ;;;
  checkSensitiveAccess now event ;;;
  checkMultipleIPs now event.

(** [status = 'SUCCESS'] in the destructuring of [options] *)
Definition statusOf (options : LogOptions) : string :=
  match opt_status options with Some s => s | None => "SUCCESS" end.

(** The [data] of the audit entry written by [log] *)
Definition entryOf (options : LogOptions) (id : nat) (createdAt : Instant) : AuditLog :=
  mkAuditLog id (opt_userId options) (opt_action options)
    (opt_resource options) (opt_resourceId options) (opt_details options)
    (opt_ipAddress options) (opt_userAgent options) (statusOf options)
    (opt_errorMessage options) (opt_duration options) createdAt.

Definition logLevel (options : LogOptions) : LogLevel :=
  if statusOf options =? "FAILURE" then warn else info.

Definition auditLine (options : LogOptions) : string :=
  "Audit: " ++ opt_action options ++ " on " ++ opt_resource options
  ++ (if truthy (opt_resourceId options)
      then "/" ++ interp (opt_resourceId options) else "").

(** [log] returns the written entry, or [undefined] ([None]) when the
    [catch] block ran. *)
Definition log (now : Instant) (options : LogOptions) : M (option AuditLog) :=
  try_catch
    (auditLog <- auditLog_create now (entryOf options) ;;
     logger (logLevel options) (auditLine options) ;;;
     _detectSuspiciousActivity now options ;;;
     ret (Some auditLog))
    (fun e => logger error "Failed to create audit log:" ;;; ret None).

Definition resolved (now : Instant) (resolution resolvedBy : string)
           (i : SecurityIncident) : SecurityIncident :=
  mkSecurityIncident (si_id i) (si_type i) (si_severity i) (si_title i)
    (si_description i) RESOLVED (si_detectedAt i) (si_affectedUsers i)
    (Some resolution) (Some resolvedBy) (Some now).

Definition resolveIncident (now : Instant) (incidentId : nat)
           (resolution resolvedBy : string) : M SecurityIncident :=
  incident <- securityIncident_update incidentId (resolved now resolution resolvedBy) ;;
  log now (mkLogOptions (Some resolvedBy) SECURITY_INCIDENT_RESOLVED
             "SecurityIncident" (Some (showNat incidentId)) (Some resolution)
             None None None None None) ;;;
  ret incident.

(** [pagination] of [getLogs] and [getSecurityIncidents]; [pages] is
    [Math.ceil(total / limit)], which is no number when [limit] is 0 *)
Record Pagination := mkPagination {
  pg_page : nat;
  pg_limit : nat;
  pg_total : nat;
  pg_pages : option nat
}.

Definition ceilDiv (total limit : nat) : option nat :=
  match limit with
  | O => None
  | S _ => Some (Nat.div (total + limit - 1) limit)
  end.

(** The argument of [getLogs]; an absent field is [None] *)
Record LogFilters := mkLogFilters {
  f_userId : option string;
  f_action : option string;
  f_resource : option string;
  f_status : option string;
  f_startDate : option Instant;
  f_endDate : option Instant;
  f_page : option nat;
  f_limit : option nat
}.

(** [if (x) where.field = x] *)
Definition whenGiven (x : option string) (value : option string) : bool :=
  if truthy x then optString_eqb value x else true.

Definition logsWhere (filters : LogFilters) (l : AuditLog) : bool :=
  whenGiven (f_userId filters) (al_userId l)
  && whenGiven (f_action filters) (Some (al_action l))
  && whenGiven (f_resource filters) (Some (al_resource l))
  && whenGiven (f_status filters) (Some (al_status l))
  && match f_startDate filters with
     | Some startDate => Z.leb startDate (al_createdAt l)
     | None => true
     end
  && match f_endDate filters with
     | Some endDate => Z.leb (al_createdAt l) endDate
     | None => true
     end.

Definition orDefault (x : option nat) (d : nat) : nat :=
  match x with Some n => n | None => d end.

(** The entries are returned without the joined user columns. *)
Definition getLogs (filters : LogFilters) : M (list AuditLog * Pagination) :=
  let page := orDefault (f_page filters) 1 in
  let limit := orDefault (f_limit filters) 50 in
  r <- Promise_all2
         (auditLog_findMany (logsWhere filters)
            ((Z.of_nat page - 1) * Z.of_nat limit) limit)
         (auditLog_count (logsWhere filters)) ;;
  ret (fst r, mkPagination page limit (snd r) (ceilDiv (snd r) limit)).

(** [days] is a whole number: the route passes [parseInt(days) || 30].  The
    source computes in doubles: the product is exact up to 2^53 ms, some
    285000 years, and a start that far back is no [Date]. *)
Definition getUserActivity (dateTime : Instant -> option Exn)
           (now : Instant) (userId : string) (days : Z)
  : M (list AuditLog * list (string * nat)) :=
  let startDate := now - days * 24 * 60 * 60 * 1000 in
  let where_ := fun l => optString_eqb (al_userId l) (Some userId)
                         && Z.leb startDate (al_createdAt l) in
  Promise_all2 (withDateTime dateTime startDate (auditLog_findMany where_ 0 100))
               (withDateTime dateTime startDate (auditLog_groupBy_action where_)).

Record IncidentFilters := mkIncidentFilters {
  if_type : option string;
  if_severity : option string;
  if_status : option string;
  if_page : option nat;
  if_limit : option nat
}.

Definition statusName (s : IncidentStatus) : string :=
  match s with
  | OPEN => "OPEN"
  | INVESTIGATING => "INVESTIGATING"
  | RESOLVED => "RESOLVED"
  | FALSE_POSITIVE => "FALSE_POSITIVE"
  end.

Definition incidentsWhere (filters : IncidentFilters) (i : SecurityIncident) : bool :=
  whenGiven (if_type filters) (Some (si_type i))
  && whenGiven (if_severity filters) (Some (si_severity i))
  && whenGiven (if_status filters) (Some (statusName (si_status i))).

Definition getSecurityIncidents (filters : IncidentFilters)
  : M (list SecurityIncident * Pagination) :=
  let page := orDefault (if_page filters) 1 in
  let limit := orDefault (if_limit filters) 20 in
  r <- Promise_all2
         (securityIncident_findMany (incidentsWhere filters)
            ((Z.of_nat page - 1) * Z.of_nat limit) limit)
         (securityIncident_count (incidentsWhere filters)) ;;
  ret (fst r, mkPagination page limit (snd r) (ceilDiv (snd r) limit)).

(** [parseInt(process.env.AUDIT_LOG_RETENTION_DAYS) || 365], on the result of
    [parseInt] ([None] for NaN) *)
Definition retentionDays (parsed : option Z) : Z :=
  match parsed with
  | Some n => if Z.eqb n 0 then 365 else n
  | None => 365
  end.

(** The source computes the cutoff in doubles: the product is exact up to
    2^53 ms, some 285000 years, and a cutoff that far back is no [Date]. *)
Definition cleanupOldLogs (dateTime : Instant -> option Exn)
           (now : Instant) (AUDIT_LOG_RETENTION_DAYS : option Z) : M nat :=
  let retentionDays := retentionDays AUDIT_LOG_RETENTION_DAYS in
  let cutoffDate := now - retentionDays * 24 * 60 * 60 * 1000 in
  count <- withDateTime dateTime cutoffDate
             (auditLog_deleteMany (fun l => Z.ltb (al_createdAt l) cutoffDate)) ;;
  logger info ("Cleaned up " ++ showNat count ++ " audit logs older than "
               ++ showZ retentionDays ++ " days") ;;;
  ret count.

End AuditService.

(** ** Requests, responses and the error handler *)

(** [req.user], as attached by [authenticate] from the verified JWT *)
Record User := mkUser {
  u_userId : string;
  u_email : string;
  u_roles : list string;
  u_permissions : list string
}.

Record Request := mkRequest {
  req_user : option User;
  req_params_teamId : option string;
  req_params_userId : option string;
  req_body_teamId : option string;
  req_body_role : option TeamRole;
  req_clientIP : string;                 (* the result of getClientIP(req) *)
  req_userAgent : option string;
  req_teamMembership : option TeamMember
}.

Definition set_teamMembership (m : TeamMember) (req : Request) : Request :=
  mkRequest (req_user req) (req_params_teamId req) (req_params_userId req)
    (req_body_teamId req) (req_body_role req) (req_clientIP req)
    (req_userAgent req) (Some m).

(** What a middleware hands to Express: [next()] or [next(err)] *)
Inductive Step : Type :=
| Next (req : Request)
| NextError (e : Exn).

Inductive Payload : Type :=
| ErrorText (error : string)
| MessageText (message : string)
| MembershipData (membership : TeamMember).

(** [res.status(code).json({ success, ... })] *)
Inductive Response : Type :=
| Json (status : nat) (success : bool) (payload : Payload).

Definition statusCode (e : Exn) : nat :=
  match e with
  | Error _ => 500%nat
  | ValidationError _ => 400%nat
  | AuthenticationError _ => 401%nat
  | AuthorizationError _ => 403%nat
  | NotFoundError _ => 404%nat
  | ConflictError _ => 409%nat
  | RateLimitError _ => 429%nat
  | PrismaClientError code =>
      if code =? "P2002" then 409%nat else if code =? "P2025" then 404%nat else 500%nat
  end.

Definition messageOf (e : Exn) : string :=
  match e with
  | Error m | ValidationError m | AuthenticationError m
  | AuthorizationError m | ConflictError m => m
  | NotFoundError r => r ++ " not found"
  | RateLimitError _ => "Too many requests"
  | PrismaClientError code =>
      if code =? "P2002" then "A record with this value already exists"
      else if code =? "P2025" then "Record not found"
      else "Internal server error"
  end.

(** The error handler writes a line to the local log, at [error] for a
    status of 500 and above and at [warn] from 400 on, and answers. *)
Definition errorHandler (e : Exn) : M Response :=
  let statusCode := statusCode e in
  (if Nat.leb 500 statusCode then logger error "Server error:"
   else if Nat.leb 400 statusCode then logger warn "Client error:"
   else ret tt) ;;;
  ret (Json statusCode false (ErrorText (messageOf e))).

(** [asyncHandler(fn)]: a rejection of the handler goes to the error handler *)
Definition asyncHandler (fn : M Response) : M Response :=
  try_catch fn errorHandler.

(** ** Authorization middleware (middleware/auth.js) *)

Module Auth.
Import Prisma.

Definition join (sep : string) (xs : list string) : string := String.concat sep xs.

Definition requirePermission (permissions : list string)
           (now : Instant) (req : Request) : M Step :=
  match req_user req with
  | None => ret (NextError (AuthenticationError "Authentication required"))
  | Some user =>
      let hasPermission :=
        existsb (fun perm => includes (u_permissions user) perm) permissions in
      if negb hasPermission then
        dbCheck <- RBACService.hasAnyPermission now (u_userId user) permissions ;;
        if negb dbCheck then
          logger warn ("Access denied: User " ++ u_userId user
                       ++ " lacks permission(s): " ++ join ", " permissions) ;;;
          ret (NextError (AuthorizationError "Missing required permission"))
        else ret (Next req)
      else ret (Next req)
  end.

Definition requireAllPermissions (permissions : list string)
           (now : Instant) (req : Request) : M Step :=
  match req_user req with
  | None => ret (NextError (AuthenticationError "Authentication required"))
  | Some user =>
      let hasAll :=
        forallb (fun perm => includes (u_permissions user) perm) permissions in
      if negb hasAll then
        dbCheck <- RBACService.hasAllPermissions now (u_userId user) permissions ;;
        if negb dbCheck then
          logger warn ("Access denied: User " ++ u_userId user
                       ++ " missing permissions") ;;;
          ret (NextError (AuthorizationError "Insufficient permissions"))
        else ret (Next req)
      else ret (Next req)
  end.

(** [roleHierarchy.indexOf(role)] for
    [roleHierarchy = ['VIEWER', 'MEMBER', 'LEAD', 'OWNER']] *)
Definition roleIndex (role : TeamRole) : nat :=
  match role with VIEWER => 0 | MEMBER => 1 | LEAD => 2 | OWNER => 3 end%nat.

Definition roleName (role : TeamRole) : string :=
  match role with
  | VIEWER => "VIEWER" | MEMBER => "MEMBER" | LEAD => "LEAD" | OWNER => "OWNER"
  end.

(** [a || b] on possibly missing strings *)
Definition orElse (a b : option string) : option string :=
  if truthy a then a else b.

Definition requireTeamMembership (minRole : TeamRole) (req : Request) : M Step :=
  match req_user req with
  | None => ret (NextError (AuthenticationError "Authentication required"))
  | Some user =>
      let teamId := orElse (req_params_teamId req) (req_body_teamId req) in
      if negb (truthy teamId) then
        ret (NextError (AuthorizationError "Team ID required"))
      else if includes (u_roles user) "admin" then ret (Next req)
      else
        membership <- teamMember_findUnique (interp teamId) (u_userId user) ;;
        match membership with
        | None => ret (NextError (AuthorizationError "Not a member of this team"))
        | Some membership =>
            if Nat.ltb (roleIndex (tm_role membership)) (roleIndex minRole) then
              ret (NextError (AuthorizationError
                     ("Requires " ++ roleName minRole ++ " role or higher in team")))
            else ret (Next (set_teamMembership membership req))
        end
  end.

End Auth.

(** ** Team membership routes (routes/team.routes.js) *)

Module TeamRoutes.
Import Prisma.

Definition set_role (role : TeamRole) (m : TeamMember) : TeamMember :=
  mkTeamMember (tm_teamId m) (tm_userId m) role (tm_joinedAt m) (tm_leftAt m).

Definition set_leftAt (leftAt : option Instant) (m : TeamMember) : TeamMember :=
  mkTeamMember (tm_teamId m) (tm_userId m) (tm_role m) (tm_joinedAt m) leftAt.

Definition isOwner (role : TeamRole) : bool :=
  match role with OWNER => true | _ => false end.

(** [logAction] of middleware/audit.js *)
Definition logAction (now : Instant) (req : Request) (action resource : string)
           (resourceId : string) (details : option string) : M (option AuditLog) :=
  AuditService.log now
    (AuditService.mkLogOptions
       (match req_user req with Some u => Auth.orElse (Some (u_userId u)) None
                              | None => None end)
       action resource (Some resourceId) details
       (Some (req_clientIP req)) (req_userAgent req) None None None).

(** Handler of [PUT /teams/:teamId/members/:userId] *)
Definition updateMemberRole (teamId userId : string) (role : TeamRole) : M Response :=
  membership <- teamMember_update teamId userId (set_role role) ;;
  ret (Json 200%nat true (MembershipData membership)).

(** Handler of [DELETE /teams/:teamId/members/:userId] *)
Definition removeMember (now : Instant) (req : Request) (teamId userId : string)
  : M Response :=
  owners <- teamMember_count (fun m => (tm_teamId m =? teamId) && isOwner (tm_role m)) ;;
  member <- teamMember_findUnique teamId userId ;;
  if (match member with Some m => isOwner (tm_role m) | None => false end)
     && Nat.leb owners 1
  then
    ret (Json 400%nat false
           (ErrorText "Cannot remove the last owner. Transfer ownership first."))
  else
    teamMember_update teamId userId (set_leftAt (Some now)) ;;;
    logAction now req AuditService.TEAM_MEMBER_REMOVED "Team" teamId (Some userId) ;;;
    ret (Json 200%nat true (MessageText "Member removed from team")).

(** A route: the membership middleware, then the handler under
    [asyncHandler].  [authenticate] has run before and attached [req.user]. *)
Definition route (minRole : TeamRole) (handler : Request -> M Response)
           (req : Request) : M Response :=
  step <- Auth.requireTeamMembership minRole req ;;
  match step with
  | Next req' => asyncHandler (handler req')
  | NextError e => errorHandler e
  end.

Definition PUT_member (teamId userId : string) (role : TeamRole) (req : Request)
  : M Response :=
  route OWNER (fun _ => updateMemberRole teamId userId role) req.

Definition DELETE_member (now : Instant) (teamId userId : string) (req : Request)
  : M Response :=
  route LEAD (fun req' => removeMember now req' teamId userId) req.

(** Handler of [POST /teams/:teamId/members].  The express-validator chains
    of the route record their findings, and the handler does not consult
    them: every team role reaches [create].  The details object
    [{ memberId, role }] of the audit entry is written as its two values. *)
Definition addMember (users : list UserRow) (now : Instant) (req : Request)
           (teamId userId : string) (role : TeamRole) : M Response :=
  user <- user_findUnique users userId ;;
  match user with
  | None => ret (Json 404%nat false (ErrorText "User not found"))
  | Some _ =>
      existing <- teamMember_findUnique teamId userId ;;
      match existing with
      | Some _ => ret (Json 409%nat false (ErrorText "User is already a team member"))
      | None =>
          membership <- teamMember_create now teamId userId role ;;
          logAction now req AuditService.TEAM_MEMBER_ADDED "Team" teamId
            (Some (userId ++ " " ++ Auth.roleName role)) ;;;
          ret (Json 201%nat true (MembershipData membership))
      end
  end.

Definition POST_member (users : list UserRow) (now : Instant)
           (teamId userId : string) (role : TeamRole) (req : Request) : M Response :=
  route LEAD (fun req' => addMember users now req' teamId userId role) req.

End TeamRoutes.

(** * Properties *)

(** ** Vocabulary of the statements *)

(** The assignment's expires-at instant is in the past *)
Definition isPast (now : Instant) (ur : UserRole) : bool :=
  match ur_expiresAt ur with
  | Some e => Z.ltb e now
  | None => false
  end.

(** The ledger without the assignments whose expires-at is in the past *)
Definition purgeExpired (now : Instant) (w : World) : World :=
  set_userRoles (filter (fun ur => negb (isPast now ur)) (userRoles w)) w.

(** The [where] clause of the duplicate check and of the deletion *)
Definition assigned (userId roleId : string) (ur : UserRole) : bool :=
  (ur_userId ur =? userId) && (ur_roleId ur =? roleId).

(** The role row with this name, if any *)
Definition roleNamed (roleName : string) (w : World) : option Role :=
  find (fun r => role_name r =? roleName) (roles w).

(** *** Scenarios of the role store

    The default role [member] of rbac.service.js *)
Definition memberRole : Role :=
  mkRole "role-member" "member" "Standard team member"
    ["users:read"; "teams:read"; "projects:read"; "projects:write";
     "documents:read"; "documents:write"; "github:read"; "github:write";
     "ai:analyze"]
    true.

(** Empty tables and a storage layer that answers *)
Definition emptyWorld : World := mkWorld [] [] [] [] [] 0 [] [].

(** Only the role store is populated. *)
Definition rolesOnly : World := mkWorld [memberRole] [] [] [] [] 0 [] [].

(** Actor [u1] holds the global role [member] and is LEAD of team [t1]. *)
Definition leadOfT1 : World :=
  mkWorld [memberRole]
          [mkUserRole "u1" "role-member" "admin" 0 None]
          [mkTeamMember "t1" "u1" LEAD 0 None]
          [] [] 0 [] [].

(** The same actor after [DELETE /teams/t1/members/u1] at instant 50: the
    membership row is kept, with its left-at instant set. *)
Definition leftT1 : World :=
  mkWorld [memberRole]
          [mkUserRole "u1" "role-member" "admin" 0 None]
          [mkTeamMember "t1" "u1" LEAD 0 (Some 50)]
          [] [] 0 [] [].

(** Actor [u1] was granted [member] until instant 50. *)
Definition lapsedMember : World :=
  mkWorld [memberRole]
          [mkUserRole "u1" "role-member" "admin" 0 (Some 50)]
          [] [] [] 0 [] [].

(** *** Scenarios of the middleware and of the membership routes

    A request of actor [u1] whose token lists [teams:write] *)
Definition tokenRequest : Request :=
  mkRequest (Some (mkUser "u1" "u1@example.org" ["team_lead"] ["teams:read"; "teams:write"]))
            (Some "t1") None None None "10.0.0.1" None None.

(** The role store after every assignment of [u1] has been revoked, with a
    storage layer that rejects the next query. *)
Definition revokedAndDown : World := mkWorld [memberRole] [] [] [] [] 0 [true] [].

(** Team [t1] with its single OWNER [u1] and a MEMBER [u2] *)
Definition soleOwner : World :=
  mkWorld [memberRole] []
          [mkTeamMember "t1" "u1" OWNER 0 None; mkTeamMember "t1" "u2" MEMBER 0 None]
          [] [] 0 [] [].

(** Team [t1] whose former OWNER [u0] left at instant 50; [u1] is the only
    active OWNER. *)
Definition formerOwner : World :=
  mkWorld [memberRole] []
          [mkTeamMember "t1" "u0" OWNER 0 (Some 50); mkTeamMember "t1" "u1" OWNER 0 None]
          [] [] 0 [] [].

(** A request of the owner [u1] on team [t1] *)
Definition ownerRequest : Request :=
  mkRequest (Some (mkUser "u1" "u1@example.org" ["member"] []))
            (Some "t1") (Some "u1") None (Some MEMBER) "10.0.0.1" None None.

(** The active OWNER memberships of a team *)
Definition activeOwners (teamId : string) (w : World) : list TeamMember :=
  filter (fun m => (tm_teamId m =? teamId) && TeamRoutes.isOwner (tm_role m)
                   && match tm_leftAt m with None => true | Some _ => false end)
         (teamMembers w).

(** *** Incidents

    Incident identifiers are unique and come from the id supply. *)
Definition WellFormed (w : World) : Prop :=
  NoDup (map si_id (securityIncidents w))
  /\ Forall (fun i => (si_id i < nextId w)%nat) (securityIncidents w).

(** The description of the incident with the identifier of [ex] is extended
    by a line. *)
Definition mergeInto (ex : SecurityIncident) (line : string)
           (l : list SecurityIncident) : list SecurityIncident :=
  map (fun i => if Nat.eqb (si_id i) (si_id ex)
                then AuditService.set_description
                       (si_description ex ++ AuditService.newline ++ line) i
                else i) l.

(** The incident inserted for candidate [c] at [now] *)
Definition freshIncident (id : nat) (now : Instant) (c : AuditService.Candidate)
  : SecurityIncident :=
  mkSecurityIncident id (AuditService.c_type c) (AuditService.c_severity c)
    (AuditService.c_title c) (AuditService.c_description c) OPEN now
    (AuditService.c_affectedUsers c) None None None.

(** The incident table after create-or-merge of candidate [c] at [now] *)
Definition afterCreateOrMerge (now : Instant) (c : AuditService.Candidate) (id : nat)
           (l : list SecurityIncident) : list SecurityIncident :=
  match find (AuditService.correlates now c) l with
  | Some ex => mergeInto ex (AuditService.c_description c) l
  | None => (l ++ [freshIncident id now c])%list
  end.

(** The words of the claim on create-or-merge.  An incident is active when
    its status is OPEN or INVESTIGATING. *)
Definition Active (s : IncidentStatus) : Prop := s = OPEN \/ s = INVESTIGATING.

(** The two lists of affected actors have an actor in common. *)
Definition ShareActor (a b : list string) : Prop := exists u, In u a /\ In u b.

(** One hour, in milliseconds *)
Definition oneHour : Z := 3600000.

(** The incident is one that the candidate is merged into: same type,
    active, an affected actor in common, detected within the hour before
    [now]. *)
Definition Matches (now : Instant) (c : AuditService.Candidate) (i : SecurityIncident)
  : Prop :=
  si_type i = AuditService.c_type c
  /\ Active (si_status i)
  /\ ShareActor (si_affectedUsers i) (AuditService.c_affectedUsers c)
  /\ now - oneHour <= si_detectedAt i.

(** The invariant: no two distinct active incidents of one type that share
    an affected actor are detected within one hour of each other. *)
Definition OnePerWindow (l : list SecurityIncident) : Prop :=
  forall a b,
    In a l -> In b l -> si_id a <> si_id b ->
    si_type a = si_type b ->
    Active (si_status a) -> Active (si_status b) ->
    ShareActor (si_affectedUsers a) (si_affectedUsers b) ->
    Z.abs (si_detectedAt a - si_detectedAt b) <= oneHour ->
    False.

(** The incident with [line] appended to its description after a line feed;
    nothing else changes, severity and status included. *)
Definition withLine (line : string) (i : SecurityIncident) : SecurityIncident :=
  mkSecurityIncident (si_id i) (si_type i) (si_severity i) (si_title i)
    (si_description i ++ String (Ascii.ascii_of_nat 10) EmptyString ++ line)
    (si_status i) (si_detectedAt i) (si_affectedUsers i)
    (si_resolution i) (si_resolvedBy i) (si_resolvedAt i).

(** The table in which the incident with the identifier [id] got the line *)
Definition lineAdded (id : nat) (line : string) (l : list SecurityIncident)
  : list SecurityIncident :=
  map (fun i => if Nat.eqb (si_id i) id then withLine line i else i) l.

(** Two detections of failed logins of [u1], one millisecond apart *)
Definition fifthDetection : AuditService.Candidate :=
  AuditService.bruteForceCandidate "u1" 5 (Some "10.0.0.1").

Definition sixthDetection : AuditService.Candidate :=
  AuditService.bruteForceCandidate "u1" 6 (Some "10.0.0.1").

(** The state machine of the claim on the status of an incident *)
Inductive Transition : IncidentStatus -> IncidentStatus -> Prop :=
| OPEN_INVESTIGATING : Transition OPEN INVESTIGATING
| INVESTIGATING_RESOLVED : Transition INVESTIGATING RESOLVED
| OPEN_FALSE_POSITIVE : Transition OPEN FALSE_POSITIVE.

(** Every incident of [before] is still there in [after], at the same
    position and with the same identifier, and its status has moved by [R]. *)
Definition Evolves (R : IncidentStatus -> IncidentStatus -> Prop)
           (before after : list SecurityIncident) : Prop :=
  forall k a, nth_error before k = Some a ->
              exists b, nth_error after k = Some b
                        /\ si_id b = si_id a /\ R (si_status a) (si_status b).

(** The only move of a status: none, or to RESOLVED *)
Definition staysOrResolves (a b : IncidentStatus) : Prop := b = a \/ b = RESOLVED.

(** The incidents of one type *)
Definition ofType (type : string) (l : list SecurityIncident) : list SecurityIncident :=
  filter (fun i => si_type i =? type) l.

(** The actor's failed logins since [now - 15 min] *)
Definition failedLogins (now : Instant) (u : string) (l : list AuditLog) : nat :=
  List.length (filter (fun e => Prisma.optString_eqb (al_userId e) (Some u)
                                && (al_action e =? AuditService.LOGIN_FAILED)
                                && AuditService.since now (15 * 60 * 1000) e) l).

(** An open brute-force incident on actor [u1], detected at instant 1000 *)
Definition openBruteForce : SecurityIncident :=
  mkSecurityIncident 0 "BRUTE_FORCE" "HIGH" "Multiple failed login attempts detected"
    "first detection" OPEN 1000 ["u1"] None None None.

(** A store that holds this incident only *)
Definition oneIncident : World :=
  mkWorld [] [] [] [] [openBruteForce] 1 [] [].

(** A failed login of actor [u] from address [ip] *)
Definition failedLogin (u : string) (ip : option string) : AuditService.LogOptions :=
  AuditService.mkLogOptions (Some u) AuditService.LOGIN_FAILED "Auth" None None
    ip None (Some "FAILURE") None None.

(** Storage accepts the entry and rejects the first query of the detector. *)
Definition detectorDown : World := mkWorld [] [] [] [] [] 0 [false; true] [].

(** The event is a failed authentication of actor [u]. *)
Definition isFailedLoginOf (u : string) (event : AuditService.LogOptions) : Prop :=
  AuditService.opt_action event = AuditService.LOGIN_FAILED
  /\ AuditService.opt_userId event = Some u.

(** Recording a sequence of events, each at its own instant *)
Definition recordAll (events : list (Instant * AuditService.LogOptions)) (w : World)
  : World :=
  fold_left (fun w e => snd (AuditService.log (fst e) (snd e) w)) events w.

(** After [k] failed logins of [u] recorded in the quarter of an hour that
    starts at [t0]: storage answers, all of them are in the window of any
    instant of that quarter, and there is no brute-force incident before the
    fifth and exactly one, OPEN, from the fifth on. *)
Definition Recorded (t0 : Instant) (u : string) (k : nat) (w : World) : Prop :=
  faults w = [] /\ WellFormed w
  /\ (forall now, t0 <= now <= t0 + 15 * 60 * 1000 ->
                  failedLogins now u (auditLogs w) = k)
  /\ ((k < 5)%nat -> ofType "BRUTE_FORCE" (securityIncidents w) = [])
  /\ ((5 <= k)%nat ->
      exists i, ofType "BRUTE_FORCE" (securityIncidents w) = [i]
                /\ si_type i = "BRUTE_FORCE" /\ si_status i = OPEN
                /\ si_severity i = "HIGH" /\ si_affectedUsers i = [u]
                /\ t0 <= si_detectedAt i).

(** Five failed logins of [u1] within five seconds, and a sixth *)
Definition fiveFailures : list (Instant * AuditService.LogOptions) :=
  [(1000, failedLogin "u1" (Some "10.0.0.1"));
   (2000, failedLogin "u1" (Some "10.0.0.1"));
   (3000, failedLogin "u1" (Some "10.0.0.2"));
   (4000, failedLogin "u1" (Some "10.0.0.1"));
   (5000, failedLogin "u1" (Some "10.0.0.1"))].

(** The sixth failure, one second later *)
Definition sixthFailure : Instant * AuditService.LogOptions :=
  (6000, failedLogin "u1" (Some "10.0.0.3")).

(** The computation moves the status of existing incidents by [R] only. *)
Definition Keeps (R : IncidentStatus -> IncidentStatus -> Prop) {A} (m : M A) : Prop :=
  forall w, Evolves R (securityIncidents w) (securityIncidents (snd (m w))).

(** *** Role administration

    Every assignment points to a role row. *)
Definition Integrity (w : World) : Prop :=
  forall ur, In ur (userRoles w) -> In (ur_roleId ur) (map role_id (roles w)).

(** A specification of a computation: the postcondition [Q] on its result
    and final world when it returns, [E] on its final world when it throws *)
Definition Spec {A} (P : World -> Prop) (m : M A)
           (Q : A -> World -> Prop) (E : World -> Prop) : Prop :=
  forall w, P w ->
            match m w with
            | (Ok a, w') => Q a w'
            | (Throw _, w') => E w'
            end.

(** The condition does not read the fault schedule. *)
Definition Stable (P : World -> Prop) : Prop :=
  forall fs w, P w -> P (set_faults fs w).

(** A custom role [auditor] held by [u2] (lapsed) and [u3], next to [member] *)
Definition auditorRole : Role :=
  mkRole "role-auditor" "auditor" "Reads the audit trail" ["admin:audit_logs"] false.

Definition withAuditors : World :=
  mkWorld [memberRole; auditorRole]
          [mkUserRole "u1" "role-member" "admin" 0 None;
           mkUserRole "u2" "role-auditor" "admin" 0 (Some 50);
           mkUserRole "u3" "role-auditor" "admin" 0 None]
          [] [] [] 0 [] [].

(** Integrity, and the role at hand is a role row *)
Definition KnownRole (role : option Role) (w : World) : Prop :=
  Integrity w
  /\ match role with
     | Some r => In (role_id r) (map role_id (roles w))
     | None => True
     end.

(** Integrity, and no assignment of the role that is being deleted *)
Definition Unreferenced (roleId : string) (w : World) : Prop :=
  Integrity w /\ forall ur, In ur (userRoles w) -> ur_roleId ur <> roleId.

(** *** Audit queries

    The filters with another page number *)
Definition withPage (p : nat) (filters : AuditService.LogFilters)
  : AuditService.LogFilters :=
  AuditService.mkLogFilters
    (AuditService.f_userId filters) (AuditService.f_action filters)
    (AuditService.f_resource filters) (AuditService.f_status filters)
    (AuditService.f_startDate filters) (AuditService.f_endDate filters)
    (Some p) (AuditService.f_limit filters).

Definition withIncidentPage (p : nat) (filters : AuditService.IncidentFilters)
  : AuditService.IncidentFilters :=
  AuditService.mkIncidentFilters
    (AuditService.if_type filters) (AuditService.if_severity filters)
    (AuditService.if_status filters) (Some p) (AuditService.if_limit filters).

(** The rows of page [p] when pages hold [limit] rows *)
Definition pageRows {A} (limit p : nat) (all : list A) : list A :=
  firstn limit (skipn ((p - 1) * limit) all).

(** The store after the six failed logins of the scenario *)
Definition sixRecorded : World := recordAll (fiveFailures ++ [sixthFailure]) emptyWorld.

(** *** The rules on sensitive access and on origins

    The candidate of the second block of the detector *)
Definition sensitiveCandidate (u : string) (recentAccess : nat) : AuditService.Candidate :=
  AuditService.mkCandidate "SUSPICIOUS_ACTIVITY" "MEDIUM"
    "Unusual data access pattern detected"
    ("User " ++ u ++ " has accessed sensitive data " ++ showNat recentAccess
     ++ " times in the last hour")
    [u].

(** The candidate of the third block of the detector *)
Definition originsCandidate (u : string) (recentIPs : nat) : AuditService.Candidate :=
  AuditService.mkCandidate "SUSPICIOUS_ACTIVITY" "MEDIUM"
    "Multiple IP addresses detected"
    ("User " ++ u ++ " has been active from " ++ showNat recentIPs
     ++ " different IP addresses in the last 30 minutes")
    [u].

(** The origin addresses of the actor's entries since [now - 30 min] *)
Definition originsOf (now : Instant) (u : string) (l : list AuditLog)
  : list (option string) :=
  map al_ipAddress
      (filter (fun e => Prisma.optString_eqb (al_userId e) (Some u)
                        && AuditService.since now (30 * 60 * 1000) e) l).

(** The actor's sensitive accesses since [now - 60 min] *)
Definition sensitiveAccesses (now : Instant) (u : string) (l : list AuditLog) : nat :=
  List.length
    (filter (fun e => Prisma.optString_eqb (al_userId e) (Some u)
                      && (al_action e =? AuditService.SENSITIVE_DATA_ACCESSED)
                      && AuditService.since now (60 * 60 * 1000) e) l).

(** An event of actor [u1] from address [ip] *)
Definition pageView (ip : string) : AuditService.LogOptions :=
  AuditService.mkLogOptions (Some "u1") "TEAM_READ" "Team" None None
    (Some ip) None None None None.

(** Four events of [u1] within four seconds, each from another address *)
Definition fourOrigins : list (Instant * AuditService.LogOptions) :=
  [(1000, pageView "10.0.0.1"); (2000, pageView "10.0.0.2");
   (3000, pageView "10.0.0.3"); (4000, pageView "10.0.0.4")].

(** A failed login without an actor *)
Definition anonymousFailure : AuditService.LogOptions :=
  AuditService.mkLogOptions None AuditService.LOGIN_FAILED "Auth" None None
    (Some "10.0.0.9") None (Some "FAILURE") None None.

(** A sensitive access of actor [u1] from address [ip] *)
Definition sensitiveAccess (ip : string) : AuditService.LogOptions :=
  AuditService.mkLogOptions (Some "u1") AuditService.SENSITIVE_DATA_ACCESSED "Document"
    None None (Some ip) None None None None.

(** Forty-nine sensitive accesses of [u1] within fifty milliseconds, from four
    addresses in turn *)
Definition fortyNineAccesses : list (Instant * AuditService.LogOptions) :=
  map (fun k => (1000 + Z.of_nat k,
                 sensitiveAccess ("10.0.0." ++ showNat (Nat.modulo k 4))))
      (seq 0 49).

(** *** Frames *)

(** The access-control tables *)
Definition accessTables (w : World) : list Role * list UserRole * list TeamMember :=
  (roles w, userRoles w, teamMembers w).

(** A condition on the world that a computation keeps, whether it returns or
    throws *)
Definition Invariant {A : Type} (P : World -> Prop) (m : M A) : Prop :=
  forall w, P w -> P (snd (m w)).

(** *** Scenarios of the membership routes *)

(** The key of a membership row *)
Definition membershipKey (m : TeamMember) : string * string :=
  (tm_teamId m, tm_userId m).

(** No two membership rows for the same team and user *)
Definition UniqueMemberships (w : World) : Prop :=
  NoDup (map membershipKey (teamMembers w)).

(** The where clause of the owner count in the DELETE handler *)
Definition ownerOf (teamId : string) (m : TeamMember) : bool :=
  (tm_teamId m =? teamId) && TeamRoutes.isOwner (tm_role m).

(** A request of [userId] on team [teamId], with a token without roles *)
Definition requestOf (userId teamId : string) : Request :=
  mkRequest (Some (mkUser userId (userId ++ "@example.org") [] []))
            (Some teamId) None None None "10.0.0.1" None None.

(** Team [t1] with the owner [u0], the lead [u1] and the member [u2] *)
Definition smallTeam : World :=
  mkWorld [] []
          [mkTeamMember "t1" "u0" OWNER 0 None; mkTeamMember "t1" "u1" LEAD 0 None;
           mkTeamMember "t1" "u2" MEMBER 0 None]
          [] [] 0 [] [].

(** *** Instants that the store accepts

    A store whose [DateTime] columns hold the years 1 to 9999 and which
    rejects an instant outside them with P2020 *)
Definition yearsOneTo9999 (t : Instant) : option Exn :=
  if Z.leb (-62135596800000) t && Z.leb t 253402300799999 then None
  else Some (PrismaClientError "P2020").

(** * Lemmas and theorems *)

Lemma includes_In (xs : list string) (x : string) :
  includes xs x = true <-> In x xs.
Proof.
  unfold includes. rewrite existsb_exists. split.
  - intros [y [Hin Heq]]. apply String.eqb_eq in Heq. subst. exact Hin.
  - intros Hin. exists x. split; [exact Hin|apply String.eqb_refl].
Qed.

(** ** Running a query *)

Lemma query_ok {A} (run : M A) (w : World) :
  faults w = [] -> query run w = run w.
Proof. intros H; unfold query; rewrite H; reflexivity. Qed.

Lemma query_fault {A} (run : M A) (w : World) (fs : list bool) :
  faults w = true :: fs ->
  query run w = (Throw (PrismaClientError "P1001"), set_faults fs w).
Proof. intros H; unfold query; rewrite H; reflexivity. Qed.

Ltac run_query := rewrite query_ok by (simpl; assumption).

(** ** Role assignments and their expiry *)

Module RBACFacts.
Import Prisma RBACService.

Lemma active_not_past now userId ur :
  activeOf now userId ur = true -> isPast now ur = false.
Proof.
  unfold activeOf, notExpired, isPast.
  destruct (ur_expiresAt ur) as [e|]; [|reflexivity].
  intros H; apply andb_prop in H; destruct H as [_ H].
  apply Z.ltb_lt in H; apply Z.ltb_ge; lia.
Qed.

Lemma filter_filter_implied {A} (p q : A -> bool) (l : list A) :
  (forall x, p x = true -> q x = true) ->
  filter p (filter q l) = filter p l.
Proof.
  intros Hpq; induction l as [|x l IH]; simpl; [reflexivity|].
  destruct (q x) eqn:Hq; simpl.
  - rewrite IH; reflexivity.
  - destruct (p x) eqn:Hp; [|exact IH].
    apply Hpq in Hp; congruence.
Qed.

Lemma find_joined_filter (rs : list Role) (p : UserRole * Role -> bool)
      (q : UserRole -> bool) (l : list UserRole) :
  (forall ur r, p (ur, r) = true -> q ur = true) ->
  find p (flat_map (withRole rs) (filter q l)) = find p (flat_map (withRole rs) l).
Proof.
  intros Hpq; induction l as [|x l IH]; simpl; [reflexivity|].
  destruct (q x) eqn:Hq; simpl.
  - unfold withRole at 1 3.
    destruct (find (fun r => role_id r =? ur_roleId x) rs); simpl; [|exact IH].
    destruct (p (x, r)); [reflexivity|exact IH].
  - unfold withRole at 2.
    destruct (find (fun r => role_id r =? ur_roleId x) rs); simpl; [|exact IH].
    destruct (p (x, r)) eqn:Hp; [|exact IH].
    apply Hpq in Hp; congruence.
Qed.

Lemma active_filter_purge now userId (l : list UserRole) :
  filter (activeOf now userId) (filter (fun ur => negb (isPast now ur)) l)
  = filter (activeOf now userId) l.
Proof.
  apply filter_filter_implied; intros x H.
  rewrite (active_not_past _ _ _ H); reflexivity.
Qed.

(** The three resolution queries answer the same on the purged ledger. *)
Lemma hasPermission_purge now userId permission w :
  fst (hasPermission now userId permission w)
  = fst (hasPermission now userId permission (purgeExpired now w)).
Proof.
  unfold hasPermission, bind, userRole_findMany_includeRole, query, ret.
  simpl; destruct (faults w) as [|[|] fs]; simpl;
    rewrite ?active_filter_purge; reflexivity.
Qed.

Lemma getUserPermissions_purge now userId w :
  fst (getUserPermissions now userId w)
  = fst (getUserPermissions now userId (purgeExpired now w)).
Proof.
  unfold getUserPermissions, bind, userRole_findMany_includeRole, query, ret.
  simpl; destruct (faults w) as [|[|] fs]; simpl;
    rewrite ?active_filter_purge; reflexivity.
Qed.

Lemma hasRole_purge now userId roleName w :
  fst (hasRole now userId roleName w)
  = fst (hasRole now userId roleName (purgeExpired now w)).
Proof.
  assert (E : forall l,
    find (fun ur : UserRole * Role =>
            activeOf now userId (fst ur) && (role_name (snd ur) =? roleName))
         (flat_map (withRole (roles w)) (filter (fun ur => negb (isPast now ur)) l))
    = find (fun ur : UserRole * Role =>
            activeOf now userId (fst ur) && (role_name (snd ur) =? roleName))
         (flat_map (withRole (roles w)) l)).
  { intros l; apply find_joined_filter; intros ur r H; simpl in H.
    apply andb_prop in H; destruct H as [H _].
    rewrite (active_not_past _ _ _ H); reflexivity. }
  unfold hasRole, bind, userRole_findFirst_role, query, ret.
  simpl; destruct (faults w) as [|[|] fs]; simpl; rewrite ?E; reflexivity.
Qed.

(** No active assignment: the filter of the resolution queries is empty. *)
Lemma no_active_rows now userId (l : list UserRole) :
  (forall ur, In ur l -> ur_userId ur = userId -> notExpired now ur = false) ->
  filter (activeOf now userId) l = [].
Proof.
  induction l as [|x l IH]; intros H; simpl; [reflexivity|].
  unfold activeOf at 1.
  destruct (ur_userId x =? userId) eqn:E; simpl.
  - apply String.eqb_eq in E.
    rewrite (H x (or_introl eq_refl) E).
    apply IH; intros ur Hin; apply H; right; exact Hin.
  - apply IH; intros ur Hin; apply H; right; exact Hin.
Qed.

Lemma find_joined_none (rs : list Role) (p : UserRole * Role -> bool)
      (l : list UserRole) :
  (forall ur r, In ur l -> p (ur, r) = false) ->
  find p (flat_map (withRole rs) l) = None.
Proof.
  induction l as [|x l IH]; intros H; simpl; [reflexivity|].
  unfold withRole at 1.
  destruct (find (fun r => role_id r =? ur_roleId x) rs); simpl.
  - rewrite (H x r (or_introl eq_refl)).
    apply IH; intros ur r' Hin; apply H; right; exact Hin.
  - apply IH; intros ur r' Hin; apply H; right; exact Hin.
Qed.

End RBACFacts.

Module RBACRuns.
Import Prisma RBACService.

(** [assignRole] when storage answers every query *)
Lemma assignRole_run now userId roleName grantedBy expiresAt w :
  faults w = [] ->
  assignRole now userId roleName grantedBy expiresAt w =
  match roleNamed roleName w with
  | None => (Throw (Error ("Role '" ++ roleName ++ "' not found")), w)
  | Some role =>
      match find (assigned userId (role_id role)) (userRoles w) with
      | Some _ => (Throw (Error ("User already has role '" ++ roleName ++ "'")), w)
      | None =>
          (Ok tt,
           set_appLog (app (appLog w) [(info, "Role '" ++ roleName ++ "' assigned to user "
                                           ++ userId ++ " by " ++ grantedBy)])
             (set_userRoles
                (userRoles w ++ [mkUserRole userId (role_id role) grantedBy now expiresAt])%list
                w))
      end
  end.
Proof.
  intros Hf. unfold assignRole, bind, role_findUnique_name, roleNamed.
  run_query. simpl.
  destruct (find (fun r => role_name r =? roleName) (roles w)) as [role|]; [|reflexivity].
  unfold userRole_findFirst. run_query. simpl.
  change (fun ur => (ur_userId ur =? userId) && (ur_roleId ur =? role_id role))
    with (assigned userId (role_id role)).
  destruct (find (assigned userId (role_id role)) (userRoles w)); [reflexivity|].
  unfold userRole_create. run_query. reflexivity.
Qed.

(** [revokeRole] when storage answers every query *)
Lemma revokeRole_run userId roleName w :
  faults w = [] ->
  revokeRole userId roleName w =
  match roleNamed roleName w with
  | None => (Throw (Error ("Role '" ++ roleName ++ "' not found")), w)
  | Some role =>
      (Ok tt,
       set_appLog (app (appLog w) [(info, "Role '" ++ roleName ++ "' revoked from user "
                                       ++ userId)])
         (set_userRoles
            (filter (fun ur => negb (assigned userId (role_id role) ur)) (userRoles w))
            w))
  end.
Proof.
  intros Hf. unfold revokeRole, bind, role_findUnique_name, roleNamed.
  run_query. simpl.
  destruct (find (fun r => role_name r =? roleName) (roles w)) as [role|]; [|reflexivity].
  unfold userRole_deleteMany. run_query. reflexivity.
Qed.

Lemma find_after_delete {A} (p : A -> bool) (l : list A) :
  find p (filter (fun x => negb (p x)) l) = None.
Proof.
  induction l as [|x l IH]; simpl; [reflexivity|].
  destruct (p x) eqn:E; simpl; [exact IH|]. rewrite E; exact IH.
Qed.

Lemma find_after_insert {A} (p : A -> bool) (l : list A) (x : A) :
  p x = true -> exists y, find p (l ++ [x])%list = Some y.
Proof.
  intros Hx; induction l as [|a l IH]; simpl.
  - rewrite Hx; eauto.
  - destruct (p a); eauto.
Qed.

Lemma delete_nothing {A} (p : A -> bool) (l : list A) :
  find p l = None -> filter (fun x => negb (p x)) l = l.
Proof.
  induction l as [|x l IH]; simpl; [reflexivity|].
  destruct (p x) eqn:E; simpl; [discriminate|].
  intros H; rewrite (IH H); reflexivity.
Qed.

Lemma assigned_refl userId roleId grantedBy grantedAt expiresAt :
  assigned userId roleId (mkUserRole userId roleId grantedBy grantedAt expiresAt) = true.
Proof. unfold assigned; simpl; rewrite !String.eqb_refl; reflexivity. Qed.

Lemma find_some_In {A} (p : A -> bool) (l : list A) (x : A) :
  In x l -> p x = true -> exists y, find p l = Some y.
Proof.
  induction l as [|a l IH]; simpl; [contradiction|].
  intros [->|Hin] Hp.
  - rewrite Hp; eauto.
  - destruct (p a); eauto.
Qed.

End RBACRuns.

(** ** Role assignment: claims *)

Module RBACClaims.
Import Prisma RBACService RBACFacts RBACRuns.

(** C2.  A role assignment whose expires-at instant is in the past is
    excluded from every resolution query: [getUserPermissions],
    [hasPermission] and [hasRole] answer exactly as they do on the ledger
    from which these assignments have been removed.  Consequently, when
    storage answers and the actor has no non-expired assignment,
    [getUserPermissions] returns the empty set, [hasPermission] returns
    false and [hasRole] returns false. *)
Theorem expired_assignments_excluded (now : Instant) (userId : string) (w : World) :
  (forall permission,
      fst (hasPermission now userId permission w)
      = fst (hasPermission now userId permission (purgeExpired now w)))
  /\ fst (getUserPermissions now userId w)
     = fst (getUserPermissions now userId (purgeExpired now w))
  /\ (forall roleName,
         fst (hasRole now userId roleName w)
         = fst (hasRole now userId roleName (purgeExpired now w)))
  /\ (forall ur, In ur (userRoles (purgeExpired now w)) -> isPast now ur = false)
  /\ (faults w = [] ->
      (forall ur, In ur (userRoles w) -> ur_userId ur = userId ->
                  notExpired now ur = false) ->
      getUserPermissions now userId w = (Ok [], w)
      /\ (forall permission, hasPermission now userId permission w = (Ok false, w))
      /\ (forall roleName, hasRole now userId roleName w = (Ok false, w))).
Proof.
  split; [intros p; apply hasPermission_purge|].
  split; [apply getUserPermissions_purge|].
  split; [intros r; apply hasRole_purge|].
  split.
  { intros ur Hin; unfold purgeExpired in Hin; simpl in Hin.
    apply filter_In in Hin; destruct Hin as [_ H].
    now apply negb_true_iff in H. }
  intros Hf Hnone.
  pose proof (no_active_rows now userId (userRoles w) Hnone) as E.
  split; [|split].
  - unfold getUserPermissions, bind, userRole_findMany_includeRole.
    run_query. rewrite E. reflexivity.
  - intros p. unfold hasPermission, bind, userRole_findMany_includeRole.
    run_query. rewrite E. reflexivity.
  - intros r. unfold hasRole, bind, userRole_findFirst_role.
    run_query. rewrite find_joined_none; [reflexivity|].
    intros ur role Hin; simpl.
    unfold activeOf.
    destruct (ur_userId ur =? userId) eqn:Eu; [|reflexivity].
    apply String.eqb_eq in Eu. rewrite (Hnone ur Hin Eu). reflexivity.
Qed.

Lemma expired_assignments_excluded_witness :
  getUserPermissions 100 "u1" lapsedMember = (Ok [], lapsedMember)
  /\ hasRole 100 "u1" "member" lapsedMember = (Ok false, lapsedMember).
Proof.
  destruct (expired_assignments_excluded 100 "u1" lapsedMember)
    as (_ & _ & _ & _ & H).
  assert (Hf : faults lapsedMember = []) by reflexivity.
  assert (Hn : forall ur, In ur (userRoles lapsedMember) -> ur_userId ur = "u1" ->
                          notExpired 100 ur = false).
  { intros ur [<-|[]] _; reflexivity. }
  destruct (H Hf Hn) as (H1 & _ & H3).
  split; [exact H1|exact (H3 "member")].
Defined.

(** C9.  When the actor holds an assignment of the role whose expires-at is
    already in the past -- a row the resolution queries do not see --
    [assignRole] still rejects a new assignment of that role as a
    duplicate and writes nothing; after [revokeRole] the same assignment
    succeeds. *)
Theorem assignRole_rejects_lapsed_duplicate
        (now : Instant) (userId roleName grantedBy : string)
        (expiresAt : option Instant) (w : World) (role : Role) (old : UserRole) :
  faults w = [] ->
  roleNamed roleName w = Some role ->
  In old (userRoles w) ->
  ur_userId old = userId ->
  ur_roleId old = role_id role ->
  isPast now old = true ->
  (notExpired now old = false
   /\ ~ In old (userRoles (purgeExpired now w))
   /\ (forall permission,
          fst (hasPermission now userId permission w)
          = fst (hasPermission now userId permission (purgeExpired now w)))
   /\ fst (hasRole now userId roleName w)
      = fst (hasRole now userId roleName (purgeExpired now w)))
  /\ assignRole now userId roleName grantedBy expiresAt w
     = (Throw (Error ("User already has role '" ++ roleName ++ "'")), w)
  /\ exists w1 w2,
       revokeRole userId roleName w = (Ok tt, w1)
       /\ assignRole now userId roleName grantedBy expiresAt w1 = (Ok tt, w2)
       /\ In (mkUserRole userId (role_id role) grantedBy now expiresAt) (userRoles w2).
Proof.
  intros Hf Hrole Hin Hu Hr Hpast.
  split; [|split].
  - split; [|split; [|split]].
    + unfold isPast in Hpast. unfold notExpired.
      destruct (ur_expiresAt old) as [e|]; [|discriminate].
      apply Z.ltb_lt in Hpast. apply Z.ltb_ge. lia.
    + unfold purgeExpired; simpl. intros H.
      apply filter_In in H. destruct H as [_ H]. rewrite Hpast in H. discriminate.
    + intros p. apply hasPermission_purge.
    + apply hasRole_purge.
  - rewrite assignRole_run by assumption. rewrite Hrole.
    destruct (find_some_In (assigned userId (role_id role)) (userRoles w) old Hin)
      as [y Hy].
    { unfold assigned. rewrite Hu, Hr, !String.eqb_refl. reflexivity. }
    rewrite Hy. reflexivity.
  - rewrite revokeRole_run by assumption. rewrite Hrole.
    eexists. eexists. split; [reflexivity|].
    rewrite assignRole_run by (simpl; assumption).
    unfold roleNamed in *. simpl. rewrite Hrole.
    rewrite find_after_delete. split; [reflexivity|].
    simpl. apply in_or_app. right. left. reflexivity.
Qed.

Lemma assignRole_rejects_lapsed_duplicate_witness :
  assignRole 100 "u1" "member" "admin" None lapsedMember
  = (Throw (Error "User already has role 'member'"), lapsedMember).
Proof.
  refine (proj1 (proj2 (assignRole_rejects_lapsed_duplicate
            100 "u1" "member" "admin" None lapsedMember memberRole
            (mkUserRole "u1" "role-member" "admin" 0 (Some 50))
            _ _ _ _ _ _)));
    try reflexivity.
  left; reflexivity.
Defined.

End RBACClaims.

Module RoleAssignment.
Import Prisma RBACService RBACRuns.

(** C8, as stated, fails: the second assignment of the same (actor, role)
    pair and the assignment of an unknown role are rejected with a plain
    [Error], which is neither a [ConflictError] nor a [NotFoundError]. *)
Lemma assignRole_error_kinds_counterexample :
  exists w1 e1 e2,
    assignRole 0 "u1" "member" "admin" None rolesOnly = (Ok tt, w1)
    /\ fst (assignRole 1 "u1" "member" "admin" None w1) = Throw e1
    /\ e1 = Error "User already has role 'member'"
    /\ isConflictError e1 = false
    /\ fst (assignRole 0 "u1" "ghost" "admin" None rolesOnly) = Throw e2
    /\ e2 = Error "Role 'ghost' not found"
    /\ isNotFoundError e2 = false.
Proof.
  eexists. eexists. eexists.
  split; [reflexivity|].
  split; [reflexivity|].
  split; [reflexivity|].
  split; [reflexivity|].
  split; [reflexivity|].
  split; reflexivity.
Qed.

(** C8, amended.  When storage answers: [assignRole] rejects an unknown
    role name with [Error "Role '<name>' not found"] and rejects an
    assignment of a role the actor already holds with
    [Error "User already has role '<name>'"], writing nothing in both
    cases; once an assignment has succeeded, assigning the same pair again
    is rejected in that way.  For a role name that exists, [revokeRole]
    deletes the actor's assignments of the role, changes no assignment when
    there is none, can be repeated with the same effect, and a
    re-assignment after it succeeds. *)
Theorem assignRole_revokeRole_contract
        (now : Instant) (userId roleName grantedBy : string)
        (expiresAt : option Instant) (w : World) :
  faults w = [] ->
  (roleNamed roleName w = None ->
     assignRole now userId roleName grantedBy expiresAt w
     = (Throw (Error ("Role '" ++ roleName ++ "' not found")), w))
  /\ (forall role old,
        roleNamed roleName w = Some role ->
        In old (userRoles w) -> assigned userId (role_id role) old = true ->
        assignRole now userId roleName grantedBy expiresAt w
        = (Throw (Error ("User already has role '" ++ roleName ++ "'")), w))
  /\ (forall w1,
        assignRole now userId roleName grantedBy expiresAt w = (Ok tt, w1) ->
        forall now' grantedBy' expiresAt',
          assignRole now' userId roleName grantedBy' expiresAt' w1
          = (Throw (Error ("User already has role '" ++ roleName ++ "'")), w1))
  /\ (forall role,
        roleNamed roleName w = Some role ->
        exists w1,
          revokeRole userId roleName w = (Ok tt, w1)
          /\ userRoles w1
             = filter (fun ur => negb (assigned userId (role_id role) ur)) (userRoles w)
          /\ (find (assigned userId (role_id role)) (userRoles w) = None ->
              userRoles w1 = userRoles w)
          /\ (exists w2, revokeRole userId roleName w1 = (Ok tt, w2)
                         /\ userRoles w2 = userRoles w1)
          /\ (exists w3,
                 assignRole now userId roleName grantedBy expiresAt w1 = (Ok tt, w3)
                 /\ In (mkUserRole userId (role_id role) grantedBy now expiresAt)
                       (userRoles w3))).
Proof.
  intros Hf. split; [|split; [|split]].
  - intros Hnone. rewrite assignRole_run by assumption. rewrite Hnone. reflexivity.
  - intros role old Hrole Hin Hold.
    rewrite assignRole_run by assumption. rewrite Hrole.
    destruct (find_some_In _ _ _ Hin Hold) as [y Hy]. rewrite Hy. reflexivity.
  - intros w1. rewrite assignRole_run by assumption.
    destruct (roleNamed roleName w) as [role|] eqn:Hrole; [|discriminate].
    destruct (find (assigned userId (role_id role)) (userRoles w)); [discriminate|].
    intros H; inversion H; subst w1; clear H.
    intros now' grantedBy' expiresAt'.
    rewrite assignRole_run by (simpl; assumption).
    unfold roleNamed in *. simpl. rewrite Hrole.
    destruct (find_after_insert (assigned userId (role_id role)) (userRoles w)
                (mkUserRole userId (role_id role) grantedBy now expiresAt)
                (assigned_refl _ _ _ _ _)) as [y Hy].
    rewrite Hy. reflexivity.
  - intros role Hrole. rewrite revokeRole_run by assumption. rewrite Hrole.
    eexists. split; [reflexivity|]. simpl.
    split; [reflexivity|].
    split; [apply delete_nothing|].
    split.
    + rewrite revokeRole_run by (simpl; assumption).
      unfold roleNamed in *. simpl. rewrite Hrole.
      eexists. split; [reflexivity|]. simpl.
      apply delete_nothing. apply find_after_delete.
    + rewrite assignRole_run by (simpl; assumption).
      unfold roleNamed in *. simpl. rewrite Hrole.
      rewrite find_after_delete.
      eexists. split; [reflexivity|]. simpl.
      apply in_or_app. right. left. reflexivity.
Qed.

Lemma assignRole_revokeRole_contract_witness :
  assignRole 0 "u1" "ghost" "admin" None rolesOnly
  = (Throw (Error "Role 'ghost' not found"), rolesOnly).
Proof.
  refine (proj1 (assignRole_revokeRole_contract
                   0 "u1" "ghost" "admin" None rolesOnly _) _);
    reflexivity.
Defined.

End RoleAssignment.

Module TeamPermission.
Import Prisma RBACService.

(** [hasTeamPermission] when storage answers every query: the global
    answer, or else the table entry of whatever membership row the pair
    (team, actor) has. *)
Lemma hasTeamPermission_run now userId teamId permission w :
  faults w = [] ->
  hasTeamPermission now userId teamId permission w =
  (Ok (match fst (hasPermission now userId permission w) with
       | Ok true => true
       | _ => match find (isMembership teamId userId) (teamMembers w) with
              | Some membership =>
                  includes (teamPermissions (tm_role membership)) permission
              | None => false
              end
       end), w).
Proof.
  intros Hf.
  unfold hasTeamPermission, hasPermission, bind, userRole_findMany_includeRole.
  run_query. simpl.
  match goal with |- context [if ?b then _ else _] => destruct b end;
    [reflexivity|].
  unfold teamMember_findUnique. run_query. simpl.
  destruct (find (isMembership teamId userId) (teamMembers w)); reflexivity.
Qed.

(** The scenario of the specification: LEAD of [t1], no membership in [t2]. *)
Lemma lead_scenario :
  hasPermission 100 "u1" "teams:write" leadOfT1 = (Ok false, leadOfT1)
  /\ hasTeamPermission 100 "u1" "t1" "teams:manage_members" leadOfT1
     = (Ok true, leadOfT1)
  /\ hasTeamPermission 100 "u1" "t2" "teams:manage_members" leadOfT1
     = (Ok false, leadOfT1).
Proof. repeat split. Qed.

(** C1, at the failing input.  The actor's only membership in [t1] has its
    left-at instant set (the member was removed at instant 50), so the actor
    has no active membership in [t1], and the global check is false; still
    [hasTeamPermission] grants [teams:manage_members] in [t1]. *)
Theorem hasTeamPermission_departed_member :
  map tm_leftAt (teamMembers leftT1) = [Some 50]
  /\ hasPermission 100 "u1" "teams:manage_members" leftT1 = (Ok false, leftT1)
  /\ hasTeamPermission 100 "u1" "t1" "teams:manage_members" leftT1
     = (Ok true, leftT1).
Proof.
  repeat split.
Qed.

End TeamPermission.

(** ** Token permissions and the permission middleware *)

Module AuthClaims.
Import Auth.

(** C10.  For an authenticated request, [requirePermission] passes the
    request on as soon as one of the required permissions is in the
    permission list of the token (in particular when the required list is
    not empty and is contained in it), and [requireAllPermissions] as soon as
    all of them are; in both cases no query is issued -- the world, its
    fault schedule included, is returned untouched, whatever the role store
    holds.  The store is asked only when the token does not suffice, and its
    answer can turn a denial into a pass but never a pass into a denial. *)
Theorem token_permissions_suffice
        (permissions : list string) (now : Instant) (req : Request)
        (user : User) (w : World) :
  req_user req = Some user ->
  ((exists p, In p permissions /\ In p (u_permissions user)) ->
     requirePermission permissions now req w = (Ok (Next req), w))
  /\ (permissions <> [] ->
      (forall p, In p permissions -> In p (u_permissions user)) ->
      requirePermission permissions now req w = (Ok (Next req), w))
  /\ ((forall p, In p permissions -> In p (u_permissions user)) ->
      requireAllPermissions permissions now req w = (Ok (Next req), w))
  /\ ((forall p, In p permissions -> ~ In p (u_permissions user)) ->
      forall w', fst (RBACService.hasAnyPermission now (u_userId user) permissions w) = Ok true ->
                 w' = snd (RBACService.hasAnyPermission now (u_userId user) permissions w) ->
                 requirePermission permissions now req w = (Ok (Next req), w'))
  /\ (forall w', fst (RBACService.hasAllPermissions now (u_userId user) permissions w) = Ok true ->
                 w' = snd (RBACService.hasAllPermissions now (u_userId user) permissions w) ->
                 exists w'', requireAllPermissions permissions now req w = (Ok (Next req), w'')).
Proof.
  intros Hu.
  assert (Hsome : (exists p, In p permissions /\ In p (u_permissions user)) ->
                  requirePermission permissions now req w = (Ok (Next req), w)).
  { intros [p [Hp Ht]]. unfold requirePermission. rewrite Hu.
    assert (E : existsb (fun perm => includes (u_permissions user) perm) permissions = true).
    { apply existsb_exists. exists p. split; [exact Hp|]. now apply includes_In. }
    rewrite E. reflexivity. }
  split; [exact Hsome|]. split; [|split; [|split]].
  - intros Hne Hall. apply Hsome.
    destruct permissions as [|p ps]; [contradiction|].
    exists p. split; [left; reflexivity|apply Hall; left; reflexivity].
  - intros Hall. unfold requireAllPermissions. rewrite Hu.
    assert (E : forallb (fun perm => includes (u_permissions user) perm) permissions = true).
    { apply forallb_forall. intros p Hp. apply includes_In. now apply Hall. }
    rewrite E. reflexivity.
  - intros Hnone w' Hdb Hw'. unfold requirePermission. rewrite Hu.
    destruct (existsb (fun perm => includes (u_permissions user) perm) permissions) eqn:E.
    + apply existsb_exists in E. destruct E as [p [Hp Ht]].
      apply includes_In in Ht. exfalso. exact (Hnone p Hp Ht).
    + simpl. unfold bind.
      destruct (RBACService.hasAnyPermission now (u_userId user) permissions w)
        as [[[|]|e] w1]; simpl in *; try discriminate.
      subst w'. reflexivity.
  - intros w' Hdb Hw'. unfold requireAllPermissions. rewrite Hu.
    destruct (forallb (fun perm => includes (u_permissions user) perm) permissions).
    + simpl. eexists. reflexivity.
    + simpl. unfold bind.
      destruct (RBACService.hasAllPermissions now (u_userId user) permissions w)
        as [[[|]|e] w1]; simpl in *; try discriminate.
      eexists. reflexivity.
Qed.

(** The role behind the token's permission has been revoked and the store
    does not even answer: the request still passes. *)
Lemma token_permissions_suffice_witness :
  requirePermission ["teams:write"] 100 tokenRequest revokedAndDown
  = (Ok (Next tokenRequest), revokedAndDown)
  /\ fst (RBACService.hasPermission 100 "u1" "teams:write"
            (set_faults [] revokedAndDown)) = Ok false.
Proof.
  split; [|reflexivity].
  refine (proj1 (token_permissions_suffice ["teams:write"] 100 tokenRequest
                   (mkUser "u1" "u1@example.org" ["team_lead"] ["teams:read"; "teams:write"])
                   revokedAndDown eq_refl) _).
  exists "teams:write". split; [left; reflexivity|right; left; reflexivity].
Defined.

End AuthClaims.

(** ** The ownership guard of the membership routes *)

Module OwnershipGuard.
Import Prisma TeamRoutes.

(** The guard of the DELETE handler: when the target is an OWNER and the
    team has at most one OWNER row, the removal is answered with status 400
    and nothing is written. *)
Lemma removeMember_guard now req teamId userId w m :
  faults w = [] ->
  find (isMembership teamId userId) (teamMembers w) = Some m ->
  tm_role m = OWNER ->
  Nat.le (List.length (filter (fun m => (tm_teamId m =? teamId) && isOwner (tm_role m))
                              (teamMembers w))) 1 ->
  removeMember now req teamId userId w
  = (Ok (Json 400%nat false
           (ErrorText "Cannot remove the last owner. Transfer ownership first.")), w).
Proof.
  intros Hf Hm Hrole Hcount.
  unfold removeMember, bind, teamMember_count, teamMember_findUnique.
  run_query. simpl. run_query. simpl.
  rewrite Hm, Hrole. simpl.
  apply Nat.leb_le in Hcount. rewrite Hcount. reflexivity.
Qed.

(** C3, at the failing input.  Team [t1] has the single active OWNER [u1];
    [PUT /teams/t1/members/u1] with role MEMBER, sent by that owner, is
    answered with status 200: the membership is rewritten and the team is
    left without any OWNER.  The same removal through DELETE is refused. *)
Theorem PUT_member_demotes_sole_owner :
  List.length (activeOwners "t1" soleOwner) = 1%nat
  /\ (exists w',
        PUT_member "t1" "u1" MEMBER ownerRequest soleOwner
        = (Ok (Json 200%nat true (MembershipData (mkTeamMember "t1" "u1" MEMBER 0 None))), w')
        /\ activeOwners "t1" w' = [])
  /\ DELETE_member 100 "t1" "u1" ownerRequest soleOwner
     = (Ok (Json 400%nat false
              (ErrorText "Cannot remove the last owner. Transfer ownership first.")),
        soleOwner).
Proof.
  split; [reflexivity|]. split; [|reflexivity].
  eexists. split; reflexivity.
Qed.

(** The count of the DELETE guard includes OWNER rows whose left-at is
    set: with a departed former owner on record, the only active OWNER is
    removed. *)
Lemma DELETE_member_removes_last_active_owner :
  List.length (activeOwners "t1" formerOwner) = 1%nat
  /\ exists w',
       DELETE_member 100 "t1" "u1" ownerRequest formerOwner
       = (Ok (Json 200%nat true (MessageText "Member removed from team")), w')
       /\ activeOwners "t1" w' = [].
Proof.
  split; [reflexivity|].
  eexists. split; reflexivity.
Qed.

End OwnershipGuard.

(** ** Incidents: create-or-merge *)

Module IncidentFacts.
Import Prisma AuditService.

Lemma updateFirst_unique (f : SecurityIncident -> SecurityIncident)
      (l : list SecurityIncident) (ex : SecurityIncident) :
  NoDup (map si_id l) -> In ex l ->
  updateFirst (fun i => Nat.eqb (si_id i) (si_id ex)) f l
  = Some (f ex, map (fun i => if Nat.eqb (si_id i) (si_id ex) then f i else i) l).
Proof.
  induction l as [|x l IH]; intros Hnd Hin; [contradiction|].
  simpl in Hnd. inversion Hnd as [|? ? Hnotin Hnd']; subst.
  simpl. destruct (Nat.eqb (si_id x) (si_id ex)) eqn:E.
  - apply Nat.eqb_eq in E.
    assert (x = ex).
    { destruct Hin as [H|H]; [exact H|].
      exfalso. apply Hnotin. rewrite E. apply in_map. exact H. }
    subst x. f_equal. f_equal. f_equal.
    rewrite <- (map_id l) at 1. apply map_ext_in.
    intros a Ha. destruct (Nat.eqb (si_id a) (si_id ex)) eqn:Ea; [|reflexivity].
    apply Nat.eqb_eq in Ea. exfalso. apply Hnotin. rewrite <- Ea.
    apply in_map. exact Ha.
  - destruct Hin as [H|H]; [subst x; rewrite Nat.eqb_refl in E; discriminate|].
    rewrite (IH Hnd' H). reflexivity.
Qed.

(** [_createSecurityIncident] when storage answers every query *)
Lemma createSecurityIncident_run now incident w :
  faults w = [] -> NoDup (map si_id (securityIncidents w)) ->
  exists w',
    _createSecurityIncident now incident w = (Ok tt, w')
    /\ securityIncidents w'
       = afterCreateOrMerge now incident (nextId w) (securityIncidents w)
    /\ faults w' = [] /\ auditLogs w' = auditLogs w
    /\ roles w' = roles w /\ userRoles w' = userRoles w
    /\ teamMembers w' = teamMembers w
    /\ nextId w' = match find (correlates now incident) (securityIncidents w) with
                   | Some _ => nextId w
                   | None => S (nextId w)
                   end.
Proof.
  intros Hf Hnd.
  unfold _createSecurityIncident, bind, securityIncident_findFirst, afterCreateOrMerge.
  run_query. simpl.
  destruct (find (correlates now incident) (securityIncidents w)) as [ex|] eqn:Efind.
  - apply find_some in Efind. destruct Efind as [Hin _].
    unfold securityIncident_update. run_query.
    rewrite (updateFirst_unique _ _ _ Hnd Hin). simpl.
    eexists. split; [reflexivity|]. simpl.
    repeat split; try assumption.
  - unfold securityIncident_create. run_query. simpl.
    eexists. split; [reflexivity|]. simpl.
    repeat split; try assumption.
Qed.

Lemma mergeInto_ids ex line l : map si_id (mergeInto ex line l) = map si_id l.
Proof.
  unfold mergeInto. rewrite map_map. apply map_ext.
  intros a. destruct (Nat.eqb (si_id a) (si_id ex)); reflexivity.
Qed.

Lemma afterCreateOrMerge_wf now incident w w' :
  WellFormed w ->
  securityIncidents w'
  = afterCreateOrMerge now incident (nextId w) (securityIncidents w) ->
  nextId w' = match find (correlates now incident) (securityIncidents w) with
              | Some _ => nextId w
              | None => S (nextId w)
              end ->
  WellFormed w'.
Proof.
  intros [Hnd Hlt] E Hn. unfold WellFormed. rewrite E. unfold afterCreateOrMerge.
  destruct (find (correlates now incident) (securityIncidents w)).
  - rewrite mergeInto_ids. split; [exact Hnd|].
    unfold mergeInto. apply Forall_map. eapply Forall_impl; [|exact Hlt].
    intros a Ha. simpl in Ha.
    destruct (Nat.eqb (si_id a) (si_id s)); simpl; lia.
  - split.
    + rewrite map_app. simpl.
      apply NoDup_app; [exact Hnd|repeat constructor; intros []|].
      intros x Hin [Hx|[]]. subst x.
      apply in_map_iff in Hin. destruct Hin as [a [Ea Ha]].
      rewrite Forall_forall in Hlt. specialize (Hlt a Ha). simpl in *. lia.
    + apply Forall_app. split.
      * eapply Forall_impl; [|exact Hlt]. intros a Ha. simpl in Ha. lia.
      * constructor; [simpl; lia|constructor].
Qed.

End IncidentFacts.

Module Dedup.
Import Prisma AuditService IncidentFacts.

Lemma hasSome_shared (row users : list string) :
  hasSome row users = true <-> exists x, In x row /\ In x users.
Proof.
  unfold hasSome. rewrite existsb_exists. split.
  - intros [x [Hu Hr]]. apply includes_In in Hr. eauto.
  - intros [x [Hr Hu]]. exists x. split; [exact Hu|now apply includes_In].
Qed.

Lemma not_correlating now incident l :
  find (correlates now incident) l = None ->
  forall b, In b l -> correlates now incident b = false.
Proof.
  intros Hfind b Hb. destruct (correlates now incident b) eqn:E; [|reflexivity].
  apply (find_none _ _ Hfind) in Hb. congruence.
Qed.

End Dedup.

Module IncidentManager.
Import Prisma AuditService IncidentFacts Dedup.

(** The lookup of the code selects the incidents that match in the words of
    the claim. *)
Lemma isActiveStatus_Active (s : IncidentStatus) : isActiveStatus s = true <-> Active s.
Proof.
  unfold Active. destruct s; simpl; split; intros H;
    try reflexivity; try discriminate; auto;
    destruct H as [H|H]; discriminate.
Qed.

Lemma correlates_Matches now incident i :
  correlates now incident i = true <-> Matches now incident i.
Proof.
  unfold correlates, Matches, ShareActor, oneHour.
  rewrite !andb_true_iff, String.eqb_eq, hasSome_shared, isActiveStatus_Active,
    Z.leb_le.
  change (60 * 60 * 1000) with 3600000. tauto.
Qed.

Lemma found_Matches now incident l ex :
  find (correlates now incident) l = Some ex -> In ex l /\ Matches now incident ex.
Proof.
  intros H. apply find_some in H. destruct H as [Hin Hc].
  split; [exact Hin|]. apply correlates_Matches. exact Hc.
Qed.

Lemma none_Matches now incident l :
  find (correlates now incident) l = None ->
  forall i, In i l -> ~ Matches now incident i.
Proof.
  intros H i Hin Hm. apply correlates_Matches in Hm.
  rewrite (not_correlating _ _ _ H i Hin) in Hm. discriminate.
Qed.

(** With unique identifiers the write of the merge changes the found
    incident only, and only by the appended line. *)
Lemma mergeInto_lineAdded ex line l :
  NoDup (map si_id l) -> In ex l -> mergeInto ex line l = lineAdded (si_id ex) line l.
Proof.
  intros Hnd Hin. unfold mergeInto, lineAdded. apply map_ext_in.
  intros a Ha. destruct (Nat.eqb (si_id a) (si_id ex)) eqn:E; [|reflexivity].
  apply Nat.eqb_eq in E.
  assert (a = ex).
  { clear - Hnd Hin Ha E. induction l as [|x l IH]; [contradiction|].
    simpl in Hnd. inversion Hnd as [|? ? Hnotin Hnd']; subst.
    destruct Ha as [Ha|Ha], Hin as [Hin|Hin].
    - congruence.
    - subst x. exfalso. apply Hnotin. rewrite E. apply in_map. exact Hin.
    - subst x. exfalso. apply Hnotin. rewrite <- E. apply in_map. exact Ha.
    - exact (IH Hnd' Hin Ha). }
  subst a. reflexivity.
Qed.

Lemma lineAdded_columns id line l :
  map si_id (lineAdded id line l) = map si_id l
  /\ map si_severity (lineAdded id line l) = map si_severity l
  /\ map si_status (lineAdded id line l) = map si_status l.
Proof.
  unfold lineAdded. rewrite !map_map.
  repeat split; apply map_ext; intros a;
    destruct (Nat.eqb (si_id a) id); reflexivity.
Qed.

Lemma lineAdded_keeps_invariant id line l :
  OnePerWindow l -> OnePerWindow (lineAdded id line l).
Proof.
  intros H a' b' Ha Hb. unfold lineAdded in Ha, Hb.
  apply in_map_iff in Ha. destruct Ha as [a [Ea Ha]].
  apply in_map_iff in Hb. destruct Hb as [b [Eb Hb]].
  specialize (H a b Ha Hb).
  destruct (Nat.eqb (si_id a) id), (Nat.eqb (si_id b) id);
    subst a' b'; simpl; exact H.
Qed.

Lemma insert_keeps_invariant now incident id l :
  (forall i, In i l -> ~ Matches now incident i) ->
  OnePerWindow l ->
  OnePerWindow (l ++ [freshIncident id now incident]).
Proof.
  intros Hnone H a b Ha Hb Hid Hty Hsa Hsb Hshare Hwin.
  apply in_app_or in Ha. apply in_app_or in Hb.
  destruct Ha as [Ha|[Ha|[]]], Hb as [Hb|[Hb|[]]].
  - exact (H a b Ha Hb Hid Hty Hsa Hsb Hshare Hwin).
  - subst b. simpl in *. apply (Hnone a Ha).
    unfold Matches, oneHour in *. repeat split; try assumption. lia.
  - subst a. simpl in *. apply (Hnone b Hb).
    unfold Matches, oneHour in *. repeat split; try (symmetry; assumption);
      try assumption.
    + destruct Hshare as [u [H1 H2]]. exists u. auto.
    + lia.
  - subst a b. apply Hid. reflexivity.
Qed.

(** The task of create-or-merge, run without overlap, is the method. *)
Lemma createSecurityIncident_task_alone now incident w :
  runTask (_createSecurityIncident_task now incident) w
  = _createSecurityIncident now incident w.
Proof.
  unfold _createSecurityIncident_task, _createSecurityIncident. simpl. unfold bind.
  destruct (securityIncident_findFirst (correlates now incident) w)
    as [[[existing|]|e] w1]; reflexivity.
Qed.

(** A run of create-or-merge that no other run overlaps does what the claim
    says, in the words of the claim: the invariant of the incident table is
    kept; when an incident of the candidate's type that is OPEN or
    INVESTIGATING, shares an affected actor and was detected within the last
    hour exists, the description of one such incident gets the candidate's
    description after a line feed and nothing else changes; when none
    exists, one incident with status OPEN is added. *)
Lemma createOrMerge_isolated_run (now : Instant) (incident : Candidate) (w : World) :
  faults w = [] ->
  WellFormed w ->
  OnePerWindow (securityIncidents w) ->
  exists w',
    _createSecurityIncident now incident w = (Ok tt, w')
    /\ WellFormed w'
    /\ OnePerWindow (securityIncidents w')
    /\ ((exists i, In i (securityIncidents w) /\ Matches now incident i) ->
        exists existing,
          In existing (securityIncidents w) /\ Matches now incident existing
          /\ securityIncidents w'
             = lineAdded (si_id existing) (c_description incident) (securityIncidents w)
          /\ In (withLine (c_description incident) existing) (securityIncidents w')
          /\ map si_id (securityIncidents w') = map si_id (securityIncidents w)
          /\ map si_severity (securityIncidents w')
             = map si_severity (securityIncidents w)
          /\ map si_status (securityIncidents w')
             = map si_status (securityIncidents w))
    /\ ((forall i, In i (securityIncidents w) -> ~ Matches now incident i) ->
        securityIncidents w'
        = (securityIncidents w ++ [freshIncident (nextId w) now incident])%list).
Proof.
  intros Hf Hwf Hone.
  destruct (createSecurityIncident_run now incident w Hf (proj1 Hwf))
    as (w' & Hrun & Hinc & _ & _ & _ & _ & _ & Hid).
  exists w'. split; [exact Hrun|].
  split; [exact (afterCreateOrMerge_wf _ _ _ _ Hwf Hinc Hid)|].
  rewrite Hinc. unfold afterCreateOrMerge.
  destruct (find (correlates now incident) (securityIncidents w)) as [ex|] eqn:Efind.
  - destruct (found_Matches _ _ _ _ Efind) as [Hin Hm].
    rewrite (mergeInto_lineAdded ex _ _ (proj1 Hwf) Hin).
    split; [apply lineAdded_keeps_invariant; exact Hone|].
    split.
    + intros _. exists ex.
      destruct (lineAdded_columns (si_id ex) (c_description incident)
                  (securityIncidents w)) as (H1 & H2 & H3).
      repeat split; try assumption; try apply Hm.
      unfold lineAdded. apply in_map_iff. exists ex.
      rewrite Nat.eqb_refl. auto.
    + intros Hnone. exfalso. exact (Hnone ex Hin Hm).
  - pose proof (none_Matches _ _ _ Efind) as Hnone.
    split; [apply insert_keeps_invariant; assumption|].
    split.
    + intros [i [Hin Hm]]. exfalso. exact (Hnone i Hin Hm).
    + intros _. reflexivity.
Qed.

Lemma createOrMerge_isolated_run_witness :
  exists w',
    _createSecurityIncident 2000
      (mkCandidate "BRUTE_FORCE" "HIGH" "Multiple failed login attempts detected"
                   "second detection" ["u1"]) oneIncident = (Ok tt, w')
    /\ map si_description (securityIncidents w')
       = ["first detection" ++ newline ++ "second detection"].
Proof.
  destruct (createOrMerge_isolated_run 2000
              (mkCandidate "BRUTE_FORCE" "HIGH" "Multiple failed login attempts detected"
                           "second detection" ["u1"]) oneIncident)
    as (w' & Hrun & _ & _ & Hmerge & _).
  - reflexivity.
  - split; [repeat constructor; intros []|repeat constructor].
  - intros a b [<-|[]] [<-|[]] Hid. exfalso. apply Hid. reflexivity.
  - exists w'. split; [exact Hrun|].
    destruct Hmerge as (ex & Hin & _ & E & _).
    + exists openBruteForce. split; [left; reflexivity|].
      unfold Matches, Active, ShareActor, oneHour. simpl.
      repeat split; [left; reflexivity|exists "u1"; simpl; auto|lia].
    + destruct Hin as [<-|[]]. rewrite E. reflexivity.
Defined.

(** C4, at the failing input.  The lookup and the write of create-or-merge
    are two queries with an [await] between them, and nothing makes the pair
    atomic.  Two calls for the fifth and the sixth failed login of [u1], one
    millisecond apart, are in flight on a store without incidents, which
    satisfies the invariant; the database answers the two lookups before the
    two writes.  Both calls find no incident, both insert one and both
    return: the table holds two OPEN incidents of type BRUTE_FORCE on [u1],
    against the invariant.  The same two calls one after the other leave one
    incident, with the second description appended. *)
Theorem overlapping_runs_insert_twice :
  (forall now incident w,
      runTask (_createSecurityIncident_task now incident) w
      = _createSecurityIncident now incident w)
  /\ OnePerWindow (securityIncidents emptyWorld)
  /\ fst (interleave [First; Second; First; Second]
            (Pending (_createSecurityIncident_task 5000 fifthDetection))
            (Pending (_createSecurityIncident_task 5001 sixthDetection))
            emptyWorld)
     = (Settled (Ok tt), Settled (Ok tt))
  /\ securityIncidents
       (snd (interleave [First; Second; First; Second]
               (Pending (_createSecurityIncident_task 5000 fifthDetection))
               (Pending (_createSecurityIncident_task 5001 sixthDetection))
               emptyWorld))
     = [freshIncident 0 5000 fifthDetection; freshIncident 1 5001 sixthDetection]
  /\ ~ OnePerWindow [freshIncident 0 5000 fifthDetection;
                     freshIncident 1 5001 sixthDetection]
  /\ securityIncidents
       (snd ((_createSecurityIncident 5000 fifthDetection ;;;
              _createSecurityIncident 5001 sixthDetection) emptyWorld))
     = [withLine (c_description sixthDetection) (freshIncident 0 5000 fifthDetection)].
Proof.
  split; [exact createSecurityIncident_task_alone|].
  split; [intros a b []|].
  split; [reflexivity|]. split; [reflexivity|].
  split; [|reflexivity].
  intros H.
  apply (H (freshIncident 0 5000 fifthDetection) (freshIncident 1 5001 sixthDetection)).
  - left. reflexivity.
  - right. left. reflexivity.
  - simpl. discriminate.
  - reflexivity.
  - left. reflexivity.
  - left. reflexivity.
  - exists "u1". simpl. auto.
  - unfold oneHour. simpl. lia.
Qed.

End IncidentManager.

Module StatusMoves.
Import Prisma AuditService.

Section Moves.
Variable R : IncidentStatus -> IncidentStatus -> Prop.
Hypothesis R_refl : forall a, R a a.
Hypothesis R_trans : forall a b c, R a b -> R b c -> R a c.

Lemma Evolves_refl l : Evolves R l l.
Proof. intros k a H. exists a. auto. Qed.

Lemma Evolves_trans l1 l2 l3 :
  Evolves R l1 l2 -> Evolves R l2 l3 -> Evolves R l1 l3.
Proof.
  intros H12 H23 k a Ha.
  destruct (H12 k a Ha) as (b & Hb & Eb & Rb).
  destruct (H23 k b Hb) as (c & Hc & Ec & Rc).
  exists c. split; [exact Hc|]. split; [congruence|eauto].
Qed.

Lemma Evolves_snoc l x : Evolves R l (l ++ [x]).
Proof.
  intros k a Ha. exists a. split; [|auto].
  rewrite nth_error_app1; [exact Ha|].
  apply nth_error_Some. congruence.
Qed.

Lemma Evolves_updateFirst (p : SecurityIncident -> bool)
      (f : SecurityIncident -> SecurityIncident) l row rows :
  (forall a, si_id (f a) = si_id a /\ R (si_status a) (si_status (f a))) ->
  updateFirst p f l = Some (row, rows) ->
  Evolves R l rows.
Proof.
  intros Hf. revert row rows.
  induction l as [|x l IH]; intros row rows; simpl; [discriminate|].
  destruct (p x).
  - intros H; inversion H; subst; clear H.
    intros [|k] a Ha; simpl in *.
    + inversion Ha; subst. exists (f a). split; [reflexivity|apply Hf].
    + exists a. auto.
  - destruct (updateFirst p f l) as [[y rest]|]; [|discriminate].
    intros H; inversion H; subst; clear H.
    intros [|k] a Ha; simpl in *.
    + inversion Ha; subst. exists a. auto.
    + exact (IH _ _ eq_refl k a Ha).
Qed.

Lemma Keeps_ret {A} (a : A) : Keeps R (ret a).
Proof. intros w. apply Evolves_refl. Qed.

Lemma Keeps_logger level message : Keeps R (logger level message).
Proof. intros w. apply Evolves_refl. Qed.

Lemma Keeps_bind {A B} (m : M A) (k : A -> M B) :
  Keeps R m -> (forall a, Keeps R (k a)) -> Keeps R (bind m k).
Proof.
  intros Hm Hk w. unfold bind. specialize (Hm w).
  destruct (m w) as [[a|e] w1]; simpl in *; [|exact Hm].
  eapply Evolves_trans; [exact Hm|apply Hk].
Qed.

Lemma Keeps_try_catch {A} (body : M A) (handler : Exn -> M A) :
  Keeps R body -> (forall e, Keeps R (handler e)) -> Keeps R (try_catch body handler).
Proof.
  intros Hm Hk w. unfold try_catch. specialize (Hm w).
  destruct (body w) as [[a|e] w1]; simpl in *; [exact Hm|].
  eapply Evolves_trans; [exact Hm|apply Hk].
Qed.

Lemma Keeps_query {A} (run : M A) : Keeps R run -> Keeps R (query run).
Proof.
  intros H w. unfold query.
  destruct (faults w) as [|[|] fs]; simpl.
  - apply H.
  - apply Evolves_refl.
  - exact (H (set_faults fs w)).
Qed.

Lemma Keeps_read {A} (f : World -> A) : Keeps R (query (fun w => (Ok (f w), w))).
Proof. apply Keeps_query. intros w. apply Evolves_refl. Qed.

Lemma Keeps_update id f :
  (forall a, si_id (f a) = si_id a /\ R (si_status a) (si_status (f a))) ->
  Keeps R (securityIncident_update id f).
Proof.
  intros Hf. apply Keeps_query. intros w.
  destruct (updateFirst (fun i => Nat.eqb (si_id i) id) f (securityIncidents w))
    as [[row rows]|] eqn:E; simpl.
  - eapply Evolves_updateFirst; eauto.
  - apply Evolves_refl.
Qed.

Lemma Keeps_create now data : Keeps R (securityIncident_create now data).
Proof. apply Keeps_query. intros w. simpl. apply Evolves_snoc. Qed.

Lemma Keeps_createSecurityIncident now incident :
  Keeps R (_createSecurityIncident now incident).
Proof.
  unfold _createSecurityIncident. apply Keeps_bind.
  - apply Keeps_read.
  - intros [existing|].
    + apply Keeps_bind; [|intros; apply Keeps_ret].
      apply Keeps_update. intros a. split; [reflexivity|apply R_refl].
    + apply Keeps_bind; [apply Keeps_create|intros; apply Keeps_logger].
Qed.

Lemma Keeps_whenActor userId block :
  (forall u, Keeps R (block u)) -> Keeps R (whenActor userId block).
Proof.
  intros H. unfold whenActor. destruct userId as [u|]; [|apply Keeps_ret].
  destruct (truthy (Some u)); [apply H|apply Keeps_ret].
Qed.

Lemma Keeps_checkFailedLogins now event : Keeps R (checkFailedLogins now event).
Proof.
  unfold checkFailedLogins.
  destruct (opt_action event =? LOGIN_FAILED); [|apply Keeps_ret].
  apply Keeps_whenActor. intros u. apply Keeps_bind; [apply Keeps_read|].
  intros n. destruct (Nat.leb 5 n);
    [apply Keeps_createSecurityIncident|apply Keeps_ret].
Qed.

Lemma Keeps_checkSensitiveAccess now event : Keeps R (checkSensitiveAccess now event).
Proof.
  unfold checkSensitiveAccess.
  destruct (opt_action event =? SENSITIVE_DATA_ACCESSED); [|apply Keeps_ret].
  apply Keeps_whenActor. intros u. apply Keeps_bind; [apply Keeps_read|].
  intros n. destruct (Nat.leb 50 n);
    [apply Keeps_createSecurityIncident|apply Keeps_ret].
Qed.

Lemma Keeps_checkMultipleIPs now event : Keeps R (checkMultipleIPs now event).
Proof.
  unfold checkMultipleIPs.
  apply Keeps_whenActor. intros u. apply Keeps_bind; [apply Keeps_read|].
  intros ips. destruct (Nat.leb 5 (List.length ips));
    [apply Keeps_createSecurityIncident|apply Keeps_ret].
Qed.

Lemma Keeps_detectSuspiciousActivity now event :
  Keeps R (_detectSuspiciousActivity now event).
Proof.
  unfold _detectSuspiciousActivity.
  apply Keeps_bind; [apply Keeps_checkFailedLogins|intros _].
  apply Keeps_bind; [apply Keeps_checkSensitiveAccess|intros _].
  apply Keeps_checkMultipleIPs.
Qed.

Lemma Keeps_log now options : Keeps R (log now options).
Proof.
  unfold log. apply Keeps_try_catch.
  - apply Keeps_bind.
    + apply Keeps_query. intros w. apply Evolves_refl.
    + intros entry. apply Keeps_bind; [apply Keeps_logger|intros _].
      apply Keeps_bind; [apply Keeps_detectSuspiciousActivity|intros _].
      apply Keeps_ret.
  - intros e. apply Keeps_bind; [apply Keeps_logger|intros; apply Keeps_ret].
Qed.

End Moves.

Lemma staysOrResolves_refl a : staysOrResolves a a.
Proof. left; reflexivity. Qed.

Lemma staysOrResolves_trans a b c :
  staysOrResolves a b -> staysOrResolves b c -> staysOrResolves a c.
Proof. unfold staysOrResolves. intros [-> | ->] [-> | ->]; auto. Qed.

Lemma updateFirst_others {A} (p : A -> bool) (f : A -> A) l row rows :
  updateFirst p f l = Some (row, rows) ->
  forall k a, nth_error l k = Some a -> p a = false -> nth_error rows k = Some a.
Proof.
  revert row rows. induction l as [|x l IH]; intros row rows; simpl; [discriminate|].
  destruct (p x) eqn:E.
  - intros H; inversion H; subst; clear H.
    intros [|k] a Ha Hp; simpl in *; [|exact Ha].
    inversion Ha; subst. congruence.
  - destruct (updateFirst p f l) as [[y rest]|]; [|discriminate].
    intros H; inversion H; subst; clear H.
    intros [|k] a Ha Hp; simpl in *; [exact Ha|].
    exact (IH _ _ eq_refl k a Ha Hp).
Qed.

Lemma update_others id f w k a :
  nth_error (securityIncidents w) k = Some a -> si_id a <> id ->
  nth_error (securityIncidents (snd (securityIncident_update id f w))) k = Some a.
Proof.
  intros Ha Hid.
  assert (Hrun : forall w0, securityIncidents w0 = securityIncidents w ->
            nth_error
              (securityIncidents
                 (snd (match updateFirst (fun i => Nat.eqb (si_id i) id) f
                               (securityIncidents w0) with
                       | Some (row, rows) => (Ok row, set_securityIncidents rows w0)
                       | None => (Throw (PrismaClientError "P2025"), w0)
                       end))) k = Some a).
  { intros w0 E. rewrite E.
    destruct (updateFirst _ f (securityIncidents w)) as [[row rows]|] eqn:Eu; simpl.
    - apply (updateFirst_others _ _ _ _ _ Eu k a Ha).
      apply Nat.eqb_neq. exact Hid.
    - rewrite E. exact Ha. }
  unfold securityIncident_update, query.
  destruct (faults w) as [|[|] fs].
  - apply Hrun. reflexivity.
  - exact Ha.
  - apply Hrun. reflexivity.
Qed.

Lemma updateFirst_row {A} (p : A -> bool) (f : A -> A) l row rows :
  updateFirst p f l = Some (row, rows) -> exists x, In x l /\ p x = true /\ row = f x.
Proof.
  revert row rows. induction l as [|x l IH]; intros row rows; simpl; [discriminate|].
  destruct (p x) eqn:E.
  - intros H; inversion H; subst. exists x. auto.
  - destruct (updateFirst p f l) as [[y rest]|]; [|discriminate].
    intros H; inversion H; subst.
    destruct (IH _ _ eq_refl) as [x0 [Hin [Hp Hrow]]]. subst. exists x0. auto.
Qed.

End StatusMoves.


Module Recorder.
Import Prisma AuditService.

(** C6.  [log] never throws: for every event and every behaviour of the
    storage layer it returns normally.  When the entry cannot be persisted
    it writes a line to the local log and returns [undefined]; when the
    detection that follows a persisted entry throws, the error is caught in
    the same way and is not propagated. *)
Theorem log_never_throws (now : Instant) (options : LogOptions) (w : World) :
  (exists r w', log now options w = (Ok r, w'))
  /\ (forall fs,
         faults w = true :: fs ->
         log now options w
         = (Ok None,
            set_appLog (app (appLog w) [(error, "Failed to create audit log:")])
                       (set_faults fs w)))
  /\ (forall entry w1 e w2,
         auditLog_create now (entryOf options) w = (Ok entry, w1) ->
         _detectSuspiciousActivity now options
           (set_appLog (app (appLog w1) [(logLevel options, auditLine options)]) w1)
         = (Throw e, w2) ->
         log now options w
         = (Ok None,
            set_appLog (app (appLog w2) [(error, "Failed to create audit log:")]) w2)).
Proof.
  split; [|split].
  - unfold log, try_catch.
    match goal with |- context [match ?b w with _ => _ end] => destruct (b w) as [[r|e] w1] end.
    + eauto.
    + eexists. eexists. reflexivity.
  - intros fs Hf. unfold log, try_catch, bind, auditLog_create.
    rewrite (query_fault _ _ _ Hf). reflexivity.
  - intros entry w1 e w2 Hc Hd. unfold log, try_catch, bind.
    rewrite Hc. unfold logger at 1. rewrite Hd. reflexivity.
Qed.

Lemma log_never_throws_witness :
  exists w', log 1000 (failedLogin "u1" (Some "10.0.0.1")) detectorDown = (Ok None, w')
             /\ List.length (auditLogs w') = 1%nat
             /\ map fst (appLog w') = [warn; error].
Proof.
  eexists. split.
  - refine (proj2 (proj2 (log_never_throws 1000 (failedLogin "u1" (Some "10.0.0.1"))
                            detectorDown)) _ _ _ _ _ _); reflexivity.
  - split; reflexivity.
Defined.

End Recorder.

(** ** The failed-login rule of the detector *)

Module DetectorFacts.
Import Prisma AuditService IncidentFacts Dedup.

Lemma createSecurityIncident_step now incident w :
  faults w = [] -> WellFormed w ->
  exists w',
    _createSecurityIncident now incident w = (Ok tt, w')
    /\ faults w' = [] /\ WellFormed w'
    /\ auditLogs w' = auditLogs w
    /\ securityIncidents w'
       = afterCreateOrMerge now incident (nextId w) (securityIncidents w).
Proof.
  intros Hf Hwf.
  destruct (createSecurityIncident_run now incident w Hf (proj1 Hwf))
    as (w' & Hrun & Hinc & Hf' & Hlogs & _ & _ & _ & Hid).
  exists w'. repeat split; try assumption.
  - exact (proj1 (afterCreateOrMerge_wf _ _ _ _ Hwf Hinc Hid)).
  - exact (proj2 (afterCreateOrMerge_wf _ _ _ _ Hwf Hinc Hid)).
Qed.

Lemma find_filter_implied {A} (p q : A -> bool) (l : list A) :
  (forall x, p x = true -> q x = true) ->
  find p (filter q l) = find p l.
Proof.
  intros Hpq. induction l as [|x l IH]; simpl; [reflexivity|].
  destruct (q x) eqn:Eq; simpl.
  - destruct (p x); [reflexivity|exact IH].
  - destruct (p x) eqn:Ep; [|exact IH].
    apply Hpq in Ep. congruence.
Qed.

Lemma filter_map_commute {A} (q : A -> bool) (g : A -> A) (l : list A) :
  (forall x, q (g x) = q x) ->
  filter q (map g l) = map g (filter q l).
Proof.
  intros H. induction l as [|x l IH]; simpl; [reflexivity|].
  rewrite H. destruct (q x); simpl; rewrite IH; reflexivity.
Qed.

Lemma correlates_type now incident i :
  correlates now incident i = true -> (si_type i =? c_type incident) = true.
Proof.
  unfold correlates. intros H.
  apply andb_prop in H. destruct H as [H _].
  apply andb_prop in H. destruct H as [H _].
  apply andb_prop in H. destruct H as [H _]. exact H.
Qed.

(** Create-or-merge of a candidate, seen on the incidents of its type *)
Lemma ofType_afterCreateOrMerge_same now incident id l :
  ofType (c_type incident) (afterCreateOrMerge now incident id l)
  = afterCreateOrMerge now incident id (ofType (c_type incident) l).
Proof.
  unfold afterCreateOrMerge, ofType.
  rewrite (find_filter_implied (correlates now incident)
             (fun i => si_type i =? c_type incident) l (correlates_type now incident)).
  destruct (find (correlates now incident) l) as [ex|].
  - unfold mergeInto. apply filter_map_commute.
    intros x. destruct (Nat.eqb (si_id x) (si_id ex)); reflexivity.
  - rewrite filter_app. simpl. rewrite String.eqb_refl. reflexivity.
Qed.

Lemma same_id_same_row (l : list SecurityIncident) a b :
  NoDup (map si_id l) -> In a l -> In b l -> si_id a = si_id b -> a = b.
Proof.
  induction l as [|x l IH]; intros Hnd Ha Hb E; [contradiction|].
  simpl in Hnd. inversion Hnd as [|? ? Hnotin Hnd']; subst.
  destruct Ha as [Ha|Ha], Hb as [Hb|Hb].
  - congruence.
  - subst x. exfalso. apply Hnotin. rewrite E. apply in_map. exact Hb.
  - subst x. exfalso. apply Hnotin. rewrite <- E. apply in_map. exact Ha.
  - exact (IH Hnd' Ha Hb E).
Qed.

(** Create-or-merge of a candidate of another type *)
Lemma ofType_afterCreateOrMerge_other type now incident id l :
  NoDup (map si_id l) ->
  (c_type incident =? type) = false ->
  ofType type (afterCreateOrMerge now incident id l) = ofType type l.
Proof.
  intros Hnd Hty. unfold afterCreateOrMerge.
  destruct (find (correlates now incident) l) as [ex|] eqn:Efind.
  - apply find_some in Efind. destruct Efind as [Hex Hcor].
    apply correlates_type in Hcor. apply String.eqb_eq in Hcor.
    unfold ofType, mergeInto.
    rewrite filter_map_commute
      by (intros x; destruct (Nat.eqb (si_id x) (si_id ex)); reflexivity).
    rewrite <- (map_id (filter _ l)) at 2. apply map_ext_in.
    intros a Ha. apply filter_In in Ha. destruct Ha as [Ha Hta].
    destruct (Nat.eqb (si_id a) (si_id ex)) eqn:E; [|reflexivity].
    apply Nat.eqb_eq in E.
    pose proof (same_id_same_row l a ex Hnd Ha Hex E). subst a.
    rewrite Hcor in Hta. congruence.
  - unfold ofType. rewrite filter_app. simpl.
    rewrite Hty. apply app_nil_r.
Qed.

Lemma truthy_nonempty (u : string) : u <> "" -> truthy (Some u) = true.
Proof. destruct u; [intros H; contradiction|reflexivity]. Qed.

Lemma checkMultipleIPs_step now event w :
  faults w = [] -> WellFormed w ->
  exists w',
    checkMultipleIPs now event w = (Ok tt, w')
    /\ faults w' = [] /\ WellFormed w'
    /\ auditLogs w' = auditLogs w
    /\ ofType "BRUTE_FORCE" (securityIncidents w')
       = ofType "BRUTE_FORCE" (securityIncidents w).
Proof.
  intros Hf Hwf. unfold checkMultipleIPs, whenActor.
  destruct (opt_userId event) as [u|]; [|exists w; repeat split; assumption || apply Hwf].
  destruct (truthy (Some u)); [|exists w; repeat split; assumption || apply Hwf].
  unfold bind, auditLog_findMany_distinct_ipAddress. run_query. cbv beta iota.
  match goal with |- context [Nat.leb 5 ?n] => destruct (Nat.leb 5 n) end;
    [|exists w; repeat split; assumption || apply Hwf].
  match goal with |- context [_createSecurityIncident now ?c w] =>
    destruct (createSecurityIncident_step now c w Hf Hwf)
      as (w' & Hrun & Hf' & Hwf' & Hlogs & Hinc);
    exists w'; rewrite Hrun, Hinc
  end.
  repeat split; try assumption; try apply Hwf'.
  apply ofType_afterCreateOrMerge_other; [apply Hwf|reflexivity].
Qed.

End DetectorFacts.

Module FailedLogins.
Import Prisma AuditService IncidentFacts Dedup DetectorFacts.

Lemma checkFailedLogins_step now event u w :
  faults w = [] -> WellFormed w -> isFailedLoginOf u event -> u <> "" ->
  exists w',
    checkFailedLogins now event w = (Ok tt, w')
    /\ faults w' = [] /\ WellFormed w'
    /\ auditLogs w' = auditLogs w
    /\ securityIncidents w'
       = (if Nat.leb 5 (failedLogins now u (auditLogs w))
          then afterCreateOrMerge now
                 (bruteForceCandidate u (failedLogins now u (auditLogs w))
                                      (opt_ipAddress event))
                 (nextId w) (securityIncidents w)
          else securityIncidents w).
Proof.
  intros Hf Hwf [Ha Hu] Hne. unfold checkFailedLogins, whenActor.
  rewrite Ha, Hu, String.eqb_refl, (truthy_nonempty u Hne).
  unfold bind, auditLog_count. run_query. cbv beta iota.
  change (List.length
            (filter (fun l => optString_eqb (al_userId l) (Some u)
                              && (al_action l =? LOGIN_FAILED)
                              && since now (15 * 60 * 1000) l) (auditLogs w)))
    with (failedLogins now u (auditLogs w)).
  destruct (Nat.leb 5 (failedLogins now u (auditLogs w))).
  - destruct (createSecurityIncident_step now
                (bruteForceCandidate u (failedLogins now u (auditLogs w))
                                     (opt_ipAddress event)) w Hf Hwf)
      as (w' & Hrun & Hf' & Hwf' & Hlogs & Hinc).
    exists w'. repeat split; try assumption; apply Hwf'.
  - exists w. repeat split; try assumption; apply Hwf.
Qed.

Lemma checkSensitiveAccess_skip now event u w :
  isFailedLoginOf u event -> checkSensitiveAccess now event w = (Ok tt, w).
Proof. intros [Ha _]. unfold checkSensitiveAccess. rewrite Ha. reflexivity. Qed.

(** [log] of a failed login when storage answers every query *)
Lemma log_failed_login_run now event u w :
  faults w = [] -> WellFormed w -> isFailedLoginOf u event -> u <> "" ->
  exists w',
    log now event w = (Ok (Some (entryOf event (nextId w) now)), w')
    /\ faults w' = [] /\ WellFormed w'
    /\ auditLogs w' = (auditLogs w ++ [entryOf event (nextId w) now])%list
    /\ ofType "BRUTE_FORCE" (securityIncidents w')
       = (if Nat.leb 5 (failedLogins now u (auditLogs w'))
          then afterCreateOrMerge now
                 (bruteForceCandidate u (failedLogins now u (auditLogs w'))
                                      (opt_ipAddress event))
                 (S (nextId w)) (ofType "BRUTE_FORCE" (securityIncidents w))
          else ofType "BRUTE_FORCE" (securityIncidents w)).
Proof.
  intros Hf Hwf Hev Hne.
  set (entry := entryOf event (nextId w) now).
  set (w2 := set_appLog (app (appLog w) [(logLevel event, auditLine event)])
               (set_nextId (S (nextId w))
                  (set_auditLogs (auditLogs w ++ [entry])%list w))).
  assert (Hf2 : faults w2 = []) by exact Hf.
  assert (Hwf2 : WellFormed w2).
  { destruct Hwf as [Hnd Hlt]. split; [exact Hnd|]. simpl.
    eapply Forall_impl; [|exact Hlt]. intros a Ha. simpl in Ha. lia. }
  destruct (checkFailedLogins_step now event u w2 Hf2 Hwf2 Hev Hne)
    as (w3 & Hrun3 & Hf3 & Hwf3 & Hlogs3 & Hinc3).
  destruct (checkMultipleIPs_step now event w3 Hf3 Hwf3)
    as (w4 & Hrun4 & Hf4 & Hwf4 & Hlogs4 & Hinc4).
  exists w4.
  split.
  { unfold log, try_catch, bind, auditLog_create. run_query. cbv beta iota zeta.
    unfold logger at 1. cbv beta iota.
    unfold _detectSuspiciousActivity, bind.
    match goal with |- context [checkFailedLogins now event ?x] =>
      change x with w2 end.
    rewrite Hrun3, (checkSensitiveAccess_skip now event u w3 Hev), Hrun4.
    reflexivity. }
  split; [exact Hf4|]. split; [exact Hwf4|].
  split; [rewrite Hlogs4, Hlogs3; reflexivity|].
  rewrite Hinc4, Hinc3, Hlogs4, Hlogs3.
  change (auditLogs w2) with (auditLogs w ++ [entry])%list.
  change (securityIncidents w2) with (securityIncidents w).
  change (nextId w2) with (S (nextId w)).
  destruct (Nat.leb 5 (failedLogins now u (auditLogs w ++ [entry]))); [|reflexivity].
  apply (ofType_afterCreateOrMerge_same now
           (bruteForceCandidate u (failedLogins now u (auditLogs w ++ [entry]))
                                (opt_ipAddress event))).
Qed.

(** The entry just written is inside the window of its own detection. *)
Lemma failedLogins_snoc now event u id t (l : list AuditLog) :
  isFailedLoginOf u event ->
  now - 15 * 60 * 1000 <= t ->
  failedLogins now u (l ++ [entryOf event id t]) = S (failedLogins now u l).
Proof.
  intros [Ha Hu] Ht. unfold failedLogins. rewrite filter_app, length_app.
  simpl. rewrite Hu, Ha. simpl. rewrite !String.eqb_refl. simpl.
  unfold since. simpl.
  assert (E : Z.leb (now - 900000) t = true) by (apply Z.leb_le; lia).
  rewrite E. simpl. lia.
Qed.

End FailedLogins.

Module BruteForce.
Import Prisma AuditService IncidentFacts Dedup DetectorFacts FailedLogins.

Lemma correlates_own now u n ip i :
  si_type i = "BRUTE_FORCE" -> si_status i = OPEN -> si_affectedUsers i = [u] ->
  now - 60 * 60 * 1000 <= si_detectedAt i ->
  correlates now (bruteForceCandidate u n ip) i = true.
Proof.
  intros Hty Hst Hus Hwin. unfold correlates. rewrite Hty, Hst, Hus. simpl.
  rewrite String.eqb_refl. simpl. apply Z.leb_le. lia.
Qed.

Lemma Recorded_step t0 u k w t event :
  Recorded t0 u k w -> isFailedLoginOf u event -> u <> "" ->
  t0 <= t <= t0 + 15 * 60 * 1000 ->
  Recorded t0 u (S k) (snd (log t event w))
  /\ ((5 <= k)%nat ->
      forall i, ofType "BRUTE_FORCE" (securityIncidents w) = [i] ->
                ofType "BRUTE_FORCE" (securityIncidents (snd (log t event w)))
                = [set_description
                     (si_description i ++ newline
                      ++ c_description (bruteForceCandidate u (S k) (opt_ipAddress event)))
                     i]).
Proof.
  intros (Hf & Hwf & Hcount & Hnone & Hone) Hev Hne Ht.
  destruct (log_failed_login_run t event u w Hf Hwf Hev Hne)
    as (w' & Hrun & Hf' & Hwf' & Hlogs & Hinc).
  rewrite Hrun. simpl snd.
  assert (Hcount' : forall now, t0 <= now <= t0 + 15 * 60 * 1000 ->
                                failedLogins now u (auditLogs w') = S k).
  { intros now Hnow. rewrite Hlogs.
    rewrite (failedLogins_snoc now event u (nextId w) t (auditLogs w) Hev) by lia.
    rewrite (Hcount now Hnow). reflexivity. }
  rewrite (Hcount' t Ht) in Hinc.
  destruct (Nat.leb 5 (S k)) eqn:E5.
  - apply Nat.leb_le in E5.
    destruct (Nat.eq_dec k 4) as [-> | Hk].
    + (* the fifth failure creates the incident *)
      rewrite (Hnone ltac:(lia)) in Hinc. simpl in Hinc.
      split; [|intros; lia].
      repeat split; try assumption; try apply Hwf'.
      * intros; lia.
      * intros _. eexists. split; [exact Hinc|]. simpl.
        repeat split. lia.
    + (* a later failure merges into it *)
      assert (H5 : (5 <= k)%nat) by lia.
      destruct (Hone H5) as (i & Hi & Hty & Hst & Hsev & Hus & Hdet).
      rewrite Hi in Hinc. unfold afterCreateOrMerge in Hinc. simpl in Hinc.
      rewrite (correlates_own t u (S k) (opt_ipAddress event) i Hty Hst Hus) in Hinc
        by lia.
      simpl in Hinc. rewrite Nat.eqb_refl in Hinc.
      split.
      * repeat split; try assumption; try apply Hwf'.
        -- intros; lia.
        -- intros _. eexists. split; [exact Hinc|]. simpl.
           repeat split; assumption.
      * intros _ i' Hi'. rewrite Hi in Hi'. inversion Hi'; subst i'. exact Hinc.
  - apply Nat.leb_gt in E5.
    split; [|intros; lia].
    repeat split; try assumption; try apply Hwf'.
    + intros _. rewrite Hinc. apply Hnone. lia.
    + intros; lia.
Qed.

Lemma Recorded_all t0 u events :
  u <> "" ->
  (forall e, In e events ->
             isFailedLoginOf u (snd e) /\ t0 <= fst e <= t0 + 15 * 60 * 1000) ->
  forall k w, Recorded t0 u k w ->
              Recorded t0 u (k + List.length events) (recordAll events w).
Proof.
  intros Hne. induction events as [|e events IH]; intros Hall k w Hrec; simpl.
  - rewrite Nat.add_0_r. exact Hrec.
  - rewrite Nat.add_succ_r. apply (IH (fun e' H => Hall e' (or_intror H)) (S k)).
    destruct (Hall e (or_introl eq_refl)) as [Hev Ht].
    exact (proj1 (Recorded_step t0 u k w (fst e) (snd e) Hrec Hev Hne Ht)).
Qed.

Lemma filter_none {A} (p : A -> bool) (l : list A) :
  (forall x, In x l -> p x = false) -> filter p l = [].
Proof.
  induction l as [|x l IH]; intros H; simpl; [reflexivity|].
  rewrite (H x (or_introl eq_refl)). apply IH.
  intros y Hy. apply H. right. exact Hy.
Qed.

Lemma Recorded_start t0 u w :
  faults w = [] -> WellFormed w ->
  (forall e, In e (auditLogs w) -> al_userId e = Some u ->
             al_action e = LOGIN_FAILED -> al_createdAt e < t0 - 15 * 60 * 1000) ->
  ofType "BRUTE_FORCE" (securityIncidents w) = [] ->
  Recorded t0 u 0 w.
Proof.
  intros Hf Hwf Hold Hnone. repeat split; try assumption; try apply Hwf.
  - intros now Hnow. unfold failedLogins.
    rewrite filter_none; [reflexivity|].
    intros e He.
    destruct (optString_eqb (al_userId e) (Some u)) eqn:Eu; [|reflexivity].
    destruct (al_action e =? LOGIN_FAILED) eqn:Ea; [|reflexivity].
    assert (Hu : al_userId e = Some u).
    { destruct (al_userId e) as [x|]; [|discriminate].
      simpl in Eu. apply String.eqb_eq in Eu. congruence. }
    apply String.eqb_eq in Ea.
    pose proof (Hold e He Hu Ea) as Hlt.
    unfold since. simpl. apply Z.leb_gt. lia.
  - intros _. exact Hnone.
  - intros; lia.
Qed.

End BruteForce.

Module BruteForceClaims.
Import Prisma AuditService IncidentFacts DetectorFacts FailedLogins BruteForce.

(** C7.  When storage answers, recording an event whose action is
    LOGIN_FAILED and whose actor is set persists the entry and counts the
    actor's LOGIN_FAILED entries of the trailing 15 minutes, the new entry
    included; the brute-force incidents are the result of create-or-merge
    of the HIGH-severity BRUTE_FORCE candidate naming the actor and the origin
    address exactly when that count is at least 5, and are unchanged
    otherwise.  Five such events of one actor within a quarter of an hour,
    with no earlier failure in the window and no brute-force incident
    before, leave exactly one BRUTE_FORCE incident, which is OPEN; a sixth
    event in that quarter extends the description of this incident and
    creates no second one. *)
Theorem brute_force_detection :
  (forall now event u w,
      faults w = [] -> WellFormed w -> isFailedLoginOf u event -> u <> "" ->
      exists entry w',
        log now event w = (Ok (Some entry), w')
        /\ auditLogs w' = (auditLogs w ++ [entry])%list
        /\ al_createdAt entry = now
        /\ failedLogins now u (auditLogs w') = S (failedLogins now u (auditLogs w))
        /\ ofType "BRUTE_FORCE" (securityIncidents w')
           = (if Nat.leb 5 (failedLogins now u (auditLogs w'))
              then afterCreateOrMerge now
                     (bruteForceCandidate u (failedLogins now u (auditLogs w'))
                                          (opt_ipAddress event))
                     (S (nextId w)) (ofType "BRUTE_FORCE" (securityIncidents w))
              else ofType "BRUTE_FORCE" (securityIncidents w)))
  /\ (forall u n ip,
         bruteForceCandidate u n ip
         = mkCandidate "BRUTE_FORCE" "HIGH" "Multiple failed login attempts detected"
             ("User " ++ u ++ " has " ++ showNat n
              ++ " failed login attempts in the last 15 minutes from IP " ++ interp ip)
             [u])
  /\ (forall t0 u w events sixth,
         faults w = [] -> WellFormed w -> u <> "" ->
         (forall e, In e (auditLogs w) -> al_userId e = Some u ->
                    al_action e = LOGIN_FAILED ->
                    al_createdAt e < t0 - 15 * 60 * 1000) ->
         ofType "BRUTE_FORCE" (securityIncidents w) = [] ->
         List.length events = 5%nat ->
         (forall e, In e (events ++ [sixth])%list ->
                    isFailedLoginOf u (snd e)
                    /\ t0 <= fst e <= t0 + 15 * 60 * 1000) ->
         exists i,
           ofType "BRUTE_FORCE" (securityIncidents (recordAll events w)) = [i]
           /\ si_status i = OPEN /\ si_severity i = "HIGH"
           /\ si_affectedUsers i = [u]
           /\ ofType "BRUTE_FORCE"
                (securityIncidents (recordAll (events ++ [sixth]) w))
              = [set_description
                   (si_description i ++ newline
                    ++ c_description (bruteForceCandidate u 6
                                        (opt_ipAddress (snd sixth))))
                   i]).
Proof.
  split; [|split].
  - intros now event u w Hf Hwf Hev Hne.
    destruct (log_failed_login_run now event u w Hf Hwf Hev Hne)
      as (w' & Hrun & _ & _ & Hlogs & Hinc).
    exists (entryOf event (nextId w) now), w'.
    split; [exact Hrun|]. split; [exact Hlogs|]. split; [reflexivity|].
    split; [|exact Hinc].
    rewrite Hlogs. apply failedLogins_snoc; [exact Hev|lia].
  - reflexivity.
  - intros t0 u w events sixth Hf Hwf Hne Hold Hnone Hlen Hall.
    pose proof (Recorded_start t0 u w Hf Hwf Hold Hnone) as H0.
    assert (Hev : forall e, In e events ->
                            isFailedLoginOf u (snd e)
                            /\ t0 <= fst e <= t0 + 15 * 60 * 1000).
    { intros e He. apply Hall. apply in_or_app. left. exact He. }
    pose proof (Recorded_all t0 u events Hne Hev 0%nat w H0) as H5.
    rewrite Hlen in H5. simpl in H5.
    destruct H5 as (Hf5 & Hwf5 & Hc5 & Hn5 & Ho5).
    destruct (Ho5 (Nat.le_refl 5)) as (i & Hi & Hty & Hst & Hsev & Hus & Hdet).
    exists i. split; [exact Hi|]. split; [exact Hst|]. split; [exact Hsev|].
    split; [exact Hus|].
    unfold recordAll. rewrite fold_left_app. simpl.
    assert (H6 : In sixth (events ++ [sixth])%list)
      by (apply in_or_app; right; left; reflexivity).
    destruct (Hall sixth H6) as [Hev6 Ht6].
    apply (proj2 (Recorded_step t0 u 5 (recordAll events w) (fst sixth) (snd sixth)
                    (conj Hf5 (conj Hwf5 (conj Hc5 (conj Hn5 Ho5)))) Hev6 Hne Ht6)
                 (Nat.le_refl 5) i Hi).
Qed.

Lemma brute_force_detection_witness :
  exists i,
    ofType "BRUTE_FORCE" (securityIncidents (recordAll fiveFailures emptyWorld)) = [i]
    /\ si_status i = OPEN /\ si_severity i = "HIGH" /\ si_affectedUsers i = ["u1"]
    /\ ofType "BRUTE_FORCE"
         (securityIncidents (recordAll (fiveFailures ++ [sixthFailure]) emptyWorld))
       = [set_description
            (si_description i ++ newline
             ++ c_description (bruteForceCandidate "u1" 6 (Some "10.0.0.3")))
            i].
Proof.
  refine (proj2 (proj2 brute_force_detection) 1000 "u1" emptyWorld fiveFailures
                sixthFailure _ _ _ _ _ _ _).
  - reflexivity.
  - split; constructor.
  - discriminate.
  - intros e [].
  - reflexivity.
  - reflexivity.
  - intros e He. simpl in He.
    repeat (destruct He as [<-|He]; [split; [split; reflexivity|simpl; lia]|]).
    contradiction.
Defined.

(** The same scenario, evaluated. *)
Example five_then_six_failures :
  map (fun i => (si_id i, si_status i, si_detectedAt i))
      (securityIncidents (recordAll fiveFailures emptyWorld))
  = [(5%nat, OPEN, 5000)]
  /\ map (fun i => (si_id i, si_status i, si_detectedAt i, si_description i))
         (securityIncidents (recordAll (fiveFailures ++ [sixthFailure]) emptyWorld))
     = [(5%nat, OPEN, 5000,
         "User u1 has 5 failed login attempts in the last 15 minutes from IP 10.0.0.1"
         ++ newline
         ++ "User u1 has 6 failed login attempts in the last 15 minutes from IP 10.0.0.3")].
Proof. split; vm_compute; reflexivity. Qed.

End BruteForceClaims.

(** ** The query surface of the permission resolver *)

Module ResolverFacts.
Import Prisma RBACService.

Lemma includes_Set_add acc x p :
  includes (Set_add acc x) p = includes acc p || (p =? x).
Proof.
  unfold Set_add. destruct (includes acc x) eqn:E.
  - destruct (p =? x) eqn:Ep; [|rewrite orb_false_r; reflexivity].
    apply String.eqb_eq in Ep. subst. rewrite E. reflexivity.
  - unfold includes. rewrite existsb_app. simpl. rewrite orb_false_r. reflexivity.
Qed.

Lemma NoDup_Set_add acc x : NoDup acc -> NoDup (Set_add acc x).
Proof.
  intros H. unfold Set_add. destruct (includes acc x) eqn:E; [exact H|].
  apply NoDup_app; [exact H|repeat constructor; intros []|].
  intros y Hy [Hx|[]]. subst y. apply includes_In in Hy. congruence.
Qed.

Lemma includes_add_all ps acc p :
  includes (fold_left Set_add ps acc) p = includes acc p || includes ps p.
Proof.
  revert acc. induction ps as [|x ps IH]; intros acc; simpl.
  - rewrite orb_false_r. reflexivity.
  - rewrite IH, includes_Set_add. unfold includes at 3. simpl.
    rewrite orb_assoc. reflexivity.
Qed.

Lemma NoDup_add_all ps acc : NoDup acc -> NoDup (fold_left Set_add ps acc).
Proof.
  revert acc. induction ps as [|x ps IH]; intros acc H; simpl; [exact H|].
  apply IH. apply NoDup_Set_add. exact H.
Qed.

(** The union computed by [getUserPermissions] *)
Lemma includes_union (rows : list (UserRole * Role)) acc p :
  includes (fold_left (fun permissions ur =>
                         fold_left Set_add (role_permissions (snd ur)) permissions)
                      rows acc) p
  = includes acc p
    || existsb (fun ur => includes (role_permissions (snd ur)) p) rows.
Proof.
  revert acc. induction rows as [|r rows IH]; intros acc; simpl.
  - rewrite orb_false_r. reflexivity.
  - rewrite IH, includes_add_all, orb_assoc. reflexivity.
Qed.

Lemma NoDup_union (rows : list (UserRole * Role)) acc :
  NoDup acc ->
  NoDup (fold_left (fun permissions ur =>
                      fold_left Set_add (role_permissions (snd ur)) permissions)
                   rows acc).
Proof.
  revert acc. induction rows as [|r rows IH]; intros acc H; simpl; [exact H|].
  apply IH. apply NoDup_add_all. exact H.
Qed.

Lemma hasPermission_run now userId permission w :
  faults w = [] ->
  hasPermission now userId permission w
  = (Ok (existsb (fun ur => includes (role_permissions (snd ur)) permission)
           (flat_map (withRole (roles w)) (filter (activeOf now userId) (userRoles w)))),
     w).
Proof.
  intros Hf. unfold hasPermission, bind, userRole_findMany_includeRole.
  run_query. reflexivity.
Qed.

Lemma hasAnyPermission_run now userId permissions w (f : string -> bool) :
  (forall p, hasPermission now userId p w = (Ok (f p), w)) ->
  hasAnyPermission now userId permissions w = (Ok (existsb f permissions), w).
Proof.
  intros H. induction permissions as [|p ps IH]; simpl; [reflexivity|].
  unfold bind. rewrite H. destruct (f p); [reflexivity|exact IH].
Qed.

Lemma hasAllPermissions_run now userId permissions w (f : string -> bool) :
  (forall p, hasPermission now userId p w = (Ok (f p), w)) ->
  hasAllPermissions now userId permissions w = (Ok (forallb f permissions), w).
Proof.
  intros H. induction permissions as [|p ps IH]; simpl; [reflexivity|].
  unfold bind. rewrite H. destruct (f p); [exact IH|reflexivity].
Qed.

Lemma find_joined_exists (rs : list Role) (q : UserRole -> bool)
      (g : Role -> bool) (l : list UserRole) :
  match find (fun ur : UserRole * Role => q (fst ur) && g (snd ur))
             (flat_map (withRole rs) l) with
  | Some _ => true
  | None => false
  end
  = existsb (fun ur : UserRole * Role => g (snd ur))
            (flat_map (withRole rs) (filter q l)).
Proof.
  induction l as [|x l IH]; simpl; [reflexivity|].
  destruct (q x) eqn:Eq; simpl.
  - unfold withRole at 1 3.
    destruct (find (fun r => role_id r =? ur_roleId x) rs) as [r|]; simpl; [|exact IH].
    rewrite Eq. simpl. destruct (g r); [reflexivity|exact IH].
  - unfold withRole at 1.
    destruct (find (fun r => role_id r =? ur_roleId x) rs) as [r|]; simpl; [|exact IH].
    rewrite Eq. simpl. exact IH.
Qed.

End ResolverFacts.

Module Resolver.
Import Prisma RBACService ResolverFacts.

(** X1.  When storage answers, the queries of the permission resolver agree
    with one another: [getUserPermissions] returns a list without
    duplicates, [hasPermission] is membership in that list,
    [hasAnyPermission] holds exactly when one of the requested permissions is
    in it (never for the empty request) and [hasAllPermissions] exactly when
    all of them are (always for the empty request); none of them writes. *)
Theorem resolver_queries_agree (now : Instant) (userId : string) (w : World) :
  faults w = [] ->
  exists permissions,
    getUserPermissions now userId w = (Ok permissions, w)
    /\ NoDup permissions
    /\ (forall p, hasPermission now userId p w = (Ok (includes permissions p), w))
    /\ (forall ps, hasAnyPermission now userId ps w
                   = (Ok (existsb (includes permissions) ps), w))
    /\ (forall ps, hasAllPermissions now userId ps w
                   = (Ok (forallb (includes permissions) ps), w))
    /\ hasAnyPermission now userId [] w = (Ok false, w)
    /\ hasAllPermissions now userId [] w = (Ok true, w).
Proof.
  intros Hf. eexists.
  split.
  { unfold getUserPermissions, bind, userRole_findMany_includeRole.
    run_query. reflexivity. }
  split; [apply NoDup_union; constructor|].
  assert (Hp : forall p,
    hasPermission now userId p w
    = (Ok (includes
             (fold_left (fun permissions ur =>
                           fold_left Set_add (role_permissions (snd ur)) permissions)
                        (flat_map (withRole (roles w))
                                  (filter (activeOf now userId) (userRoles w))) []) p),
       w)).
  { intros p. rewrite hasPermission_run by assumption.
    rewrite includes_union. reflexivity. }
  split; [exact Hp|].
  split; [intros ps; apply hasAnyPermission_run; exact Hp|].
  split; [intros ps; apply hasAllPermissions_run; exact Hp|].
  split; reflexivity.
Qed.

Lemma resolver_queries_agree_witness :
  exists permissions,
    getUserPermissions 100 "u1" leadOfT1 = (Ok permissions, leadOfT1)
    /\ hasAllPermissions 100 "u1" ["projects:write"; "teams:write"] leadOfT1
       = (Ok false, leadOfT1).
Proof.
  destruct (resolver_queries_agree 100 "u1" leadOfT1 eq_refl)
    as (ps & Hg & _ & _ & _ & Hall & _).
  exists ps. split; [exact Hg|].
  rewrite Hall.
  assert (E : (Ok ps, leadOfT1) = getUserPermissions 100 "u1" leadOfT1)
    by (symmetry; exact Hg).
  vm_compute in E. inversion E. subst ps. reflexivity.
Defined.

(** X2.  When storage answers, [hasRole] holds exactly for the role names
    listed by [getUserRoles], and both read the same non-expired
    assignments. *)
Theorem hasRole_matches_getUserRoles (now : Instant) (userId : string) (w : World) :
  faults w = [] ->
  exists infos,
    getUserRoles now userId w = (Ok infos, w)
    /\ (forall roleName,
           hasRole now userId roleName w
           = (Ok (includes (map info_name infos) roleName), w))
    /\ List.length infos
       = List.length (flat_map (withRole (roles w))
                               (filter (activeOf now userId) (userRoles w))).
Proof.
  intros Hf. eexists.
  split.
  { unfold getUserRoles, bind, userRole_findMany_includeRole. run_query. reflexivity. }
  split; [|apply length_map].
  intros roleName. unfold hasRole, bind, userRole_findFirst_role. run_query.
  unfold ret.
  rewrite (find_joined_exists (roles w) (activeOf now userId)
             (fun r => role_name r =? roleName) (userRoles w)).
  f_equal. f_equal. unfold includes. rewrite map_map. simpl.
  induction (flat_map (withRole (roles w)) (filter (activeOf now userId) (userRoles w)))
    as [|x l IH]; simpl; [reflexivity|].
  rewrite IH. rewrite (String.eqb_sym roleName). reflexivity.
Qed.

Lemma hasRole_matches_getUserRoles_witness :
  hasRole 100 "u1" "member" leadOfT1 = (Ok true, leadOfT1)
  /\ hasRole 100 "u1" "admin" leadOfT1 = (Ok false, leadOfT1).
Proof.
  destruct (hasRole_matches_getUserRoles 100 "u1" leadOfT1 eq_refl)
    as (infos & Hg & Hr & _).
  assert (E : (Ok infos, leadOfT1) = getUserRoles 100 "u1" leadOfT1)
    by (symmetry; exact Hg).
  vm_compute in E. inversion E. subst infos.
  split; rewrite Hr; reflexivity.
Defined.

End Resolver.

(** ** Role administration *)

Module RoleAdminFacts.
Import Prisma RBACService.

Lemma existsb_find {A} (p : A -> bool) (l : list A) :
  existsb p l = match find p l with Some _ => true | None => false end.
Proof.
  induction l as [|x l IH]; simpl; [reflexivity|].
  destruct (p x); [reflexivity|exact IH].
Qed.

Lemma find_snoc {A} (p : A -> bool) (l : list A) (x : A) :
  find p (l ++ [x])%list
  = match find p l with
    | Some y => Some y
    | None => if p x then Some x else None
    end.
Proof.
  induction l as [|a l IH]; simpl; [reflexivity|].
  destruct (p a); [reflexivity|exact IH].
Qed.

Lemma PERMISSIONS_has_iff (p : string) :
  PERMISSIONS_has p = true
  <-> In p (map fst PERMISSIONS) \/ In p objectPrototypeKeys.
Proof.
  unfold PERMISSIONS_has. rewrite orb_true_iff, includes_In.
  assert (E : existsb (fun entry : string * string =>
                         truthy (Some (snd entry)) && (fst entry =? p)) PERMISSIONS = true
              <-> In p (map fst PERMISSIONS)).
  { rewrite existsb_exists. split.
    - intros [e [He Hp]]. apply andb_prop in Hp. destruct Hp as [_ Hp].
      apply String.eqb_eq in Hp. subst p. apply in_map. exact He.
    - intros Hin. apply in_map_iff in Hin. destruct Hin as [e [Ee He]].
      exists e. split; [exact He|]. subst p. rewrite String.eqb_refl, andb_true_r.
      revert e He. apply Forall_forall. repeat constructor. }
  rewrite E. reflexivity.
Qed.

Lemma invalidPermissions_nil permissions :
  invalidPermissions permissions = []
  <-> forall p, In p permissions -> PERMISSIONS_has p = true.
Proof.
  unfold invalidPermissions. split.
  - intros H p Hp. destruct (PERMISSIONS_has p) eqn:E; [reflexivity|].
    assert (Hin : In p (filter (fun p => negb (PERMISSIONS_has p)) permissions)).
    { apply filter_In. split; [exact Hp|]. rewrite E. reflexivity. }
    rewrite H in Hin. contradiction.
  - intros H. induction permissions as [|x l IH]; simpl; [reflexivity|].
    rewrite (H x (or_introl eq_refl)). simpl. apply IH.
    intros p Hp. apply H. right. exact Hp.
Qed.

Lemma invalid_positive permissions :
  (exists p, In p permissions /\ PERMISSIONS_has p = false) ->
  Nat.ltb 0 (List.length (invalidPermissions permissions)) = true.
Proof.
  intros [p [Hp E]].
  assert (Hin : In p (invalidPermissions permissions)).
  { apply filter_In. split; [exact Hp|]. rewrite E. reflexivity. }
  destruct (invalidPermissions permissions); [contradiction|reflexivity].
Qed.

(** Lookup by name after an update that keeps names *)
Lemma find_name_after_update (n m : string) (f : Role -> Role) l row rows :
  (forall r, role_name (f r) = role_name r) ->
  updateFirst (fun r => role_name r =? n) f l = Some (row, rows) ->
  find (fun r => role_name r =? m) rows
  = if m =? n then Some row else find (fun r => role_name r =? m) l.
Proof.
  intros Hf. revert row rows. induction l as [|x l IH]; intros row rows; simpl;
    [discriminate|].
  destruct (role_name x =? n) eqn:En.
  - intros H; inversion H; subst; clear H. simpl. rewrite Hf.
    apply String.eqb_eq in En. rewrite En. rewrite (String.eqb_sym n m).
    destruct (m =? n); reflexivity.
  - destruct (updateFirst _ f l) as [[y rest]|]; [|discriminate].
    intros H; inversion H; subst; clear H. simpl.
    destruct (role_name x =? m) eqn:Em.
    + apply String.eqb_eq in Em. subst m. rewrite En. reflexivity.
    + exact (IH _ _ eq_refl).
Qed.

Lemma updateFirst_none {A} (p : A -> bool) (f : A -> A) l :
  updateFirst p f l = None -> find p l = None.
Proof.
  induction l as [|x l IH]; simpl; [reflexivity|].
  destruct (p x); [discriminate|].
  destruct (updateFirst p f l) as [[y rest]|]; [discriminate|].
  intros _. apply IH. reflexivity.
Qed.

Lemma updateFirst_found {A} (p : A -> bool) (f : A -> A) l x :
  find p l = Some x -> exists rows, updateFirst p f l = Some (f x, rows).
Proof.
  induction l as [|a l IH]; simpl; [discriminate|].
  destruct (p a).
  - intros H; inversion H; subst. eauto.
  - intros H. destruct (IH H) as [rows E]. rewrite E. eauto.
Qed.

(** An update that does not change the first match changes nothing. *)
Lemma updateFirst_fixed {A} (p : A -> bool) (f : A -> A) l x :
  find p l = Some x -> f x = x -> updateFirst p f l = Some (x, l).
Proof.
  induction l as [|a l IH]; simpl; [discriminate|].
  destruct (p a).
  - intros H E; inversion H; subst. rewrite E. reflexivity.
  - intros H E. rewrite (IH H E). reflexivity.
Qed.

Lemma updateFirst_map {A B} (g : A -> B) (p : A -> bool) (f : A -> A) l row rows :
  (forall x, g (f x) = g x) ->
  updateFirst p f l = Some (row, rows) -> map g rows = map g l.
Proof.
  intros Hg. revert row rows. induction l as [|a l IH]; intros row rows; simpl;
    [discriminate|].
  destruct (p a).
  - intros H; inversion H; subst. simpl. rewrite Hg. reflexivity.
  - destruct (updateFirst p f l) as [[y rest]|]; [|discriminate].
    intros H; inversion H; subst. simpl. rewrite (IH _ _ eq_refl). reflexivity.
Qed.

Lemma updateFirst_In_row {A} (p : A -> bool) (f : A -> A) l row rows :
  updateFirst p f l = Some (row, rows) -> In row rows.
Proof.
  revert row rows. induction l as [|a l IH]; intros row rows; simpl; [discriminate|].
  destruct (p a).
  - intros H. injection H as <- <-. left. reflexivity.
  - destruct (updateFirst p f l) as [[y rest]|]; [|discriminate].
    intros H. injection H as <- <-. right. exact (IH _ _ eq_refl).
Qed.

Lemma updateFirst_In_others {A} (p : A -> bool) (f : A -> A) l row rows :
  updateFirst p f l = Some (row, rows) ->
  forall x, In x l -> p x = false -> In x rows.
Proof.
  revert row rows. induction l as [|a l IH]; intros row rows; simpl; [discriminate|].
  destruct (p a) eqn:E.
  - intros H. injection H as <- <-. intros x [Hx|Hx] Hp; [congruence|right; exact Hx].
  - destruct (updateFirst p f l) as [[y rest]|]; [|discriminate].
    intros H. injection H as <- <-.
    intros x [Hx|Hx] Hp; [left; exact Hx|right; exact (IH _ _ eq_refl x Hx Hp)].
Qed.

Lemma updateFirst_length {A} (p : A -> bool) (f : A -> A) l row rows :
  updateFirst p f l = Some (row, rows) -> List.length rows = List.length l.
Proof.
  revert row rows. induction l as [|a l IH]; intros row rows; simpl; [discriminate|].
  destruct (p a).
  - intros H. injection H as <- <-. reflexivity.
  - destruct (updateFirst p f l) as [[y rest]|]; [|discriminate].
    intros H. injection H as <- <-. simpl. rewrite (IH _ _ eq_refl). reflexivity.
Qed.

Lemma updateFirst_find {A} (p : A -> bool) (f : A -> A) l x row rows :
  find p l = Some x -> updateFirst p f l = Some (row, rows) ->
  row = f x /\ (p (f x) = true -> find p rows = Some (f x)).
Proof.
  revert row rows. induction l as [|a l IH]; intros row rows; simpl; [discriminate|].
  destruct (p a) eqn:E.
  - intros H1 H2. injection H1 as <-. injection H2 as <- <-.
    split; [reflexivity|]. intros Hp. simpl. rewrite Hp. reflexivity.
  - destruct (updateFirst p f l) as [[y rest]|]; [|discriminate].
    intros H1 H2. injection H2 as <- <-.
    destruct (IH _ _ H1 eq_refl) as [Hy Hfind].
    split; [exact Hy|]. intros Hp. simpl. rewrite E. exact (Hfind Hp).
Qed.

(** The assignments after an update of a role row: those on record, their
    references rewritten when the identifier changes under [Cascade] *)
Lemma role_update_rows onUpdate id data w row w' :
  faults w = [] ->
  role_update onUpdate id data w = (Ok row, w') ->
  exists old rows,
    find (fun r => role_id r =? id) (roles w) = Some old
    /\ updateFirst (fun r => role_id r =? id) data (roles w) = Some (row, rows)
    /\ row = data old
    /\ roles w' = rows
    /\ (userRoles w' = userRoles w
        \/ ((role_id row =? id) = false
            /\ userRoles w' = map (retarget id (role_id row)) (userRoles w)))
    /\ ((role_id row =? id) = true -> userRoles w' = userRoles w).
Proof.
  intros Hf. unfold role_update. run_query.
  destruct (find (fun r => role_id r =? id) (roles w)) as [old|] eqn:Hold;
    [|discriminate].
  destruct (_ || _); [discriminate|].
  destruct (updateFirst _ data (roles w)) as [[row0 rows]|] eqn:Eu; [|discriminate].
  destruct (updateFirst_find _ _ _ _ _ _ Hold Eu) as [Hrow _].
  destruct (role_id row0 =? id) eqn:Eid.
  - intros H. injection H as <- <-. exists old, rows. rewrite Eid. simpl. auto 10.
  - destruct onUpdate.
    + intros H. injection H as <- <-. exists old, rows. rewrite Eid. simpl.
      repeat split; auto; try discriminate.
    + destruct (existsb _ (userRoles w)); [discriminate|].
      intros H. injection H as <- <-. exists old, rows. rewrite Eid. simpl.
      repeat split; auto; try discriminate.
Qed.

(** An update that keeps the name and the identifier of the row *)
Lemma role_update_in_place onUpdate id data w old rows :
  faults w = [] ->
  find (fun r => role_id r =? id) (roles w) = Some old ->
  role_name (data old) = role_name old ->
  role_id (data old) = id ->
  updateFirst (fun r => role_id r =? id) data (roles w) = Some (data old, rows) ->
  role_update onUpdate id data w = (Ok (data old), set_roles rows w).
Proof.
  intros Hf Hold Hname Hid Eu. unfold role_update. run_query.
  rewrite Hold, Hname, Hid, !String.eqb_refl. simpl. rewrite Eu.
  rewrite Hid, String.eqb_refl. reflexivity.
Qed.

Lemma removeFirst_found {A} (p : A -> bool) l x :
  find p l = Some x -> exists rows, removeFirst p l = Some rows.
Proof.
  induction l as [|a l IH]; simpl; [discriminate|].
  destruct (p a); [eauto|].
  intros H. destruct (IH H) as [rows E]. rewrite E. eauto.
Qed.

Lemma removeFirst_keeps {A} (p : A -> bool) l rows :
  removeFirst p l = Some rows ->
  (forall x, In x rows -> In x l)
  /\ (forall x, In x l -> p x = false -> In x rows)
  /\ S (List.length rows) = List.length l.
Proof.
  revert rows. induction l as [|a l IH]; intros rows; simpl; [discriminate|].
  destruct (p a) eqn:E.
  - intros H; inversion H; subst. repeat split; auto.
    intros x [Hx|Hx] Hp; [subst; congruence|exact Hx].
  - destruct (removeFirst p l) as [rest|]; [|discriminate].
    intros H; inversion H; subst.
    destruct (IH _ eq_refl) as (H1 & H2 & H3).
    repeat split.
    + intros x [Hx|Hx]; [left; exact Hx|right; apply H1; exact Hx].
    + intros x [Hx|Hx] Hp; [left; exact Hx|right; apply H2; assumption].
    + simpl. rewrite H3. reflexivity.
Qed.

End RoleAdminFacts.

Module RoleAdmin.
Import Prisma RBACService RoleAdminFacts.

(** X3.  When storage answers, [createRole] rejects the request, writing
    nothing, as soon as one requested permission is neither an identifier of
    the catalog nor a property name that the catalog object inherits from
    [Object.prototype] (such as [constructor] or [toString], which pass the
    lookup); the message lists the rejected permissions in the order of the
    request.  Otherwise a role name already in use is rejected with P2002,
    and a new name yields a custom role ([isSystem] false) with the requested
    permissions, which the lookup by name then finds; assignments are not
    touched. *)
Theorem createRole_validates
        (name description : string) (permissions : list string)
        (createdBy : string) (w : World) :
  faults w = [] ->
  (forall p, PERMISSIONS_has p = true
             <-> In p (map fst PERMISSIONS) \/ In p objectPrototypeKeys)
  /\ ((exists p, In p permissions /\ PERMISSIONS_has p = false) ->
      createRole name description permissions createdBy w
      = (Throw (Error ("Invalid permissions: "
                       ++ String.concat ", " (invalidPermissions permissions))), w))
  /\ ((forall p, In p permissions -> PERMISSIONS_has p = true) ->
      (roleNamed name w <> None ->
       createRole name description permissions createdBy w
       = (Throw (PrismaClientError "P2002"), w))
      /\ (roleNamed name w = None ->
          exists w',
            createRole name description permissions createdBy w
            = (Ok (mkRole (generatedId (nextId w)) name description permissions false),
               w')
            /\ roles w'
               = (roles w ++ [mkRole (generatedId (nextId w)) name description
                                     permissions false])%list
            /\ userRoles w' = userRoles w
            /\ roleNamed name w'
               = Some (mkRole (generatedId (nextId w)) name description
                              permissions false))).
Proof.
  intros Hf. split; [exact PERMISSIONS_has_iff|]. split.
  - intros Hbad. unfold createRole. rewrite (invalid_positive _ Hbad). reflexivity.
  - intros Hok. apply invalidPermissions_nil in Hok.
    unfold createRole. rewrite Hok. simpl.
    unfold bind, role_create. run_query. simpl.
    rewrite existsb_find. fold (roleNamed name w).
    split.
    + intros Hex. destruct (roleNamed name w); [reflexivity|contradiction].
    + intros Hnone. rewrite Hnone. eexists. split; [reflexivity|]. simpl.
      split; [reflexivity|]. split; [reflexivity|].
      unfold roleNamed in *. simpl. rewrite find_snoc, Hnone. simpl.
      rewrite String.eqb_refl. reflexivity.
Qed.

Lemma createRole_validates_witness :
  createRole "auditor" "Reads the audit trail" ["admin:audit_logs"; "not:a:real:permission"]
             "admin" rolesOnly
  = (Throw (Error "Invalid permissions: not:a:real:permission"), rolesOnly)
  /\ exists w',
       createRole "auditor" "Reads the audit trail" ["admin:audit_logs"; "toString"]
                  "admin" rolesOnly
       = (Ok (mkRole "id-0" "auditor" "Reads the audit trail"
                     ["admin:audit_logs"; "toString"] false), w').
Proof.
  split.
  - refine (proj1 (proj2 (createRole_validates "auditor" "Reads the audit trail"
                            ["admin:audit_logs"; "not:a:real:permission"] "admin"
                            rolesOnly eq_refl)) _).
    exists "not:a:real:permission". split; [right; left; reflexivity|reflexivity].
  - destruct (proj2 (proj2 (createRole_validates "auditor" "Reads the audit trail"
                              ["admin:audit_logs"; "toString"] "admin"
                              rolesOnly eq_refl))) as [_ H].
    + intros p [<-|[<-|[]]]; reflexivity.
    + destruct (H eq_refl) as (w' & Hrun & _). exists w'. exact Hrun.
Defined.

(** X4.  [updateRole] for an updates object made of columns of the role
    row, when storage answers.  An unknown identifier fails with
    [Error "Role not found"], a system role given a non-empty new name with
    [Error "Cannot rename system roles"] and a permission that fails the
    catalog lookup with the invalid-permission error; nothing is written in
    these cases.  A successful update returns the row with every given field
    replaced, the identifier and the [isSystem] flag included: the guards
    look at [name] and [permissions] only.  It keeps the number of role rows
    and every row of another identifier, adds and drops no assignment, and
    leaves identifiers and assignments as they are when the request names no
    [id], and the flags when it names no [isSystem].  On a system role it
    succeeds only when the name is absent or the empty string.  A request
    that only sets [isSystem] to false succeeds on a system role, and
    [deleteRole] then deletes that role. *)
Theorem updateRole_contract
        (onUpdate : ReferentialAction) (roleId : string) (updates : RoleUpdates)
        (w : World) :
  faults w = [] ->
  (find (fun r => role_id r =? roleId) (roles w) = None ->
   updateRole onUpdate roleId updates w = (Throw (Error "Role not found"), w))
  /\ (forall role,
         find (fun r => role_id r =? roleId) (roles w) = Some role ->
         (role_isSystem role = true -> truthy (upd_name updates) = true ->
          updateRole onUpdate roleId updates w
          = (Throw (Error "Cannot rename system roles"), w))
         /\ (forall permissions p,
                (role_isSystem role && truthy (upd_name updates)) = false ->
                upd_permissions updates = Some permissions ->
                In p permissions -> PERMISSIONS_has p = false ->
                updateRole onUpdate roleId updates w
                = (Throw (Error ("Invalid permissions: "
                                 ++ String.concat ", " (invalidPermissions permissions))),
                   w))
         /\ (forall role' w',
                updateRole onUpdate roleId updates w = (Ok role', w') ->
                role' = applyUpdates updates role
                /\ role_id role' = match upd_id updates with
                                   | Some i => i
                                   | None => role_id role
                                   end
                /\ role_isSystem role' = match upd_isSystem updates with
                                         | Some b => b
                                         | None => role_isSystem role
                                         end
                /\ In role' (roles w')
                /\ List.length (roles w') = List.length (roles w)
                /\ (forall r, In r (roles w) -> role_id r <> roleId -> In r (roles w'))
                /\ map ur_userId (userRoles w') = map ur_userId (userRoles w)
                /\ (upd_id updates = None ->
                    map role_id (roles w') = map role_id (roles w)
                    /\ userRoles w' = userRoles w)
                /\ (upd_isSystem updates = None ->
                    map role_isSystem (roles w') = map role_isSystem (roles w))
                /\ (role_isSystem role = true ->
                    (upd_name updates = None /\ role_name role' = role_name role)
                    \/ upd_name updates = Some ""))
         /\ (role_isSystem role = true ->
             updates = mkRoleUpdates None None None None (Some false) ->
             exists role' w' w'',
               updateRole onUpdate roleId updates w = (Ok role', w')
               /\ role_id role' = roleId
               /\ role_name role' = role_name role
               /\ role_isSystem role' = false
               /\ deleteRole roleId w' = (Ok tt, w'')
               /\ List.length (roles w'') = pred (List.length (roles w)))).
Proof.
  intros Hf. split.
  - intros Hnone. unfold updateRole, bind, role_findUnique_id. run_query.
    cbv beta iota. rewrite Hnone. reflexivity.
  - intros role Hrole.
    assert (Hid : role_id role = roleId).
    { apply find_some in Hrole. apply String.eqb_eq. exact (proj2 Hrole). }
    assert (Hrun : updateRole onUpdate roleId updates w
                   = if role_isSystem role && truthy (upd_name updates)
                     then (Throw (Error "Cannot rename system roles"), w)
                     else if Nat.ltb 0 (List.length
                                (match upd_permissions updates with
                                 | Some permissions => invalidPermissions permissions
                                 | None => []
                                 end))
                          then (Throw (Error ("Invalid permissions: "
                                    ++ String.concat ", "
                                         (match upd_permissions updates with
                                          | Some permissions =>
                                              invalidPermissions permissions
                                          | None => []
                                          end))), w)
                          else role_update onUpdate roleId (applyUpdates updates) w).
    { unfold updateRole, bind, role_findUnique_id. run_query.
      cbv beta iota. rewrite Hrole.
      destruct (role_isSystem role && truthy (upd_name updates)); [reflexivity|].
      destruct (Nat.ltb 0 _); reflexivity. }
    split; [|split; [|split]].
    + intros Hsys Hname. rewrite Hrun, Hsys, Hname. reflexivity.
    + intros permissions p Hguard Hperm Hp Hbad.
      rewrite Hrun, Hguard, Hperm.
      rewrite (invalid_positive permissions (ex_intro _ p (conj Hp Hbad))).
      reflexivity.
    + intros role' w'. rewrite Hrun.
      destruct (role_isSystem role && truthy (upd_name updates)) eqn:Hguard;
        [discriminate|].
      destruct (Nat.ltb 0 _); [discriminate|].
      intros Hupd.
      destruct (role_update_rows _ _ _ _ _ _ Hf Hupd)
        as (old & rows & Hold & Eu & Hrow & Hroles & Hurs & Hsame).
      rewrite Hrole in Hold. injection Hold as <-.
      split; [exact Hrow|]. subst role'.
      split; [reflexivity|]. split; [reflexivity|].
      rewrite Hroles.
      split; [exact (updateFirst_In_row _ _ _ _ _ Eu)|].
      split; [exact (updateFirst_length _ _ _ _ _ Eu)|].
      split.
      { intros r Hr Hne. apply (updateFirst_In_others _ _ _ _ _ Eu r Hr).
        apply String.eqb_neq. exact Hne. }
      split.
      { destruct Hurs as [->|[_ ->]]; [reflexivity|].
        rewrite map_map. apply map_ext. intros ur. unfold retarget.
        destruct (ur_roleId ur =? roleId); reflexivity. }
      split.
      { intros Hnoid. split.
        - apply (updateFirst_map role_id _ (applyUpdates updates) _ _ _) with (2 := Eu).
          intros x. unfold applyUpdates. rewrite Hnoid. reflexivity.
        - apply Hsame. unfold applyUpdates. rewrite Hnoid. simpl.
          rewrite Hid. apply String.eqb_refl. }
      split.
      { intros Hnoflag.
        apply (updateFirst_map role_isSystem _ (applyUpdates updates) _ _ _) with (2 := Eu).
        intros x. unfold applyUpdates. rewrite Hnoflag. reflexivity. }
      intros Hsys. rewrite Hsys in Hguard. simpl in Hguard.
      destruct (upd_name updates) as [n|] eqn:En.
      * right. destruct n; [reflexivity|discriminate].
      * left. split; [reflexivity|]. unfold applyUpdates. rewrite En. reflexivity.
    + intros Hsys ->.
      destruct (updateFirst_found (fun r => role_id r =? roleId)
                  (applyUpdates (mkRoleUpdates None None None None (Some false)))
                  _ _ Hrole) as [rows Eu].
      destruct (updateFirst_find _ _ _ _ _ _ Hrole Eu) as [_ Hfind].
      assert (Hkept : (role_id (applyUpdates (mkRoleUpdates None None None None (Some false))
                                  role) =? roleId) = true)
        by (simpl; rewrite Hid; apply String.eqb_refl).
      specialize (Hfind Hkept).
      assert (Hupd : updateRole onUpdate roleId
                       (mkRoleUpdates None None None None (Some false)) w
                     = (Ok (applyUpdates (mkRoleUpdates None None None None (Some false))
                              role), set_roles rows w)).
      { rewrite Hrun. simpl upd_name. simpl truthy. rewrite andb_false_r.
        simpl upd_permissions. simpl Nat.ltb. cbv iota.
        apply role_update_in_place; try assumption; reflexivity. }
      destruct (removeFirst_found _ _ _ Hfind) as [rest Erest].
      exists (applyUpdates (mkRoleUpdates None None None None (Some false)) role),
             (set_roles rows w).
      eexists.
      split; [exact Hupd|].
      split; [simpl; exact Hid|].
      split; [reflexivity|]. split; [reflexivity|].
      split.
      { assert (Hflag : role_isSystem
                          (applyUpdates (mkRoleUpdates None None None None (Some false))
                             role) = false) by reflexivity.
        unfold deleteRole, bind, role_findUnique_id. run_query. cbv beta iota.
        change (roles (set_roles rows w)) with rows. rewrite Hfind, Hflag.
        unfold userRole_deleteMany. run_query. cbv beta iota.
        unfold role_delete. run_query. simpl. rewrite Erest. reflexivity. }
      simpl. destruct (removeFirst_keeps _ _ _ Erest) as (_ & _ & Hlen).
      rewrite <- (updateFirst_length _ _ _ _ _ Eu), <- Hlen. reflexivity.
Qed.

(** The system role [member] cannot be renamed; its flag can be cleared. *)
Lemma updateRole_contract_witness :
  updateRole Cascade "role-member" (mkRoleUpdates None (Some "associate") None None None)
    rolesOnly
  = (Throw (Error "Cannot rename system roles"), rolesOnly)
  /\ exists role' w' w'',
       updateRole Cascade "role-member" (mkRoleUpdates None None None None (Some false))
         rolesOnly = (Ok role', w')
       /\ role_isSystem role' = false
       /\ deleteRole "role-member" w' = (Ok tt, w'')
       /\ roles w'' = [].
Proof.
  destruct (updateRole_contract Cascade "role-member"
              (mkRoleUpdates None (Some "associate") None None None) rolesOnly eq_refl)
    as [_ H1].
  destruct (H1 memberRole eq_refl) as (Hrename & _).
  split; [apply Hrename; reflexivity|].
  destruct (updateRole_contract Cascade "role-member"
              (mkRoleUpdates None None None None (Some false)) rolesOnly eq_refl)
    as [_ H2].
  destruct (H2 memberRole eq_refl) as (_ & _ & _ & Hclear).
  destruct (Hclear eq_refl eq_refl) as (role' & w' & w'' & Hupd & _ & _ & Hflag & Hdel & Hlen).
  exists role', w', w''. split; [exact Hupd|]. split; [exact Hflag|].
  split; [exact Hdel|].
  destruct (roles w''); [reflexivity|discriminate].
Defined.

(** X5.  When storage answers, [deleteRole] of an unknown identifier fails
    with [Error "Role not found"] and of a system role with
    [Error "Cannot delete system roles"], writing nothing.  For a custom role
    it first deletes every assignment of the role, expired ones included,
    then the role row: afterwards no assignment refers to the identifier, the
    assignments of other roles and the other role rows are all kept, and
    exactly one role row is gone. *)
Theorem deleteRole_cascades (roleId : string) (w : World) :
  faults w = [] ->
  (find (fun r => role_id r =? roleId) (roles w) = None ->
   deleteRole roleId w = (Throw (Error "Role not found"), w))
  /\ (forall role,
         find (fun r => role_id r =? roleId) (roles w) = Some role ->
         (role_isSystem role = true ->
          deleteRole roleId w = (Throw (Error "Cannot delete system roles"), w))
         /\ (role_isSystem role = false ->
             exists w',
               deleteRole roleId w = (Ok tt, w')
               /\ userRoles w'
                  = filter (fun ur => negb (ur_roleId ur =? roleId)) (userRoles w)
               /\ (forall ur, In ur (userRoles w') -> ur_roleId ur <> roleId)
               /\ (forall ur, In ur (userRoles w) -> ur_roleId ur <> roleId ->
                              In ur (userRoles w'))
               /\ (forall r, In r (roles w') -> In r (roles w))
               /\ (forall r, In r (roles w) -> role_id r <> roleId -> In r (roles w'))
               /\ S (List.length (roles w')) = List.length (roles w)
               /\ teamMembers w' = teamMembers w)).
Proof.
  intros Hf. split.
  - intros Hnone. unfold deleteRole, bind, role_findUnique_id. run_query.
    cbv beta iota. rewrite Hnone. reflexivity.
  - intros role Hrole. split.
    + intros Hsys. unfold deleteRole, bind, role_findUnique_id. run_query.
      cbv beta iota. rewrite Hrole, Hsys. reflexivity.
    + intros Hsys. unfold deleteRole, bind, role_findUnique_id. run_query.
      cbv beta iota. rewrite Hrole, Hsys.
      unfold userRole_deleteMany. run_query. cbv beta iota.
      unfold role_delete. run_query. simpl.
      destruct (removeFirst_found _ _ _ Hrole) as [rows Er]. rewrite Er.
      destruct (removeFirst_keeps _ _ _ Er) as (H1 & H2 & H3).
      eexists. split; [reflexivity|]. simpl.
      split; [reflexivity|]. split; [|split; [|split; [|split; [|split]]]].
      * intros ur Hin. apply filter_In in Hin. destruct Hin as [_ Hne].
        apply negb_true_iff in Hne. apply String.eqb_neq in Hne. exact Hne.
      * intros ur Hin Hne. apply filter_In. split; [exact Hin|].
        apply negb_true_iff. apply String.eqb_neq. exact Hne.
      * exact H1.
      * intros r Hr Hne. apply H2; [exact Hr|]. apply String.eqb_neq. exact Hne.
      * exact H3.
      * reflexivity.
Qed.

Lemma deleteRole_cascades_witness :
  exists w',
    deleteRole "role-auditor" withAuditors = (Ok tt, w')
    /\ userRoles w' = [mkUserRole "u1" "role-member" "admin" 0 None]
    /\ deleteRole "role-member" withAuditors
       = (Throw (Error "Cannot delete system roles"), withAuditors).
Proof.
  destruct (proj2 (deleteRole_cascades "role-auditor" withAuditors eq_refl)
              auditorRole eq_refl) as [_ H].
  destruct (H eq_refl) as (w' & Hrun & Hur & _).
  exists w'. split; [exact Hrun|]. split; [rewrite Hur; reflexivity|].
  exact (proj1 (proj2 (deleteRole_cascades "role-member" withAuditors eq_refl)
                      memberRole eq_refl) eq_refl).
Defined.

End RoleAdmin.

Module SeedFacts.
Import Prisma RBACService RoleAdminFacts.

Lemma set_config_fixed config r :
  role_description r = cfg_description config ->
  role_permissions r = cfg_permissions config ->
  set_config config r = r.
Proof. destruct r; simpl; intros; subst; reflexivity. Qed.

Lemma role_upsert_run name config w :
  faults w = [] ->
  exists row w',
    role_upsert name (set_config config)
      (fun id => mkRole id name (cfg_description config) (cfg_permissions config) true) w
    = (Ok row, w')
    /\ faults w' = [] /\ userRoles w' = userRoles w
    /\ (forall m, roleNamed m w' = if m =? name then Some row else roleNamed m w)
    /\ role_name row = name
    /\ role_description row = cfg_description config
    /\ role_permissions row = cfg_permissions config
    /\ (forall r, roleNamed name w = Some r ->
                  role_description r = cfg_description config ->
                  role_permissions r = cfg_permissions config ->
                  roles w' = roles w /\ nextId w' = nextId w).
Proof.
  intros Hf. unfold role_upsert. run_query.
  destruct (updateFirst (fun r => role_name r =? name) (set_config config) (roles w))
    as [[row rows]|] eqn:Eu.
  - exists row. eexists. split; [reflexivity|]. simpl.
    destruct (StatusMoves.updateFirst_row _ _ _ _ _ Eu) as [x [_ [Hx Hrow]]].
    apply String.eqb_eq in Hx.
    split; [exact Hf|]. split; [reflexivity|].
    split.
    { intros m. unfold roleNamed. simpl.
      exact (find_name_after_update name m (set_config config) (roles w) row rows
               (fun r => eq_refl) Eu). }
    subst row. simpl. split; [exact Hx|]. split; [reflexivity|]. split; [reflexivity|].
    intros r Hr Hd Hp. unfold roleNamed in Hr.
    rewrite (updateFirst_fixed _ (set_config config) _ r Hr
               (set_config_fixed config r Hd Hp)) in Eu.
    inversion Eu; subst. split; reflexivity.
  - apply updateFirst_none in Eu.
    eexists. eexists. split; [reflexivity|]. simpl.
    split; [exact Hf|]. split; [reflexivity|].
    split.
    { intros m. unfold roleNamed. simpl. rewrite find_snoc. simpl.
      rewrite (String.eqb_sym name m).
      destruct (m =? name) eqn:Em.
      - apply String.eqb_eq in Em. subst m. rewrite Eu. reflexivity.
      - destruct (find (fun r => role_name r =? m) (roles w)); reflexivity. }
    split; [reflexivity|]. split; [reflexivity|]. split; [reflexivity|].
    intros r Hr. unfold roleNamed in Hr. congruence.
Qed.

Lemma upsertRoles_run entries :
  NoDup (map fst entries) ->
  forall w, faults w = [] ->
  exists w',
    upsertRoles entries w = (Ok tt, w')
    /\ faults w' = [] /\ userRoles w' = userRoles w /\ appLog w' = appLog w
    /\ (forall m, ~ In m (map fst entries) -> roleNamed m w' = roleNamed m w)
    /\ (forall name config,
           In (name, config) entries ->
           exists r, roleNamed name w' = Some r /\ role_name r = name
                     /\ role_description r = cfg_description config
                     /\ role_permissions r = cfg_permissions config)
    /\ ((forall name config,
            In (name, config) entries ->
            exists r, roleNamed name w = Some r
                      /\ role_description r = cfg_description config
                      /\ role_permissions r = cfg_permissions config) ->
        roles w' = roles w /\ nextId w' = nextId w).
Proof.
  induction entries as [|[n c] rest IH]; intros Hnd w Hf.
  - exists w. simpl. repeat split; auto. intros ? ? [].
  - simpl in Hnd. inversion Hnd as [|? ? Hnotin Hnd']; subst.
    destruct (role_upsert_run n c w Hf)
      as (row & w0 & Hrun0 & Hf0 & Hur0 & Hnamed0 & Hn0 & Hd0 & Hp0 & Hfix0).
    destruct (IH Hnd' w0 Hf0) as (w' & Hrun & Hf' & Hur & Hlog & Hother & Hall & Hfix).
    exists w'. split.
    { simpl. unfold bind. rewrite Hrun0. exact Hrun. }
    split; [exact Hf'|]. split; [congruence|].
    split.
    { rewrite Hlog. unfold role_upsert, query in Hrun0. rewrite Hf in Hrun0.
      destruct (updateFirst _ _ (roles w)) as [[? ?]|];
        inversion Hrun0; reflexivity. }
    split.
    { intros m Hm. simpl in Hm.
      rewrite (Hother m (fun H => Hm (or_intror H))), Hnamed0.
      destruct (m =? n) eqn:E; [|reflexivity].
      apply String.eqb_eq in E. exfalso. apply Hm. left. symmetry. exact E. }
    split.
    { intros name config [Hin|Hin].
      - injection Hin as En Ec. subst name config. exists row.
        rewrite (Hother n Hnotin), Hnamed0, String.eqb_refl. auto.
      - exact (Hall name config Hin). }
    intros Hcfg.
    destruct (Hcfg n c (or_introl eq_refl)) as (r & Hr & Hd & Hp).
    destruct (Hfix0 r Hr Hd Hp) as [Eroles Enext].
    assert (Hcfg0 : forall name config,
               In (name, config) rest ->
               exists r, roleNamed name w0 = Some r
                         /\ role_description r = cfg_description config
                         /\ role_permissions r = cfg_permissions config).
    { intros name config Hin. unfold roleNamed. rewrite Eroles.
      exact (Hcfg name config (or_intror Hin)). }
    destruct (Hfix Hcfg0) as [E1 E2]. split; congruence.
Qed.

End SeedFacts.

Module Seed.
Import Prisma RBACService RoleAdminFacts SeedFacts.

(** X6.  When storage answers, [initializeRoles] succeeds on any role store;
    afterwards each of the five default role names is found with the
    description and the permission list of [DEFAULT_ROLES] (every one of
    these permissions being a catalog identifier), roles of other names are
    as they were and no assignment is touched.  Running it again changes
    neither the role table nor the id supply. *)
Theorem initializeRoles_seeds_idempotently (w : World) :
  faults w = [] ->
  exists w1,
    initializeRoles w = (Ok tt, w1)
    /\ (forall name config,
           In (name, config) DEFAULT_ROLES ->
           exists r, roleNamed name w1 = Some r /\ role_name r = name
                     /\ role_description r = cfg_description config
                     /\ role_permissions r = cfg_permissions config
                     /\ invalidPermissions (role_permissions r) = [])
    /\ (forall m, ~ In m (map fst DEFAULT_ROLES) -> roleNamed m w1 = roleNamed m w)
    /\ userRoles w1 = userRoles w
    /\ exists w2,
         initializeRoles w1 = (Ok tt, w2)
         /\ roles w2 = roles w1 /\ nextId w2 = nextId w1
         /\ userRoles w2 = userRoles w1.
Proof.
  intros Hf.
  assert (Hnd : NoDup (map fst DEFAULT_ROLES)).
  { simpl. repeat constructor; simpl; intuition discriminate. }
  destruct (upsertRoles_run DEFAULT_ROLES Hnd w Hf)
    as (w1 & Hrun1 & Hf1 & Hur1 & _ & Hother1 & Hall1 & _).
  set (w1' := set_appLog (app (appLog w1) [(info, "Default roles initialized")]) w1).
  assert (Hcfg : forall name config,
             In (name, config) DEFAULT_ROLES ->
             exists r, roleNamed name w1' = Some r
                       /\ role_description r = cfg_description config
                       /\ role_permissions r = cfg_permissions config).
  { intros name config Hin. destruct (Hall1 name config Hin) as (r & Hr & _ & Hd & Hp).
    exists r. auto. }
  destruct (upsertRoles_run DEFAULT_ROLES Hnd w1' Hf1)
    as (w2 & Hrun2 & _ & Hur2 & _ & _ & _ & Hfix2).
  destruct (Hfix2 Hcfg) as [Eroles Enext].
  exists w1'. split.
  { unfold initializeRoles, bind. rewrite Hrun1. reflexivity. }
  split.
  { intros name config Hin. destruct (Hall1 name config Hin) as (r & Hr & Hn & Hd & Hp).
    exists r. repeat split; try assumption.
    rewrite Hp. revert name config Hin r Hr Hn Hd Hp.
    assert (Hvalid : Forall (fun e => invalidPermissions (cfg_permissions (snd e)) = [])
                            DEFAULT_ROLES)
      by (repeat constructor).
    intros name config Hin _ _ _ _ _.
    rewrite Forall_forall in Hvalid. exact (Hvalid (name, config) Hin). }
  split; [exact Hother1|]. split; [exact Hur1|].
  eexists. split.
  { unfold initializeRoles, bind. rewrite Hrun2. reflexivity. }
  simpl. auto.
Qed.

Lemma initializeRoles_seeds_idempotently_witness :
  exists w1,
    initializeRoles rolesOnly = (Ok tt, w1)
    /\ map role_name (roles w1) = ["member"; "admin"; "hr_manager"; "team_lead"; "viewer"]
    /\ exists w2, initializeRoles w1 = (Ok tt, w2) /\ roles w2 = roles w1.
Proof.
  destruct (initializeRoles_seeds_idempotently rolesOnly eq_refl)
    as (w1 & Hrun & _ & _ & _ & w2 & Hrun2 & Hroles & _).
  exists w1. split; [exact Hrun|]. split.
  - assert (E : (Ok tt, w1) = initializeRoles rolesOnly) by (symmetry; exact Hrun).
    vm_compute in E. inversion E. reflexivity.
  - exists w2. split; assumption.
Defined.

End Seed.

Module SpecRules.

Lemma Spec_ret {A} (P : World -> Prop) (a : A) (E : World -> Prop) :
  Spec P (ret a) (fun b w => b = a /\ P w) E.
Proof. intros w H. simpl. auto. Qed.

Lemma Spec_throw {A} (P : World -> Prop) (e : Exn) (Q : A -> World -> Prop) :
  Spec P (throw e) Q P.
Proof. intros w H. exact H. Qed.

Lemma Spec_bind {A B} (P : World -> Prop) (m : M A) (k : A -> M B)
      (Q : A -> World -> Prop) (R : B -> World -> Prop) (E : World -> Prop) :
  Spec P m Q E -> (forall a, Spec (Q a) (k a) R E) -> Spec P (bind m k) R E.
Proof.
  intros Hm Hk w Hw. unfold bind. specialize (Hm w Hw).
  destruct (m w) as [[a|e] w1]; [exact (Hk a w1 Hm)|exact Hm].
Qed.

Lemma Spec_weaken {A} (P P' : World -> Prop) (m : M A)
      (Q Q' : A -> World -> Prop) (E E' : World -> Prop) :
  Spec P m Q E ->
  (forall w, P' w -> P w) -> (forall a w, Q a w -> Q' a w) -> (forall w, E w -> E' w) ->
  Spec P' m Q' E'.
Proof.
  intros H HP HQ HE w Hw. specialize (H w (HP w Hw)).
  destruct (m w) as [[a|e] w1]; auto.
Qed.

Lemma Spec_query {A} (P : World -> Prop) (run : M A)
      (Q : A -> World -> Prop) (E : World -> Prop) :
  Stable P -> (forall w, P w -> E w) -> Spec P run Q E -> Spec P (query run) Q E.
Proof.
  intros Hs HE Hrun w Hw. unfold query.
  destruct (faults w) as [|[|] fs].
  - exact (Hrun w Hw).
  - apply HE. apply Hs. exact Hw.
  - exact (Hrun _ (Hs fs w Hw)).
Qed.

(** A query that only reads *)
Lemma Spec_read {A} (P : World -> Prop) (f : World -> A)
      (Q : A -> World -> Prop) (E : World -> Prop) :
  Stable P -> (forall w, P w -> E w) -> (forall w, P w -> Q (f w) w) ->
  Spec P (query (fun w => (Ok (f w), w))) Q E.
Proof.
  intros Hs HE HQ. apply Spec_query; [exact Hs|exact HE|].
  intros w Hw. simpl. auto.
Qed.

(** A query that writes unconditionally *)
Lemma Spec_write (P : World -> Prop) (g : World -> World)
      (Q : unit -> World -> Prop) (E : World -> Prop) :
  Stable P -> (forall w, P w -> E w) -> (forall w, P w -> Q tt (g w)) ->
  Spec P (query (fun w => (Ok tt, g w))) Q E.
Proof.
  intros Hs HE HQ. apply Spec_query; [exact Hs|exact HE|].
  intros w Hw. simpl. auto.
Qed.

Lemma Spec_logger (P : World -> Prop) level message (E : World -> Prop) :
  (forall l w, P w -> P (set_appLog l w)) ->
  Spec P (logger level message) (fun _ w => P w) E.
Proof. intros H w Hw. simpl. apply H. exact Hw. Qed.

End SpecRules.

Module IntegrityFacts.
Import Prisma RBACService RoleAdminFacts SpecRules.

Lemma Stable_Integrity : Stable Integrity.
Proof. intros fs w H. exact H. Qed.

Lemma Integrity_log l w : Integrity w -> Integrity (set_appLog l w).
Proof. intros H. exact H. Qed.

Lemma Spec_findRole (name : string) :
  Spec Integrity (role_findUnique_name name) KnownRole Integrity.
Proof.
  apply Spec_read; [apply Stable_Integrity|auto|].
  intros w Hw. split; [exact Hw|].
  destruct (find (fun r => role_name r =? name) (roles w)) as [r|] eqn:E; [|exact I].
  apply find_some in E. apply in_map. apply E.
Qed.

Lemma Integrity_assignRole now userId roleName grantedBy expiresAt :
  Spec Integrity (assignRole now userId roleName grantedBy expiresAt)
       (fun _ => Integrity) Integrity.
Proof.
  unfold assignRole.
  eapply Spec_bind; [apply Spec_findRole|].
  intros [role|]; [|intros w [Hw _]; exact Hw].
  eapply Spec_bind.
  { apply (Spec_read (KnownRole (Some role)) _
                     (fun _ => KnownRole (Some role)) Integrity).
    - intros fs w H. exact H.
    - intros w [H _]. exact H.
    - auto. }
  intros [existing|]; [intros w [Hw _]; exact Hw|].
  eapply Spec_bind.
  { apply (Spec_write (KnownRole (Some role)) _ (fun _ => Integrity) Integrity).
    - intros fs w H. exact H.
    - intros w [H _]. exact H.
    - intros w [Hw Hrole] ur Hin. simpl in Hin.
      apply in_app_or in Hin. destruct Hin as [Hin|[Heq|Hnil]].
      + exact (Hw ur Hin).
      + subst ur. exact Hrole.
      + contradiction. }
  intros ?. apply Spec_logger. intros l w H. exact H.
Qed.

Lemma Integrity_revokeRole userId roleName :
  Spec Integrity (revokeRole userId roleName) (fun _ => Integrity) Integrity.
Proof.
  unfold revokeRole.
  eapply Spec_bind; [apply Spec_findRole|].
  intros [role|]; [|intros w [Hw _]; exact Hw].
  eapply Spec_bind.
  { apply (Spec_write (KnownRole (Some role)) _ (fun _ => Integrity) Integrity).
    - intros fs w H. exact H.
    - intros w [H _]. exact H.
    - intros w [Hw _] ur Hin. simpl in Hin. apply filter_In in Hin.
      exact (Hw ur (proj1 Hin)). }
  intros ?. apply Spec_logger. intros l w H. exact H.
Qed.

Lemma Integrity_more_roles w rows :
  Integrity w -> (forall id, In id (map role_id (roles w)) -> In id (map role_id rows)) ->
  Integrity (set_roles rows w).
Proof. intros Hw Hsub ur Hin. apply Hsub. exact (Hw ur Hin). Qed.

Lemma Integrity_createRole name description permissions createdBy :
  Spec Integrity (createRole name description permissions createdBy)
       (fun _ => Integrity) Integrity.
Proof.
  unfold createRole.
  destruct (Nat.ltb 0 _); [intros w Hw; exact Hw|].
  eapply Spec_bind.
  { unfold role_create.
    apply (Spec_query Integrity _ (fun _ => Integrity) Integrity);
      [apply Stable_Integrity|auto|].
    intros w Hw. destruct (existsb _ (roles w)); [exact Hw|].
    simpl. intros ur Hin. simpl. rewrite map_app. apply in_or_app. left.
    exact (Hw ur Hin). }
  intros role. eapply Spec_bind.
  { apply Spec_logger. intros l w H. exact H. }
  intros ? w Hw. exact Hw.
Qed.

Lemma Spec_findRoleById (id : string) :
  Spec Integrity (role_findUnique_id id) (fun _ => Integrity) Integrity.
Proof. apply Spec_read; [apply Stable_Integrity|auto|auto]. Qed.

(** The role rows after an update of the row [id] still hold every
    identifier but [id], and the identifier of the updated row. *)
Lemma updated_ids id data l row rows r0 :
  updateFirst (fun r => role_id r =? id) data l = Some (row, rows) ->
  In r0 (map role_id l) -> r0 <> id -> In r0 (map role_id rows).
Proof.
  intros Eu Hin Hne. apply in_map_iff in Hin. destruct Hin as [r [Er Hr]].
  apply in_map_iff. exists r. split; [exact Er|].
  apply (updateFirst_In_others _ _ _ _ _ Eu r Hr).
  apply String.eqb_neq. congruence.
Qed.

Lemma Integrity_role_update onUpdate roleId data :
  Spec Integrity (role_update onUpdate roleId data) (fun _ => Integrity) Integrity.
Proof.
  unfold role_update.
  apply Spec_query; [apply Stable_Integrity|auto|].
  intros w Hw.
  destruct (find (fun r => role_id r =? roleId) (roles w)); [|exact Hw].
  destruct (_ || _); [exact Hw|].
  destruct (updateFirst _ data (roles w)) as [[row rows]|] eqn:Eu; [|exact Hw].
  pose proof (updateFirst_In_row _ _ _ _ _ Eu) as Hrow.
  destruct (role_id row =? roleId) eqn:Eid.
  - apply String.eqb_eq in Eid. intros ur Hur. simpl.
    destruct (String.eqb_spec (ur_roleId ur) roleId) as [E|E].
    + rewrite E, <- Eid. apply in_map. exact Hrow.
    + exact (updated_ids _ _ _ _ _ _ Eu (Hw ur Hur) E).
  - destruct onUpdate.
    + intros ur' Hur'. simpl in Hur' |- *.
      apply in_map_iff in Hur'. destruct Hur' as [ur [E Hur]]. subst ur'.
      unfold retarget.
      destruct (String.eqb_spec (ur_roleId ur) roleId) as [E|E].
      * simpl. apply in_map. exact Hrow.
      * exact (updated_ids _ _ _ _ _ _ Eu (Hw ur Hur) E).
    + destruct (existsb (fun ur => ur_roleId ur =? roleId) (userRoles w)) eqn:Eref;
        [exact Hw|].
      intros ur Hur. simpl in Hur |- *.
      apply (updated_ids _ _ _ _ _ _ Eu (Hw ur Hur)).
      intros E.
      assert (Hex : existsb (fun ur => ur_roleId ur =? roleId) (userRoles w) = true).
      { apply existsb_exists. exists ur. split; [exact Hur|].
        rewrite E. apply String.eqb_refl. }
      congruence.
Qed.

Lemma Integrity_updateRole onUpdate roleId updates :
  Spec Integrity (updateRole onUpdate roleId updates) (fun _ => Integrity) Integrity.
Proof.
  unfold updateRole.
  eapply Spec_bind; [apply Spec_findRoleById|].
  intros [role|]; [|intros w Hw; exact Hw].
  destruct (role_isSystem role && truthy (upd_name updates));
    [intros w Hw; exact Hw|].
  destruct (Nat.ltb 0 _); [intros w Hw; exact Hw|].
  apply Integrity_role_update.
Qed.

Lemma Integrity_deleteRole roleId :
  Spec Integrity (deleteRole roleId) (fun _ => Integrity) Integrity.
Proof.
  unfold deleteRole.
  eapply Spec_bind; [apply Spec_findRoleById|].
  intros [role|]; [|intros w Hw; exact Hw].
  destruct (role_isSystem role); [intros w Hw; exact Hw|].
  eapply Spec_bind.
  { apply (Spec_write Integrity _ (fun _ => Unreferenced roleId) Integrity).
    - apply Stable_Integrity.
    - auto.
    - intros w Hw. split.
      + intros ur Hin. simpl in Hin. apply filter_In in Hin. exact (Hw ur (proj1 Hin)).
      + intros ur Hin. simpl in Hin. apply filter_In in Hin. destruct Hin as [_ Hne].
        apply negb_true_iff in Hne. apply String.eqb_neq. exact Hne. }
  intros ?. eapply Spec_bind.
  { unfold role_delete.
    apply (Spec_query (Unreferenced roleId) _ (fun _ => Integrity) Integrity).
    - intros fs w H. exact H.
    - intros w [H _]. exact H.
    - intros w [Hw Hno].
      destruct (removeFirst (fun r => role_id r =? roleId) (roles w)) as [rows|] eqn:Er;
        [|exact Hw].
      simpl. intros ur Hin. simpl in Hin.
      pose proof (Hw ur Hin) as Hid. apply in_map_iff in Hid.
      destruct Hid as [r [Er' Hr]].
      rewrite <- Er'. apply in_map.
      apply (proj1 (proj2 (removeFirst_keeps _ _ _ Er))); [exact Hr|].
      apply String.eqb_neq. rewrite Er'. exact (Hno ur Hin). }
  intros ?. apply Spec_logger. intros l w H. exact H.
Qed.

Lemma Integrity_upsertRoles entries :
  Spec Integrity (upsertRoles entries) (fun _ => Integrity) Integrity.
Proof.
  induction entries as [|[n c] rest IH]; [intros w Hw; exact Hw|].
  simpl. eapply Spec_bind; [|intros ?; exact IH].
  unfold role_upsert. apply Spec_query; [apply Stable_Integrity|auto|].
  intros w Hw.
  destruct (updateFirst _ (set_config c) (roles w)) as [[row rows]|] eqn:Eu.
  - apply Integrity_more_roles; [exact Hw|].
    rewrite (updateFirst_map role_id _ (set_config c) _ _ _ (fun x => eq_refl) Eu).
    auto.
  - simpl. intros ur Hin. simpl. rewrite map_app. apply in_or_app. left.
    exact (Hw ur Hin).
Qed.

Lemma Integrity_initializeRoles :
  Spec Integrity initializeRoles (fun _ => Integrity) Integrity.
Proof.
  unfold initializeRoles. eapply Spec_bind; [apply Integrity_upsertRoles|].
  intros ?. apply Spec_logger. intros l w H. exact H.
Qed.

Lemma Spec_final {A} (m : M A) (w : World) :
  Spec Integrity m (fun _ => Integrity) Integrity ->
  Integrity w -> Integrity (snd (m w)).
Proof.
  intros H Hw. specialize (H w Hw). destruct (m w) as [[a|e] w']; exact H.
Qed.

Lemma joined_all (rs : list Role) (l : list UserRole) :
  (forall ur, In ur l -> In (ur_roleId ur) (map role_id rs)) ->
  map fst (flat_map (withRole rs) l) = l.
Proof.
  induction l as [|x l IH]; intros H; simpl; [reflexivity|].
  unfold withRole at 1.
  destruct (find (fun r => role_id r =? ur_roleId x) rs) as [r|] eqn:E.
  - simpl. rewrite IH; [reflexivity|]. intros ur Hin. apply H. right. exact Hin.
  - exfalso. pose proof (H x (or_introl eq_refl)) as Hin.
    apply in_map_iff in Hin. destruct Hin as [r [Er Hr]].
    pose proof (find_none _ _ E r Hr) as Hn. simpl in Hn.
    rewrite Er, String.eqb_refl in Hn. discriminate.
Qed.

End IntegrityFacts.

Module RoleIntegrity.
Import Prisma RBACService IntegrityFacts.

(** X7.  Role administration keeps the role store referentially intact,
    whatever the storage layer does: when every assignment points to a role
    row, it still does after [assignRole], [revokeRole], [createRole],
    [updateRole], [deleteRole] and [initializeRoles], whether the call returns
    or throws, also when a query is rejected midway.  For [updateRole] this
    covers a request that gives the role another identifier, under either
    referential action of the schema: the references are rewritten with the
    row, or the update is refused while assignments refer to it.  On an
    intact store the join with the role finds a role for every assignment
    that a resolution query selects. *)
Theorem role_administration_keeps_integrity (w : World) :
  Integrity w ->
  (forall now userId roleName grantedBy expiresAt,
      Integrity (snd (assignRole now userId roleName grantedBy expiresAt w)))
  /\ (forall userId roleName, Integrity (snd (revokeRole userId roleName w)))
  /\ (forall name description permissions createdBy,
         Integrity (snd (createRole name description permissions createdBy w)))
  /\ (forall onUpdate roleId updates,
         Integrity (snd (updateRole onUpdate roleId updates w)))
  /\ (forall roleId, Integrity (snd (deleteRole roleId w)))
  /\ Integrity (snd (initializeRoles w))
  /\ (forall now userId,
         map fst (flat_map (withRole (roles w)) (filter (activeOf now userId) (userRoles w)))
         = filter (activeOf now userId) (userRoles w)).
Proof.
  intros Hw.
  split; [intros; apply Spec_final; [apply Integrity_assignRole|exact Hw]|].
  split; [intros; apply Spec_final; [apply Integrity_revokeRole|exact Hw]|].
  split; [intros; apply Spec_final; [apply Integrity_createRole|exact Hw]|].
  split; [intros; apply Spec_final; [apply Integrity_updateRole|exact Hw]|].
  split; [intros; apply Spec_final; [apply Integrity_deleteRole|exact Hw]|].
  split; [apply Spec_final; [apply Integrity_initializeRoles|exact Hw]|].
  intros now userId. apply joined_all.
  intros ur Hin. apply filter_In in Hin. exact (Hw ur (proj1 Hin)).
Qed.

Lemma role_administration_keeps_integrity_witness :
  Integrity (snd (deleteRole "role-auditor" (set_faults [false; false; true] withAuditors)))
  /\ Integrity (snd (deleteRole "role-auditor" withAuditors))
  /\ Integrity (snd (updateRole Cascade "role-auditor"
                       (mkRoleUpdates (Some "role-inspector") None None None None)
                       withAuditors))
  /\ map ur_roleId
        (userRoles (snd (updateRole Cascade "role-auditor"
                           (mkRoleUpdates (Some "role-inspector") None None None None)
                           withAuditors)))
     = ["role-member"; "role-inspector"; "role-inspector"]
  /\ fst (updateRole Restrict "role-auditor"
            (mkRoleUpdates (Some "role-inspector") None None None None) withAuditors)
     = Throw (PrismaClientError "P2003").
Proof.
  assert (H : Integrity withAuditors).
  { intros ur [<-|[<-|[<-|[]]]]; simpl; auto. }
  split; [|split; [|split; [|split; reflexivity]]].
  - destruct (role_administration_keeps_integrity
                (set_faults [false; false; true] withAuditors) H)
      as (_ & _ & _ & _ & Hd & _).
    exact (Hd "role-auditor").
  - destruct (role_administration_keeps_integrity withAuditors H)
      as (_ & _ & _ & _ & Hd & _).
    exact (Hd "role-auditor").
  - destruct (role_administration_keeps_integrity withAuditors H)
      as (_ & _ & _ & Hu & _).
    exact (Hu Cascade "role-auditor"
              (mkRoleUpdates (Some "role-inspector") None None None None)).
Defined.

End RoleIntegrity.

(** ** Audit queries and retention *)

Module AuditQueryFacts.
Import Prisma AuditService.

Lemma firstn_plus {A} (a b : nat) (l : list A) :
  firstn (a + b) l = (firstn a l ++ firstn b (skipn a l))%list.
Proof.
  revert l. induction a as [|a IH]; intros l; simpl; [reflexivity|].
  destruct l as [|x l]; simpl.
  - rewrite firstn_nil. reflexivity.
  - rewrite IH. reflexivity.
Qed.

(** The first [n] pages, one after the other, are the first [n * limit] rows. *)
Lemma pages_concat {A} (limit n : nat) (all : list A) :
  List.concat (map (fun p => pageRows limit p all) (seq 1 n)) = firstn (n * limit) all.
Proof.
  induction n as [|n IH]; [reflexivity|].
  rewrite seq_S, map_app, concat_app, IH. simpl.
  rewrite app_nil_r. unfold pageRows.
  replace (S n - 1)%nat with n by lia.
  replace (limit + n * limit)%nat with (n * limit + limit)%nat by lia.
  rewrite firstn_plus. reflexivity.
Qed.

Lemma ceilDiv_covers (total limit n : nat) :
  ceilDiv total limit = Some n -> (total <= n * limit)%nat /\ (0 < limit)%nat.
Proof.
  destruct limit as [|k]; [discriminate|].
  intros H. split; [|lia].
  assert (E : n = Nat.div (total + k) (S k)).
  { unfold ceilDiv in H. injection H as H. rewrite <- H.
    change (Nat.div (total + S k - 1) (S k) = Nat.div (total + k) (S k)).
    f_equal. lia. }
  pose proof (Nat.div_mod (total + k) (S k) ltac:(lia)) as Hd.
  pose proof (Nat.mod_upper_bound (total + k) (S k) ltac:(lia)) as Hm.
  rewrite <- E in Hd. rewrite Nat.mul_comm. lia.
Qed.

Lemma insertDesc_perm {A} (key : A -> Z) x l : Permutation (insertDesc key x l) (x :: l).
Proof.
  induction l as [|y l IH]; simpl; [reflexivity|].
  destruct (Z.leb (key y) (key x)); [reflexivity|].
  rewrite IH. apply perm_swap.
Qed.

Lemma orderByDesc_perm {A} (key : A -> Z) l : Permutation (orderByDesc key l) l.
Proof.
  induction l as [|x l IH]; simpl; [reflexivity|].
  rewrite insertDesc_perm. constructor. exact IH.
Qed.

Lemma insertDesc_sorted {A} (key : A -> Z) x l :
  StronglySorted (fun a b => key b <= key a) l ->
  StronglySorted (fun a b => key b <= key a) (insertDesc key x l).
Proof.
  induction l as [|y l IH]; intros Hs; simpl.
  - repeat constructor.
  - inversion Hs as [|? ? Hs' Hall]; subst.
    destruct (Z.leb (key y) (key x)) eqn:E.
    + apply Z.leb_le in E. constructor; [exact Hs|].
      constructor; [exact E|].
      eapply Forall_impl; [|exact Hall]. intros a Ha. simpl in Ha. lia.
    + apply Z.leb_gt in E. constructor; [apply IH; exact Hs'|].
      apply (Permutation_Forall (x := x :: l)).
      * symmetry. apply insertDesc_perm.
      * constructor; [lia|exact Hall].
Qed.

Lemma orderByDesc_sorted {A} (key : A -> Z) l :
  StronglySorted (fun a b => key b <= key a) (orderByDesc key l).
Proof.
  induction l as [|x l IH]; simpl; [constructor|].
  apply insertDesc_sorted. exact IH.
Qed.

Lemma orderByDesc_length {A} (key : A -> Z) (l : list A) :
  List.length (orderByDesc key l) = List.length l.
Proof. apply Permutation_length. apply orderByDesc_perm. Qed.

End AuditQueryFacts.

Module Retention.
Import Prisma AuditService.

(** X8.  [cleanupOldLogs] when storage answers.  The retention period is 365
    days when the setting is missing, not a number or 0.  When the store
    rejects the cutoff instant, [now] minus the retention period, as a
    [DateTime], the call throws that rejection: nothing is deleted and no
    line is logged.  When the store accepts it, the call deletes exactly the
    audit entries created before the cutoff, returns their number and keeps
    the other entries in their order; nothing else is written, and a second
    run at the same instant deletes nothing.  With a retention of at least
    one day no entry of the last 15 minutes of any later instant is deleted,
    so the failed-login count of the detector is the same before and after
    the cleanup. *)
Theorem cleanupOldLogs_deletes_expired
        (dateTime : Instant -> option Exn)
        (now : Instant) (AUDIT_LOG_RETENTION_DAYS : option Z) (w : World) :
  faults w = [] ->
  retentionDays None = 365 /\ retentionDays (Some 0) = 365
  /\ (forall e,
         dateTime (now - retentionDays AUDIT_LOG_RETENTION_DAYS * 24 * 60 * 60 * 1000)
         = Some e ->
         cleanupOldLogs dateTime now AUDIT_LOG_RETENTION_DAYS w = (Throw e, w))
  /\ (dateTime (now - retentionDays AUDIT_LOG_RETENTION_DAYS * 24 * 60 * 60 * 1000)
      = None ->
      exists w',
       cleanupOldLogs dateTime now AUDIT_LOG_RETENTION_DAYS w
       = (Ok (List.length
                (filter (fun l => Z.ltb (al_createdAt l)
                                    (now - retentionDays AUDIT_LOG_RETENTION_DAYS
                                           * 24 * 60 * 60 * 1000))
                        (auditLogs w))), w')
       /\ auditLogs w'
          = filter (fun l => negb (Z.ltb (al_createdAt l)
                                     (now - retentionDays AUDIT_LOG_RETENTION_DAYS
                                            * 24 * 60 * 60 * 1000)))
                   (auditLogs w)
       /\ (forall l, In l (auditLogs w') ->
                     now - retentionDays AUDIT_LOG_RETENTION_DAYS * 24 * 60 * 60 * 1000
                     <= al_createdAt l)
       /\ securityIncidents w' = securityIncidents w
       /\ roles w' = roles w /\ userRoles w' = userRoles w
       /\ teamMembers w' = teamMembers w
       /\ (exists w'',
              cleanupOldLogs dateTime now AUDIT_LOG_RETENTION_DAYS w' = (Ok 0%nat, w'')
              /\ auditLogs w'' = auditLogs w')
       /\ (1 <= retentionDays AUDIT_LOG_RETENTION_DAYS ->
           forall later u, now <= later ->
                           failedLogins later u (auditLogs w')
                           = failedLogins later u (auditLogs w))).
Proof.
  intros Hf. split; [reflexivity|]. split; [reflexivity|].
  set (cutoff := now - retentionDays AUDIT_LOG_RETENTION_DAYS * 24 * 60 * 60 * 1000).
  split.
  { intros e He. unfold cleanupOldLogs, bind, withDateTime. cbv zeta.
    fold cutoff. rewrite He. reflexivity. }
  intros Hacc.
  unfold cleanupOldLogs, bind, withDateTime. cbv zeta. fold cutoff. rewrite Hacc.
  unfold auditLog_deleteMany. run_query. cbv beta iota zeta.
  unfold logger at 1. cbv beta iota.
  eexists. split; [reflexivity|]. simpl.
  split; [reflexivity|]. split.
  { intros l Hin. apply filter_In in Hin. destruct Hin as [_ H].
    apply negb_true_iff in H. apply Z.ltb_ge in H. exact H. }
  repeat (split; [reflexivity|]).
  split.
  - run_query. cbv beta iota zeta. simpl.
    rewrite (BruteForce.filter_none (fun l => Z.ltb (al_createdAt l) cutoff)).
    + eexists. split; [reflexivity|]. simpl.
      apply RBACFacts.filter_filter_implied. auto.
    + intros l Hin. apply filter_In in Hin. destruct Hin as [_ H].
      apply negb_true_iff in H. exact H.
  - intros Hret later u Hlater. unfold failedLogins. f_equal.
    apply RBACFacts.filter_filter_implied. intros l H.
    apply andb_prop in H. destruct H as [_ H]. unfold since in H.
    apply Z.leb_le in H. apply negb_true_iff. apply Z.ltb_ge.
    unfold cutoff. lia.
Qed.

(** A retention of 100000001 days puts the cutoff some 270000 years back,
    which the store rejects: the cleanup throws and the six entries stay. *)
Lemma cleanupOldLogs_deletes_expired_witness :
  (exists w',
      cleanupOldLogs yearsOneTo9999 6500 (Some (-1)) sixRecorded = (Ok 6%nat, w')
      /\ auditLogs w' = []
      /\ exists w'',
           cleanupOldLogs yearsOneTo9999 6500 None sixRecorded = (Ok 0%nat, w'')
           /\ failedLogins 6500 "u1" (auditLogs w'') = 6%nat)
  /\ cleanupOldLogs yearsOneTo9999 6500 (Some 100000001) sixRecorded
     = (Throw (PrismaClientError "P2020"), sixRecorded).
Proof.
  split.
  - destruct (cleanupOldLogs_deletes_expired yearsOneTo9999 6500 (Some (-1)) sixRecorded
                eq_refl) as (_ & _ & _ & H).
    destruct (H eq_refl) as (w' & Hrun & Hlogs & _).
    exists w'. split; [exact Hrun|]. split; [rewrite Hlogs; reflexivity|].
    destruct (cleanupOldLogs_deletes_expired yearsOneTo9999 6500 None sixRecorded eq_refl)
      as (_ & _ & _ & H').
    destruct (H' eq_refl) as (w'' & Hrun' & _ & _ & _ & _ & _ & _ & _ & Hkeep).
    exists w''. split; [exact Hrun'|].
    rewrite (Hkeep ltac:(simpl; lia) 6500 "u1" ltac:(lia)). reflexivity.
  - destruct (cleanupOldLogs_deletes_expired yearsOneTo9999 6500 (Some 100000001)
                sixRecorded eq_refl) as (_ & _ & H & _).
    apply H. reflexivity.
Defined.

End Retention.

Module Paging.
Import Prisma AuditService AuditQueryFacts.

Lemma page_rows {A} (p limit : nat) (all : list A) :
  (1 <= p)%nat ->
  page ((Z.of_nat p - 1) * Z.of_nat limit) limit all = Ok (pageRows limit p all).
Proof.
  intros Hp. unfold page, pageRows.
  replace (Z.ltb ((Z.of_nat p - 1) * Z.of_nat limit) 0) with false
    by (symmetry; apply Z.ltb_ge; nia).
  replace (Z.to_nat ((Z.of_nat p - 1) * Z.of_nat limit)) with ((p - 1) * limit)%nat
    by nia.
  reflexivity.
Qed.

Lemma page_zero {A} (limit : nat) (all : list A) :
  (0 < limit)%nat ->
  page ((Z.of_nat 0 - 1) * Z.of_nat limit) limit all
  = Throw (PrismaClientError "PrismaClientValidationError").
Proof.
  intros Hl. unfold page.
  replace (Z.ltb ((Z.of_nat 0 - 1) * Z.of_nat limit) 0) with true
    by (symmetry; apply Z.ltb_lt; nia).
  reflexivity.
Qed.

(** The pages cover the rows, and pages after the last one are empty. *)
Lemma pages_cover {A} (limit n : nat) (all : list A) :
  ceilDiv (List.length all) limit = Some n ->
  List.concat (map (fun p => pageRows limit p all) (seq 1 n)) = all
  /\ (forall p, (n < p)%nat -> pageRows limit p all = [])
  /\ (forall p, (List.length (pageRows limit p all) <= limit)%nat).
Proof.
  intros Hn. destruct (ceilDiv_covers _ _ _ Hn) as [Hcover Hpos].
  split; [|split].
  - rewrite pages_concat. apply firstn_all2. exact Hcover.
  - intros p Hp. unfold pageRows. rewrite skipn_all2; [apply firstn_nil|]. nia.
  - intros p. unfold pageRows. apply firstn_le_length.
Qed.



(** X10.  When storage answers, [getSecurityIncidents] returns page
    [p >= 1] of the incidents that pass the type, severity and status
    filters, newest detection first, at most [limit] (20 by default) per
    page, with their total number; the pages 1 to [pages] together are exactly
    these incidents, each once, and nothing is written. *)
Theorem getSecurityIncidents_pages (filters : IncidentFilters) (w : World) :
  faults w = [] ->
  Permutation (orderByDesc si_detectedAt (filter (incidentsWhere filters)
                                                 (securityIncidents w)))
              (filter (incidentsWhere filters) (securityIncidents w))
  /\ StronglySorted (fun a b => si_detectedAt b <= si_detectedAt a)
       (orderByDesc si_detectedAt (filter (incidentsWhere filters) (securityIncidents w)))
  /\ (forall p,
         (1 <= p)%nat ->
         getSecurityIncidents (withIncidentPage p filters) w
         = (Ok (pageRows (orDefault (if_limit filters) 20) p
                  (orderByDesc si_detectedAt
                     (filter (incidentsWhere filters) (securityIncidents w))),
                mkPagination p (orDefault (if_limit filters) 20)
                  (List.length (filter (incidentsWhere filters) (securityIncidents w)))
                  (ceilDiv (List.length (filter (incidentsWhere filters)
                                                (securityIncidents w)))
                           (orDefault (if_limit filters) 20))),
            w))
  /\ (forall n,
         ceilDiv (List.length (filter (incidentsWhere filters) (securityIncidents w)))
                 (orDefault (if_limit filters) 20) = Some n ->
         List.concat
           (map (fun p => pageRows (orDefault (if_limit filters) 20) p
                            (orderByDesc si_detectedAt
                               (filter (incidentsWhere filters) (securityIncidents w))))
                (seq 1 n))
         = orderByDesc si_detectedAt
             (filter (incidentsWhere filters) (securityIncidents w))).
Proof.
  intros Hf.
  split; [apply orderByDesc_perm|]. split; [apply orderByDesc_sorted|].
  split.
  { intros p Hp.
    unfold getSecurityIncidents, bind, Promise_all2, securityIncident_findMany,
      securityIncident_count.
    simpl orDefault. run_query. run_query.
    change (incidentsWhere (withIncidentPage p filters)) with (incidentsWhere filters).
    rewrite (page_rows p _ _ Hp). reflexivity. }
  intros n Hn. apply pages_cover. rewrite orderByDesc_length. exact Hn.
Qed.

Lemma getSecurityIncidents_pages_witness :
  exists incidents,
    getSecurityIncidents
      (withIncidentPage 1 (mkIncidentFilters (Some "BRUTE_FORCE") None (Some "OPEN")
                                             None None))
      sixRecorded
    = (Ok (incidents, mkPagination 1 20 1 (Some 1%nat)), sixRecorded)
    /\ map si_id incidents = [5%nat].
Proof.
  eexists. split.
  - exact (proj1 (proj2 (proj2 (getSecurityIncidents_pages
             (mkIncidentFilters (Some "BRUTE_FORCE") None (Some "OPEN") None None)
             sixRecorded eq_refl))) 1%nat ltac:(lia)).
  - vm_compute. reflexivity.
Defined.

End Paging.

Module ActivityFacts.
Import Prisma AuditService.

Lemma In_firstn {A} (n : nat) (l : list A) (x : A) : In x (firstn n l) -> In x l.
Proof.
  intros H. rewrite <- (firstn_skipn n l). apply in_or_app. left. exact H.
Qed.

Lemma distinctStrings_In (xs : list string) (x : string) :
  In x (distinctStrings xs) <-> In x xs.
Proof.
  induction xs as [|a xs IH]; simpl; [reflexivity|].
  split.
  - intros [H|H]; [left; exact H|].
    apply filter_In in H. right. apply IH. apply H.
  - intros [H|H]; [left; exact H|].
    destruct (String.eqb_spec a x) as [E|E]; [left; exact E|].
    right. apply filter_In. split; [apply IH; exact H|].
    apply negb_true_iff. apply String.eqb_neq. exact E.
Qed.

Lemma NoDup_filter {A} (p : A -> bool) (l : list A) : NoDup l -> NoDup (filter p l).
Proof.
  induction l as [|a l IH]; intros H; simpl; [constructor|].
  inversion H as [|? ? Hnotin Hnd]; subst.
  destruct (p a); [|apply IH; exact Hnd].
  constructor; [|apply IH; exact Hnd].
  intros Hin. apply filter_In in Hin. apply Hnotin. apply Hin.
Qed.

Lemma distinctStrings_NoDup (xs : list string) : NoDup (distinctStrings xs).
Proof.
  induction xs as [|a xs IH]; simpl; [constructor|].
  constructor; [|apply NoDup_filter; exact IH].
  intros Hin. apply filter_In in Hin. destruct Hin as [_ H].
  rewrite String.eqb_refl in H. discriminate.
Qed.

Lemma countBy_keys keys values : map fst (countBy keys values) = keys.
Proof. induction keys as [|k keys IH]; simpl; [reflexivity|]. rewrite IH. reflexivity. Qed.

Lemma countBy_In keys values a n :
  In (a, n) (countBy keys values) ->
  In a keys /\ n = List.length (filter (String.eqb a) values).
Proof.
  induction keys as [|k keys IH]; simpl; [contradiction|].
  intros [H|H].
  - inversion H; subst. auto.
  - destruct (IH H). auto.
Qed.

(** Over keys without duplicates, one value adds one to the sum of counts
    exactly when it is a key. *)
Lemma countBy_sum_cons keys v values :
  NoDup keys ->
  list_sum (map snd (countBy keys (v :: values)))
  = ((if includes keys v then 1 else 0)
     + list_sum (map snd (countBy keys values)))%nat.
Proof.
  induction keys as [|k keys IH]; intros Hnd; [reflexivity|].
  inversion Hnd as [|? ? Hnotin Hnd']; subst.
  simpl countBy. simpl map. simpl list_sum. rewrite (IH Hnd').
  unfold includes. simpl existsb. fold (includes keys v).
  rewrite (String.eqb_sym v k).
  destruct (k =? v) eqn:E; simpl.
  - apply String.eqb_eq in E. subst v.
    destruct (includes keys k) eqn:Ei; [|lia].
    apply includes_In in Ei. contradiction.
  - destruct (includes keys v); lia.
Qed.

Lemma countBy_sum keys values :
  NoDup keys -> (forall v, In v values -> In v keys) ->
  list_sum (map snd (countBy keys values)) = List.length values.
Proof.
  intros Hnd. induction values as [|v values IH]; intros Hall.
  - clear. induction keys as [|k keys IHk]; [reflexivity|]. simpl. exact IHk.
  - rewrite countBy_sum_cons by exact Hnd.
    rewrite IH by (intros x Hx; apply Hall; right; exact Hx).
    assert (E : includes keys v = true)
      by (apply includes_In; apply Hall; left; reflexivity).
    rewrite E. reflexivity.
Qed.

End ActivityFacts.

Module Activity.
Import Prisma AuditService AuditQueryFacts ActivityFacts.

(** X11.  [getUserActivity] when storage answers.  When the store rejects
    the start of the period, [now] minus [days] days, as a [DateTime], the
    call throws that rejection.  When the store accepts it, the call returns
    the actor's entries of the last [days] days, newest first and capped at
    100, and a summary with one line per action that occurs among all of the
    actor's entries of that period: each count is the number of those
    entries with the action and is at least 1, and the counts add up to the
    number of entries of the period, also when that number exceeds the 100
    entries listed.  Nothing is written in either case. *)
Theorem getUserActivity_summary
        (dateTime : Instant -> option Exn)
        (now : Instant) (userId : string) (days : Z) (w : World) :
  faults w = [] ->
  (forall e,
      dateTime (now - days * 24 * 60 * 60 * 1000) = Some e ->
      getUserActivity dateTime now userId days w = (Throw e, w))
  /\ (dateTime (now - days * 24 * 60 * 60 * 1000) = None ->
      exists recent summary period,
        getUserActivity dateTime now userId days w = (Ok (recent, summary), w)
        /\ period = filter (fun l => optString_eqb (al_userId l) (Some userId)
                                     && Z.leb (now - days * 24 * 60 * 60 * 1000)
                                              (al_createdAt l))
                           (auditLogs w)
        /\ recent = firstn 100 (orderByDesc al_createdAt period)
        /\ (List.length recent <= 100)%nat
        /\ (forall l, In l recent ->
                      al_userId l = Some userId
                      /\ now - days * 24 * 60 * 60 * 1000 <= al_createdAt l)
        /\ NoDup (map fst summary)
        /\ (forall l, In l period -> In (al_action l) (map fst summary))
        /\ (forall a n, In (a, n) summary ->
                        n = List.length (filter (fun l => a =? al_action l) period)
                        /\ (1 <= n)%nat)
        /\ list_sum (map snd summary) = List.length period).
Proof.
  intros Hf. split.
  { intros e He. unfold getUserActivity, Promise_all2, withDateTime. cbv zeta.
    rewrite He. reflexivity. }
  intros Hacc. eexists. eexists. eexists.
  split.
  { unfold getUserActivity, Promise_all2, withDateTime. cbv zeta. rewrite Hacc.
    unfold auditLog_findMany, auditLog_groupBy_action.
    run_query. run_query. cbv beta iota zeta.
    unfold page. simpl Z.ltb. cbv beta iota. simpl Z.to_nat. simpl skipn. reflexivity. }
  set (period := filter (fun l => optString_eqb (al_userId l) (Some userId)
                                  && Z.leb (now - days * 24 * 60 * 60 * 1000)
                                           (al_createdAt l)) (auditLogs w)).
  split; [reflexivity|]. split; [reflexivity|].
  split; [apply firstn_le_length|].
  split.
  { intros l Hin. apply In_firstn in Hin.
    apply (Permutation_in _ (orderByDesc_perm al_createdAt period)) in Hin.
    apply filter_In in Hin. destruct Hin as [_ H].
    apply andb_prop in H. destruct H as [Hu Ht]. split.
    - destruct (al_userId l) as [x|]; [|discriminate]. simpl in Hu.
      apply String.eqb_eq in Hu. congruence.
    - apply Z.leb_le in Ht. exact Ht. }
  split; [rewrite countBy_keys; apply distinctStrings_NoDup|].
  split.
  { intros l Hin. rewrite countBy_keys. apply distinctStrings_In.
    apply in_map. exact Hin. }
  split.
  { intros a n Hin. apply countBy_In in Hin. destruct Hin as [Ha Hn].
    assert (Hlen : n = List.length (filter (fun l => a =? al_action l) period)).
    { rewrite Hn. clear. induction period as [|l ls IH]; simpl; [reflexivity|].
      destruct (a =? al_action l); simpl; rewrite IH; reflexivity. }
    split; [exact Hlen|].
    apply (proj1 (distinctStrings_In _ _)) in Ha. apply in_map_iff in Ha.
    destruct Ha as [l [El Hl]].
    assert (Hin : In l (filter (fun l0 => a =? al_action l0) period)).
    { apply filter_In. split; [exact Hl|]. rewrite El. apply String.eqb_refl. }
    rewrite Hlen. destruct (filter _ period); [contradiction|simpl; lia]. }
  rewrite countBy_sum; [apply length_map|apply distinctStrings_NoDup|].
  intros v Hv. apply distinctStrings_In. exact Hv.
Qed.

(** A period of 100000001 days starts some 270000 years back, which the
    store rejects: the call throws. *)
Lemma getUserActivity_summary_witness :
  (exists recent,
      getUserActivity yearsOneTo9999 6500 "u1" 30 sixRecorded
      = (Ok (recent, [("LOGIN_FAILED", 6%nat)]), sixRecorded)
      /\ List.length recent = 6%nat)
  /\ getUserActivity yearsOneTo9999 6500 "u1" 100000001 sixRecorded
     = (Throw (PrismaClientError "P2020"), sixRecorded).
Proof.
  split.
  - destruct (getUserActivity_summary yearsOneTo9999 6500 "u1" 30 sixRecorded eq_refl)
      as [_ H].
    destruct (H eq_refl) as (recent & summary & period & Hrun & _ & Hrecent & _).
    exists recent.
    assert (E : (Ok (recent, summary), sixRecorded)
                = getUserActivity yearsOneTo9999 6500 "u1" 30 sixRecorded)
      by (symmetry; exact Hrun).
    vm_compute in E. inversion E. split; reflexivity.
  - destruct (getUserActivity_summary yearsOneTo9999 6500 "u1" 100000001 sixRecorded
                eq_refl) as [H _].
    apply H. reflexivity.
Defined.

End Activity.

(** ** The other rules of the detector *)

Module OriginFacts.
Import Prisma AuditService IncidentFacts DetectorFacts.

Lemma optString_eqb_eq (a b : option string) : optString_eqb a b = true <-> a = b.
Proof.
  destruct a as [x|], b as [y|]; simpl; split; intros H;
    try discriminate; try reflexivity.
  - apply String.eqb_eq in H. congruence.
  - inversion H. apply String.eqb_refl.
Qed.

Lemma distinct_In (xs : list (option string)) x : In x (distinct xs) <-> In x xs.
Proof.
  induction xs as [|a xs IH]; simpl; [reflexivity|].
  split.
  - intros [H|H]; [left; exact H|].
    apply filter_In in H. right. apply IH. apply H.
  - intros [H|H]; [left; exact H|].
    destruct (optString_eqb a x) eqn:E.
    + left. apply optString_eqb_eq. exact E.
    + right. apply filter_In. split; [apply IH; exact H|]. rewrite E. reflexivity.
Qed.

Lemma distinct_NoDup (xs : list (option string)) : NoDup (distinct xs).
Proof.
  induction xs as [|a xs IH]; simpl; [constructor|].
  constructor; [|apply ActivityFacts.NoDup_filter; exact IH].
  intros Hin. apply filter_In in Hin. destruct Hin as [_ H].
  rewrite (proj2 (optString_eqb_eq a a) eq_refl) in H. discriminate.
Qed.

(** The third block when storage answers *)
Lemma checkMultipleIPs_run now event u w :
  faults w = [] -> WellFormed w -> opt_userId event = Some u -> u <> "" ->
  exists w',
    checkMultipleIPs now event w = (Ok tt, w')
    /\ faults w' = [] /\ WellFormed w'
    /\ auditLogs w' = auditLogs w
    /\ securityIncidents w'
       = (if Nat.leb 5 (List.length (distinct (originsOf now u (auditLogs w))))
          then afterCreateOrMerge now
                 (originsCandidate u (List.length (distinct (originsOf now u (auditLogs w)))))
                 (nextId w) (securityIncidents w)
          else securityIncidents w).
Proof.
  intros Hf Hwf Hu Hne. unfold checkMultipleIPs, whenActor.
  rewrite Hu, (truthy_nonempty u Hne).
  unfold bind, auditLog_findMany_distinct_ipAddress. run_query. cbv beta iota.
  change (map al_ipAddress
            (filter (fun l => optString_eqb (al_userId l) (Some u)
                              && since now (30 * 60 * 1000) l) (auditLogs w)))
    with (originsOf now u (auditLogs w)).
  destruct (Nat.leb 5 (List.length (distinct (originsOf now u (auditLogs w))))).
  - destruct (createSecurityIncident_step now
                (originsCandidate u (List.length (distinct (originsOf now u (auditLogs w)))))
                w Hf Hwf) as (w' & Hrun & Hf' & Hwf' & Hlogs & Hinc).
    exists w'. repeat split; try assumption; apply Hwf'.
  - exists w. repeat split; try assumption; apply Hwf.
Qed.

Lemma WellFormed_recorded w entry l level line :
  WellFormed w ->
  WellFormed (set_appLog (app l [(level, line)])
                (set_nextId (S (nextId w))
                   (set_auditLogs (auditLogs w ++ [entry])%list w))).
Proof.
  intros [Hnd Hlt]. split; [exact Hnd|]. simpl.
  eapply Forall_impl; [|exact Hlt]. intros a Ha. simpl in Ha. lia.
Qed.

End OriginFacts.

Module Origins.
Import Prisma AuditService IncidentFacts DetectorFacts OriginFacts.

(** X12.  An event without an actor ([userId] missing or the empty string)
    never raises or changes an incident, whatever its action and however
    many such events are on record: the detector issues no query and returns,
    and [log] leaves the incident table as it was, for every behaviour of the
    storage layer. *)
Theorem anonymous_events_raise_nothing
        (now : Instant) (options : LogOptions) (w : World) :
  truthy (opt_userId options) = false ->
  _detectSuspiciousActivity now options w = (Ok tt, w)
  /\ securityIncidents (snd (log now options w)) = securityIncidents w
  /\ (faults w = [] ->
      log now options w
      = (Ok (Some (entryOf options (nextId w) now)),
         set_appLog (app (appLog w) [(logLevel options, auditLine options)])
           (set_nextId (S (nextId w))
              (set_auditLogs (auditLogs w ++ [entryOf options (nextId w) now])%list w)))).
Proof.
  intros Hanon.
  assert (Hdetect : forall w0, _detectSuspiciousActivity now options w0 = (Ok tt, w0)).
  { intros w0. unfold _detectSuspiciousActivity, bind, checkFailedLogins,
      checkSensitiveAccess, checkMultipleIPs, whenActor.
    destruct (opt_userId options) as [u|].
    - rewrite Hanon.
      destruct (opt_action options =? LOGIN_FAILED);
        destruct (opt_action options =? SENSITIVE_DATA_ACCESSED); reflexivity.
    - destruct (opt_action options =? LOGIN_FAILED);
        destruct (opt_action options =? SENSITIVE_DATA_ACCESSED); reflexivity. }
  split; [apply Hdetect|].
  split.
  - unfold log, try_catch, bind, auditLog_create, query.
    destruct (faults w) as [|[|] fs]; cbv beta iota zeta; unfold logger at 1;
      cbv beta iota; rewrite ?Hdetect; reflexivity.
  - intros Hf. unfold log, try_catch, bind, auditLog_create. run_query.
    cbv beta iota zeta. unfold logger at 1. cbv beta iota.
    rewrite Hdetect. reflexivity.
Qed.

Lemma anonymous_events_raise_nothing_witness :
  securityIncidents
    (recordAll [(1000, anonymousFailure); (1001, anonymousFailure);
                (1002, anonymousFailure); (1003, anonymousFailure);
                (1004, anonymousFailure); (1005, anonymousFailure)] emptyWorld)
  = []
  /\ _detectSuspiciousActivity 1000 anonymousFailure emptyWorld = (Ok tt, emptyWorld).
Proof.
  split; [reflexivity|].
  exact (proj1 (anonymous_events_raise_nothing 1000 anonymousFailure emptyWorld eq_refl)).
Defined.

(** X13.  When storage answers, recording an event of an actor whose action
    is neither LOGIN_FAILED nor SENSITIVE_DATA_ACCESSED persists the entry and
    counts the different origin addresses of the actor's entries of the
    trailing 30 minutes, the new entry included and a missing address
    counting as an address of its own; the incidents are the result of
    create-or-merge of the MEDIUM-severity SUSPICIOUS_ACTIVITY candidate
    exactly when that number is at least 5, and are unchanged otherwise. *)
Theorem origins_rule (now : Instant) (event : LogOptions) (u : string) (w : World) :
  faults w = [] -> WellFormed w ->
  opt_userId event = Some u -> u <> "" ->
  (opt_action event =? LOGIN_FAILED) = false ->
  (opt_action event =? SENSITIVE_DATA_ACCESSED) = false ->
  exists w',
    log now event w = (Ok (Some (entryOf event (nextId w) now)), w')
    /\ auditLogs w' = (auditLogs w ++ [entryOf event (nextId w) now])%list
    /\ NoDup (distinct (originsOf now u (auditLogs w')))
    /\ (forall ip, In ip (distinct (originsOf now u (auditLogs w')))
                   <-> In ip (originsOf now u (auditLogs w')))
    /\ In (opt_ipAddress event) (originsOf now u (auditLogs w'))
    /\ securityIncidents w'
       = (if Nat.leb 5 (List.length (distinct (originsOf now u (auditLogs w'))))
          then afterCreateOrMerge now
                 (originsCandidate u
                    (List.length (distinct (originsOf now u (auditLogs w')))))
                 (S (nextId w)) (securityIncidents w)
          else securityIncidents w).
Proof.
  intros Hf Hwf Hu Hne Hnl Hns.
  set (entry := entryOf event (nextId w) now).
  set (w2 := set_appLog (app (appLog w) [(logLevel event, auditLine event)])
               (set_nextId (S (nextId w))
                  (set_auditLogs (auditLogs w ++ [entry])%list w))).
  assert (Hwf2 : WellFormed w2) by (apply WellFormed_recorded; exact Hwf).
  destruct (checkMultipleIPs_run now event u w2 Hf Hwf2 Hu Hne)
    as (w' & Hrun & _ & _ & Hlogs & Hinc).
  exists w'. split.
  { unfold log, try_catch, bind, auditLog_create. run_query. cbv beta iota zeta.
    unfold logger at 1. cbv beta iota.
    unfold _detectSuspiciousActivity, bind, checkFailedLogins, checkSensitiveAccess.
    rewrite Hnl, Hns. unfold ret at 1 2. cbv beta iota.
    match goal with |- context [checkMultipleIPs now event ?x] => change x with w2 end.
    rewrite Hrun. reflexivity. }
  rewrite Hlogs. change (auditLogs w2) with (auditLogs w ++ [entry])%list.
  split; [reflexivity|]. split; [apply distinct_NoDup|].
  split; [intros ip; apply distinct_In|].
  split; [|exact Hinc].
  unfold originsOf. apply in_map_iff. exists entry. split; [reflexivity|].
  apply filter_In. split; [apply in_or_app; right; left; reflexivity|].
  unfold entry. simpl. rewrite Hu. simpl. rewrite String.eqb_refl. simpl.
  unfold since. simpl. apply Z.leb_le. lia.
Qed.

Lemma origins_rule_witness :
  exists w',
    log 5000 (pageView "10.0.0.5") (recordAll fourOrigins emptyWorld)
    = (Ok (Some (entryOf (pageView "10.0.0.5") 4 5000)), w')
    /\ map (fun i => (si_type i, si_severity i, si_status i)) (securityIncidents w')
       = [("SUSPICIOUS_ACTIVITY", "MEDIUM", OPEN)].
Proof.
  destruct (origins_rule 5000 (pageView "10.0.0.5") "u1" (recordAll fourOrigins emptyWorld))
    as (w' & Hrun & _ & _ & _ & _ & Hinc).
  - reflexivity.
  - split; [constructor|constructor].
  - reflexivity.
  - discriminate.
  - reflexivity.
  - reflexivity.
  - exists w'. split; [exact Hrun|].
    assert (Hl : (Ok (Some (entryOf (pageView "10.0.0.5") 4 5000)), w')
                 = log 5000 (pageView "10.0.0.5") (recordAll fourOrigins emptyWorld))
      by (symmetry; exact Hrun).
    vm_compute in Hl. inversion Hl. reflexivity.
Defined.

End Origins.

Module SensitiveAccess.
Import Prisma AuditService IncidentFacts DetectorFacts OriginFacts.

Lemma checkSensitiveAccess_run now event u w :
  faults w = [] -> WellFormed w ->
  opt_action event = SENSITIVE_DATA_ACCESSED -> opt_userId event = Some u -> u <> "" ->
  exists w',
    checkSensitiveAccess now event w = (Ok tt, w')
    /\ faults w' = [] /\ WellFormed w'
    /\ auditLogs w' = auditLogs w
    /\ securityIncidents w'
       = (if Nat.leb 50 (sensitiveAccesses now u (auditLogs w))
          then afterCreateOrMerge now
                 (sensitiveCandidate u (sensitiveAccesses now u (auditLogs w)))
                 (nextId w) (securityIncidents w)
          else securityIncidents w).
Proof.
  intros Hf Hwf Ha Hu Hne. unfold checkSensitiveAccess, whenActor.
  rewrite Ha, Hu, String.eqb_refl, (truthy_nonempty u Hne).
  unfold bind, auditLog_count. run_query. cbv beta iota.
  change (List.length
            (filter (fun l => optString_eqb (al_userId l) (Some u)
                              && (al_action l =? SENSITIVE_DATA_ACCESSED)
                              && since now (60 * 60 * 1000) l) (auditLogs w)))
    with (sensitiveAccesses now u (auditLogs w)).
  destruct (Nat.leb 50 (sensitiveAccesses now u (auditLogs w))).
  - destruct (createSecurityIncident_step now
                (sensitiveCandidate u (sensitiveAccesses now u (auditLogs w))) w Hf Hwf)
      as (w' & Hrun & Hf' & Hwf' & Hlogs & Hinc).
    exists w'. repeat split; try assumption; apply Hwf'.
  - exists w. repeat split; try assumption; apply Hwf.
Qed.

Lemma mergeInto_fresh (l : list SecurityIncident) (x : SecurityIncident) line :
  (forall i, In i l -> si_id i <> si_id x) ->
  mergeInto x line (l ++ [x])
  = (l ++ [set_description (si_description x ++ newline ++ line) x])%list.
Proof.
  intros Hother. unfold mergeInto. rewrite map_app. simpl.
  rewrite Nat.eqb_refl. f_equal.
  rewrite <- (map_id l) at 2. apply map_ext_in. intros i Hi.
  destruct (Nat.eqb (si_id i) (si_id x)) eqn:E; [|reflexivity].
  apply Nat.eqb_eq in E. exfalso. exact (Hother i Hi E).
Qed.

(** X14.  When storage answers, recording a SENSITIVE_DATA_ACCESSED event of
    an actor persists the entry, counts the actor's sensitive accesses of the
    trailing hour, the new entry included, and applies create-or-merge of
    the MEDIUM-severity SUSPICIOUS_ACTIVITY candidate exactly when that count
    is at least 50; the origin rule then runs on the result.  Both rules use
    the type SUSPICIOUS_ACTIVITY: when both fire in one call and no incident
    correlated before, a single incident is added, with the title of the
    access rule and the two descriptions on two lines. *)
Theorem sensitive_access_rule (now : Instant) (event : LogOptions) (u : string) (w : World) :
  faults w = [] -> WellFormed w ->
  opt_action event = SENSITIVE_DATA_ACCESSED -> opt_userId event = Some u -> u <> "" ->
  exists w' id2,
    log now event w = (Ok (Some (entryOf event (nextId w) now)), w')
    /\ auditLogs w' = (auditLogs w ++ [entryOf event (nextId w) now])%list
    /\ sensitiveAccesses now u (auditLogs w')
       = S (sensitiveAccesses now u (auditLogs w))
    /\ securityIncidents w'
       = (let first :=
            if Nat.leb 50 (sensitiveAccesses now u (auditLogs w'))
            then afterCreateOrMerge now
                   (sensitiveCandidate u (sensitiveAccesses now u (auditLogs w')))
                   (S (nextId w)) (securityIncidents w)
            else securityIncidents w in
          if Nat.leb 5 (List.length (distinct (originsOf now u (auditLogs w'))))
          then afterCreateOrMerge now
                 (originsCandidate u
                    (List.length (distinct (originsOf now u (auditLogs w')))))
                 id2 first
          else first)
    /\ (Nat.leb 50 (sensitiveAccesses now u (auditLogs w')) = true ->
        Nat.leb 5 (List.length (distinct (originsOf now u (auditLogs w')))) = true ->
        find (correlates now
                (sensitiveCandidate u (sensitiveAccesses now u (auditLogs w'))))
             (securityIncidents w) = None ->
        securityIncidents w'
        = (securityIncidents w
           ++ [set_description
                 (c_description
                    (sensitiveCandidate u (sensitiveAccesses now u (auditLogs w')))
                  ++ newline
                  ++ c_description
                       (originsCandidate u
                          (List.length (distinct (originsOf now u (auditLogs w'))))))
                 (freshIncident (S (nextId w)) now
                    (sensitiveCandidate u (sensitiveAccesses now u (auditLogs w'))))])%list).
Proof.
  intros Hf Hwf Ha Hu Hne.
  set (entry := entryOf event (nextId w) now).
  set (w2 := set_appLog (app (appLog w) [(logLevel event, auditLine event)])
               (set_nextId (S (nextId w))
                  (set_auditLogs (auditLogs w ++ [entry])%list w))).
  assert (Hwf2 : WellFormed w2) by (apply WellFormed_recorded; exact Hwf).
  destruct (checkSensitiveAccess_run now event u w2 Hf Hwf2 Ha Hu Hne)
    as (w3 & Hrun3 & Hf3 & Hwf3 & Hlogs3 & Hinc3).
  destruct (checkMultipleIPs_run now event u w3 Hf3 Hwf3 Hu Hne)
    as (w4 & Hrun4 & _ & _ & Hlogs4 & Hinc4).
  exists w4, (nextId w3).
  assert (Hlogs : auditLogs w4 = (auditLogs w ++ [entry])%list)
    by (rewrite Hlogs4, Hlogs3; reflexivity).
  assert (Hresult :
    securityIncidents w4
    = (let first :=
         if Nat.leb 50 (sensitiveAccesses now u (auditLogs w4))
         then afterCreateOrMerge now
                (sensitiveCandidate u (sensitiveAccesses now u (auditLogs w4)))
                (S (nextId w)) (securityIncidents w)
         else securityIncidents w in
       if Nat.leb 5 (List.length (distinct (originsOf now u (auditLogs w4))))
       then afterCreateOrMerge now
              (originsCandidate u
                 (List.length (distinct (originsOf now u (auditLogs w4)))))
              (nextId w3) first
       else first)).
  { rewrite Hinc4, Hinc3, Hlogs, Hlogs3. reflexivity. }
  split.
  { unfold log, try_catch, bind, auditLog_create. run_query. cbv beta iota zeta.
    unfold logger at 1. cbv beta iota.
    unfold _detectSuspiciousActivity, bind, checkFailedLogins.
    rewrite Ha. change (SENSITIVE_DATA_ACCESSED =? LOGIN_FAILED) with false.
    unfold ret. cbv beta iota.
    match goal with |- context [checkSensitiveAccess now event ?x] =>
      change x with w2 end.
    rewrite Hrun3, Hrun4. reflexivity. }
  split; [exact Hlogs|].
  split.
  { rewrite Hlogs. unfold sensitiveAccesses. rewrite filter_app, length_app.
    simpl. rewrite Hu, Ha. simpl. rewrite !String.eqb_refl. simpl.
    unfold since. simpl.
    assert (E : Z.leb (now - 3600000) now = true) by (apply Z.leb_le; lia).
    rewrite E. simpl. lia. }
  split; [exact Hresult|].
  intros H50 H5 Hnone. rewrite Hresult. cbv zeta. rewrite H50, H5.
  unfold afterCreateOrMerge at 2. rewrite Hnone.
  unfold afterCreateOrMerge. rewrite RoleAdminFacts.find_snoc.
  assert (Hsame : find (correlates now
                     (originsCandidate u
                        (List.length (distinct (originsOf now u (auditLogs w4))))))
                       (securityIncidents w) = None) by exact Hnone.
  rewrite Hsame.
  assert (Hcor : correlates now
                   (originsCandidate u
                      (List.length (distinct (originsOf now u (auditLogs w4)))))
                   (freshIncident (S (nextId w)) now
                      (sensitiveCandidate u (sensitiveAccesses now u (auditLogs w4))))
                 = true).
  { unfold correlates. simpl. rewrite String.eqb_refl. simpl.
    apply Z.leb_le. lia. }
  rewrite Hcor. apply mergeInto_fresh.
  intros i Hi. destruct Hwf as [_ Hlt]. rewrite Forall_forall in Hlt.
  specialize (Hlt i Hi). simpl. lia.
Qed.

Lemma sensitive_access_rule_witness :
  exists w',
    log 2000 (sensitiveAccess "10.0.0.9") (recordAll fortyNineAccesses emptyWorld)
    = (Ok (Some (entryOf (sensitiveAccess "10.0.0.9") 49 2000)), w')
    /\ map (fun i => (si_id i, si_title i, si_status i)) (securityIncidents w')
       = [(50%nat, "Unusual data access pattern detected", OPEN)].
Proof.
  destruct (sensitive_access_rule 2000 (sensitiveAccess "10.0.0.9") "u1"
              (recordAll fortyNineAccesses emptyWorld))
    as (w' & id2 & Hrun & Hlogs & _ & _ & Hboth).
  - reflexivity.
  - split; [constructor|constructor].
  - reflexivity.
  - reflexivity.
  - discriminate.
  - exists w'. split; [exact Hrun|].
    rewrite Hboth.
    + rewrite map_app. reflexivity.
    + rewrite Hlogs. vm_compute. reflexivity.
    + rewrite Hlogs. vm_compute. reflexivity.
    + reflexivity.
Defined.

End SensitiveAccess.

(** ** The status of an incident *)

Module ResolutionFacts.
Import Prisma AuditService IncidentFacts DetectorFacts OriginFacts.

(** Create-or-merge leaves an incident that is neither OPEN nor
    INVESTIGATING as it is, at its position. *)
Lemma afterCreateOrMerge_keeps_inactive now c id l k a :
  NoDup (map si_id l) ->
  nth_error l k = Some a -> isActiveStatus (si_status a) = false ->
  nth_error (afterCreateOrMerge now c id l) k = Some a.
Proof.
  intros Hnd Hk Hina. unfold afterCreateOrMerge.
  destruct (find (correlates now c) l) as [ex|] eqn:Efind.
  - unfold mergeInto. rewrite nth_error_map, Hk. simpl.
    destruct (Nat.eqb (si_id a) (si_id ex)) eqn:E; [|reflexivity].
    apply Nat.eqb_eq in E. apply find_some in Efind. destruct Efind as [Hex Hc].
    assert (a = ex)
      by (apply (same_id_same_row l); eauto using nth_error_In).
    subst a. unfold correlates in Hc. rewrite Hina in Hc.
    rewrite andb_false_r in Hc. discriminate.
  - rewrite nth_error_app1; [exact Hk|]. apply nth_error_Some. congruence.
Qed.

(** [log] of an event that is neither a failed login nor a sensitive access,
    when storage answers *)
Lemma log_keeps_inactive now event w :
  faults w = [] -> WellFormed w ->
  (opt_action event =? LOGIN_FAILED) = false ->
  (opt_action event =? SENSITIVE_DATA_ACCESSED) = false ->
  exists w',
    log now event w = (Ok (Some (entryOf event (nextId w) now)), w')
    /\ faults w' = []
    /\ auditLogs w' = (auditLogs w ++ [entryOf event (nextId w) now])%list
    /\ (forall k a,
           nth_error (securityIncidents w) k = Some a ->
           isActiveStatus (si_status a) = false ->
           nth_error (securityIncidents w') k = Some a).
Proof.
  intros Hf Hwf Hnl Hns.
  set (entry := entryOf event (nextId w) now).
  set (w2 := set_appLog (app (appLog w) [(logLevel event, auditLine event)])
               (set_nextId (S (nextId w))
                  (set_auditLogs (auditLogs w ++ [entry])%list w))).
  assert (Hwf2 : WellFormed w2) by (apply WellFormed_recorded; exact Hwf).
  assert (Hlog : forall w',
             checkMultipleIPs now event w2 = (Ok tt, w') ->
             log now event w = (Ok (Some entry), w')).
  { intros w' Hrun.
    unfold log, try_catch, bind, auditLog_create. run_query. cbv beta iota zeta.
    unfold logger at 1. cbv beta iota.
    unfold _detectSuspiciousActivity, bind, checkFailedLogins, checkSensitiveAccess.
    rewrite Hnl, Hns. unfold ret at 1 2. cbv beta iota.
    match goal with |- context [checkMultipleIPs now event ?x] => change x with w2 end.
    rewrite Hrun. reflexivity. }
  assert (Hskip : truthy (opt_userId event) = false ->
                  checkMultipleIPs now event w2 = (Ok tt, w2)).
  { intros Ht. unfold checkMultipleIPs, whenActor.
    destruct (opt_userId event) as [u|]; [|reflexivity].
    rewrite Ht. reflexivity. }
  destruct (truthy (opt_userId event)) eqn:Ht.
  - destruct (opt_userId event) as [u|] eqn:Hu; [|discriminate].
    assert (Hne : u <> "") by (intros ->; discriminate).
    destruct (checkMultipleIPs_run now event u w2 Hf Hwf2 Hu Hne)
      as (w' & Hrun & Hf' & _ & Hlogs & Hinc).
    exists w'. split; [exact (Hlog w' Hrun)|]. split; [exact Hf'|].
    split; [rewrite Hlogs; reflexivity|].
    intros k a Hk Hina. rewrite Hinc.
    destruct (Nat.leb 5 _); [|exact Hk].
    apply afterCreateOrMerge_keeps_inactive; [apply Hwf2|exact Hk|exact Hina].
  - exists w2. split; [exact (Hlog w2 (Hskip eq_refl))|].
    split; [exact Hf|]. split; [reflexivity|].
    intros k a Hk _. exact Hk.
Qed.

End ResolutionFacts.

Module IncidentLifecycle.
Import Prisma AuditService StatusMoves IncidentFacts ResolutionFacts.

(** C5, as stated, fails.  The fifth failed login of [u1] makes the code
    insert an OPEN incident; [resolveIncident] on it succeeds and the
    incident on record is RESOLVED.  The status has moved from OPEN to
    RESOLVED in one step, which is no transition of the state machine of
    the claim: the incident was never INVESTIGATING. *)
Lemma resolveIncident_OPEN_counterexample :
  map (fun i => (si_id i, si_status i))
      (securityIncidents (recordAll fiveFailures emptyWorld)) = [(5%nat, OPEN)]
  /\ (exists i w',
         resolveIncident 6000 5 "password reset" "admin"
           (recordAll fiveFailures emptyWorld) = (Ok i, w')
         /\ map (fun i => (si_id i, si_status i)) (securityIncidents w')
            = [(5%nat, RESOLVED)])
  /\ ~ Transition OPEN RESOLVED.
Proof.
  split; [vm_compute; reflexivity|].
  split; [|intros H; inversion H].
  eexists. eexists. split; [vm_compute; reflexivity|]. vm_compute. reflexivity.
Qed.

(** C5, amended.  The status of an existing incident is changed by
    [resolveIncident] only, and only to RESOLVED.  When storage answers,
    [resolveIncident] of an incident on record, whatever its status, leaves
    it on record at its place with status RESOLVED and the given resolution,
    resolver and instant, its other columns as they were, returns that row
    and adds a SECURITY_INCIDENT_RESOLVED entry to the audit trail; for an
    unknown identifier it throws and writes nothing.  After
    [resolveIncident], whether it succeeds or not and whatever the storage
    layer does, every incident is still there, the status of every other
    incident is what it was and no status has changed but to RESOLVED;
    after create-or-merge and after [log] every existing incident has the
    status it had.  Hence a RESOLVED incident stays RESOLVED. *)
Theorem status_changes_only_to_RESOLVED :
  (forall now incidentId resolution resolvedBy w k a,
      faults w = [] -> WellFormed w ->
      nth_error (securityIncidents w) k = Some a -> si_id a = incidentId ->
      exists w' b entry,
        resolveIncident now incidentId resolution resolvedBy w = (Ok b, w')
        /\ nth_error (securityIncidents w') k = Some b
        /\ si_status b = RESOLVED
        /\ si_resolution b = Some resolution
        /\ si_resolvedBy b = Some resolvedBy
        /\ si_resolvedAt b = Some now
        /\ si_id b = si_id a /\ si_type b = si_type a
        /\ si_severity b = si_severity a /\ si_title b = si_title a
        /\ si_description b = si_description a
        /\ si_detectedAt b = si_detectedAt a
        /\ si_affectedUsers b = si_affectedUsers a
        /\ auditLogs w' = (auditLogs w ++ [entry])%list
        /\ al_action entry = SECURITY_INCIDENT_RESOLVED
        /\ al_userId entry = Some resolvedBy
        /\ al_resource entry = "SecurityIncident"
        /\ al_resourceId entry = Some (showNat incidentId)
        /\ al_details entry = Some resolution
        /\ al_createdAt entry = now)
  /\ (forall now incidentId resolution resolvedBy w,
         faults w = [] ->
         (forall a, In a (securityIncidents w) -> si_id a <> incidentId) ->
         resolveIncident now incidentId resolution resolvedBy w
         = (Throw (PrismaClientError "P2025"), w))
  /\ (forall now incidentId resolution resolvedBy w,
         Evolves staysOrResolves (securityIncidents w)
           (securityIncidents
              (snd (resolveIncident now incidentId resolution resolvedBy w))))
  /\ (forall now incidentId resolution resolvedBy w i w',
         resolveIncident now incidentId resolution resolvedBy w = (Ok i, w') ->
         si_id i = incidentId /\ si_status i = RESOLVED
         /\ si_resolvedBy i = Some resolvedBy /\ si_resolvedAt i = Some now
         /\ si_resolution i = Some resolution)
  /\ (forall now incident w,
         Evolves eq (securityIncidents w)
           (securityIncidents (snd (_createSecurityIncident now incident w))))
  /\ (forall now options w,
         Evolves eq (securityIncidents w) (securityIncidents (snd (log now options w))))
  /\ (forall now incidentId resolution resolvedBy w k a,
         nth_error (securityIncidents w) k = Some a -> si_status a = RESOLVED ->
         exists b,
           nth_error (securityIncidents
                        (snd (resolveIncident now incidentId resolution resolvedBy w))) k
           = Some b
           /\ si_id b = si_id a /\ si_status b = RESOLVED)
  /\ (forall now incidentId resolution resolvedBy w k a,
         nth_error (securityIncidents w) k = Some a -> si_id a <> incidentId ->
         exists b,
           nth_error (securityIncidents
                        (snd (resolveIncident now incidentId resolution resolvedBy w))) k
           = Some b
           /\ si_id b = si_id a /\ si_status b = si_status a).
Proof.
  assert (Hres : forall now incidentId resolution resolvedBy,
             Keeps staysOrResolves (resolveIncident now incidentId resolution resolvedBy)).
  { intros. unfold resolveIncident.
    apply Keeps_bind; [exact staysOrResolves_trans| |].
    - apply Keeps_update; [exact staysOrResolves_refl|].
      intros a. split; [reflexivity|right; reflexivity].
    - intros i. apply Keeps_bind; [exact staysOrResolves_trans| |].
      + apply Keeps_log; [exact staysOrResolves_refl|exact staysOrResolves_trans].
      + intros _. apply Keeps_ret. exact staysOrResolves_refl. }
  split.
  { intros now incidentId resolution resolvedBy w k a Hf Hwf Hk Hid.
    assert (Hin : In a (securityIncidents w)) by (eapply nth_error_In; eauto).
    subst incidentId.
    set (rows := map (fun i => if Nat.eqb (si_id i) (si_id a)
                               then resolved now resolution resolvedBy i else i)
                     (securityIncidents w)).
    set (w1 := set_securityIncidents rows w).
    assert (Hupd : securityIncident_update (si_id a) (resolved now resolution resolvedBy) w
                   = (Ok (resolved now resolution resolvedBy a), w1)).
    { unfold securityIncident_update. run_query.
      rewrite (updateFirst_unique _ _ _ (proj1 Hwf) Hin). reflexivity. }
    assert (Hids : map si_id rows = map si_id (securityIncidents w)).
    { unfold rows. rewrite map_map. apply map_ext. intros i.
      destruct (Nat.eqb (si_id i) (si_id a)); reflexivity. }
    assert (Hwf1 : WellFormed w1).
    { destruct Hwf as [Hnd Hlt]. split; simpl.
      - rewrite Hids. exact Hnd.
      - unfold rows. apply Forall_map. eapply Forall_impl; [|exact Hlt].
        intros i Hi. destruct (Nat.eqb (si_id i) (si_id a)); exact Hi. }
    assert (Hk1 : nth_error (securityIncidents w1) k
                  = Some (resolved now resolution resolvedBy a)).
    { simpl. unfold rows. rewrite nth_error_map, Hk. simpl.
      rewrite Nat.eqb_refl. reflexivity. }
    match goal with |- context [resolveIncident now ?id resolution resolvedBy w] =>
      pose (options := mkLogOptions (Some resolvedBy) SECURITY_INCIDENT_RESOLVED
                         "SecurityIncident" (Some (showNat id)) (Some resolution)
                         None None None None None) end.
    destruct (log_keeps_inactive now options w1 Hf Hwf1 eq_refl eq_refl)
      as (w2 & Hlog & _ & Hlogs & Hkeep).
    exists w2, (resolved now resolution resolvedBy a), (entryOf options (nextId w1) now).
    split.
    { unfold resolveIncident, bind. rewrite Hupd. fold options. rewrite Hlog.
      reflexivity. }
    split; [exact (Hkeep k _ Hk1 eq_refl)|].
    repeat (split; [reflexivity|]).
    split; [exact Hlogs|].
    repeat split. }
  split.
  { intros now incidentId resolution resolvedBy w Hf Hnone.
    unfold resolveIncident, bind, securityIncident_update. run_query.
    assert (E : find (fun i => Nat.eqb (si_id i) incidentId) (securityIncidents w) = None).
    { destruct (find _ (securityIncidents w)) as [x|] eqn:Ex; [|reflexivity].
      apply find_some in Ex. destruct Ex as [Hin Hx]. apply Nat.eqb_eq in Hx.
      exfalso. exact (Hnone x Hin Hx). }
    assert (Eu : updateFirst (fun i => Nat.eqb (si_id i) incidentId)
                   (resolved now resolution resolvedBy) (securityIncidents w) = None).
    { clear - E. induction (securityIncidents w) as [|x l IH]; simpl in *;
        [reflexivity|].
      destruct (Nat.eqb (si_id x) incidentId); [discriminate|].
      rewrite (IH E). reflexivity. }
    rewrite Eu. reflexivity. }
  split; [intros; apply Hres|].
  split.
  { intros now incidentId resolution resolvedBy w i w'.
    unfold resolveIncident, bind.
    destruct (securityIncident_update incidentId (resolved now resolution resolvedBy) w)
      as [[row|e] w1] eqn:Eu; [|discriminate].
    destruct (log now _ w1) as [[r|e] w2]; [|discriminate].
    intros H; inversion H; subst; clear H.
    unfold securityIncident_update, query in Eu.
    assert (Hrow : forall w0 row0 w0',
               match updateFirst (fun i => Nat.eqb (si_id i) incidentId)
                       (resolved now resolution resolvedBy) (securityIncidents w0) with
               | Some (row, rows) => (Ok row, set_securityIncidents rows w0)
               | None => (Throw (PrismaClientError "P2025"), w0)
               end = (Ok row0, w0') ->
               si_id row0 = incidentId /\ si_status row0 = RESOLVED
               /\ si_resolvedBy row0 = Some resolvedBy /\ si_resolvedAt row0 = Some now
               /\ si_resolution row0 = Some resolution).
    { intros w0 row0 w0' H.
      destruct (updateFirst _ _ (securityIncidents w0)) as [[r0 rows]|] eqn:E;
        [|discriminate].
      inversion H; subst; clear H.
      destruct (updateFirst_row _ _ _ _ _ E) as [x [_ [Hp Hx]]]. subst row0.
      apply Nat.eqb_eq in Hp. simpl. auto. }
    destruct (faults w) as [|[|] fs]; [eauto|discriminate|eauto]. }
  split.
  { intros. apply Keeps_createSecurityIncident; intros; subst; reflexivity. }
  split.
  { intros. apply Keeps_log; intros; subst; reflexivity. }
  split.
  { intros now incidentId resolution resolvedBy w k a Ha Hs.
    destruct (Hres now incidentId resolution resolvedBy w k a Ha) as (b & Hb & Eb & Rb).
    exists b. split; [exact Hb|]. split; [exact Eb|].
    destruct Rb as [Rb|Rb]; congruence. }
  intros now incidentId resolution resolvedBy w k a Ha Hid.
  pose proof (update_others incidentId (resolved now resolution resolvedBy) w k a Ha Hid)
    as Hmid.
  unfold resolveIncident, bind.
  destruct (securityIncident_update incidentId (resolved now resolution resolvedBy) w)
    as [[row|e] w1]; simpl in Hmid.
  - assert (Hlog : Keeps eq (log now
                     (mkLogOptions (Some resolvedBy) SECURITY_INCIDENT_RESOLVED
                        "SecurityIncident" (Some (showNat incidentId)) (Some resolution)
                        None None None None None)))
      by (apply Keeps_log; intros; subst; reflexivity).
    destruct (Hlog w1 k a Hmid) as (b & Hb & Eb & Rb).
    destruct (log now _ w1) as [[r|e] w2]; simpl in *; exists b; auto.
  - simpl. exists a. auto.
Qed.

(** The incident that the code inserted at the fifth failed login is
    resolved. *)
Lemma status_changes_only_to_RESOLVED_witness :
  exists b w',
    resolveIncident 6000 5 "password reset" "admin" (recordAll fiveFailures emptyWorld)
    = (Ok b, w')
    /\ nth_error (securityIncidents w') 0 = Some b
    /\ si_status b = RESOLVED
    /\ si_resolvedBy b = Some "admin".
Proof.
  destruct status_changes_only_to_RESOLVED as (Hstore & _).
  destruct (Hstore 6000 5%nat "password reset" "admin"
              (recordAll fiveFailures emptyWorld) 0%nat
              (freshIncident 5 5000
                 (bruteForceCandidate "u1" 5 (Some "10.0.0.1"))))
    as (w' & b & entry & Hrun & Hk & Hs & _ & Hby & _).
  - vm_compute. reflexivity.
  - split; vm_compute; repeat constructor. intros [].
  - vm_compute. reflexivity.
  - reflexivity.
  - exists b, w'. auto.
Defined.

End IncidentLifecycle.

Module Frames.
Import Prisma AuditService.

Section Frame.
Variable P : World -> Prop.
Hypothesis P_faults : forall b fs w, P w -> faults w = b :: fs -> P (set_faults fs w).
Hypothesis P_appLog : forall l w, P w -> P (set_appLog l w).

Lemma Invariant_ret {A} (a : A) : Invariant P (ret a).
Proof. intros w H. exact H. Qed.

Lemma Invariant_bind {A B} (m : M A) (k : A -> M B) :
  Invariant P m -> (forall a, Invariant P (k a)) -> Invariant P (bind m k).
Proof.
  intros Hm Hk w H. unfold bind. specialize (Hm w H).
  destruct (m w) as [[a|e] w1]; simpl in *.
  - exact (Hk a w1 Hm).
  - exact Hm.
Qed.

Lemma Invariant_try_catch {A} (body : M A) (handler : Exn -> M A) :
  Invariant P body -> (forall e, Invariant P (handler e)) ->
  Invariant P (try_catch body handler).
Proof.
  intros Hb Hh w H. unfold try_catch. specialize (Hb w H).
  destruct (body w) as [[a|e] w1]; simpl in *.
  - exact Hb.
  - exact (Hh e w1 Hb).
Qed.

Lemma Invariant_query {A} (run : M A) : Invariant P run -> Invariant P (query run).
Proof.
  intros Hr w H. unfold query. destruct (faults w) as [|[|] fs] eqn:Hf; simpl.
  - exact (Hr w H).
  - exact (P_faults _ _ w H Hf).
  - apply Hr. exact (P_faults _ _ w H Hf).
Qed.

(** A query that only reads *)
Lemma Invariant_read {A} (g : World -> A) :
  Invariant P (query (fun w => (Ok (g w), w))).
Proof. apply Invariant_query. intros w H. exact H. Qed.

Lemma Invariant_logger level message : Invariant P (logger level message).
Proof. intros w H. simpl. apply P_appLog. exact H. Qed.

Hypothesis P_incidents : forall l w, P w -> P (set_securityIncidents l w).
Hypothesis P_nextId : forall n w, P w -> P (set_nextId n w).

Lemma Invariant_securityIncident_update id data :
  Invariant P (securityIncident_update id data).
Proof.
  apply Invariant_query. intros w H.
  destruct (updateFirst (fun i => Nat.eqb (si_id i) id) data (securityIncidents w))
    as [[row rows]|]; simpl; [apply P_incidents|]; exact H.
Qed.

Lemma Invariant_createSecurityIncident now incident :
  Invariant P (_createSecurityIncident now incident).
Proof.
  unfold _createSecurityIncident. apply Invariant_bind.
  - apply Invariant_read.
  - intros [existing|].
    + apply Invariant_bind; [apply Invariant_securityIncident_update|].
      intros _. apply Invariant_ret.
    + apply Invariant_bind; [|intros _; apply Invariant_logger].
      apply Invariant_query. intros w H. simpl. apply P_nextId, P_incidents, H.
Qed.

Lemma Invariant_whenActor userId block :
  (forall u, Invariant P (block u)) -> Invariant P (whenActor userId block).
Proof.
  intros Hb. unfold whenActor. destruct userId as [u|]; [|apply Invariant_ret].
  destruct (truthy (Some u)); [apply Hb|apply Invariant_ret].
Qed.

Lemma Invariant_detectSuspiciousActivity now event :
  Invariant P (_detectSuspiciousActivity now event).
Proof.
  unfold _detectSuspiciousActivity.
  apply Invariant_bind; [|intros _; apply Invariant_bind; [|intros _]].
  - unfold checkFailedLogins.
    destruct (opt_action event =? LOGIN_FAILED); [|apply Invariant_ret].
    apply Invariant_whenActor. intros u. apply Invariant_bind.
    + apply Invariant_read.
    + intros n. destruct (Nat.leb 5 n);
        [apply Invariant_createSecurityIncident|apply Invariant_ret].
  - unfold checkSensitiveAccess.
    destruct (opt_action event =? SENSITIVE_DATA_ACCESSED); [|apply Invariant_ret].
    apply Invariant_whenActor. intros u. apply Invariant_bind.
    + apply Invariant_read.
    + intros n. destruct (Nat.leb 50 n);
        [apply Invariant_createSecurityIncident|apply Invariant_ret].
  - unfold checkMultipleIPs.
    apply Invariant_whenActor. intros u. apply Invariant_bind.
    + apply Invariant_read.
    + intros ips. destruct (Nat.leb 5 (List.length ips));
        [apply Invariant_createSecurityIncident|apply Invariant_ret].
Qed.

(** What [log] does once the entry is written, and its [catch] block *)
Lemma Invariant_after_entry options now (auditLog : AuditLog) :
  Invariant P (logger (logLevel options) (auditLine options) ;;;
               _detectSuspiciousActivity now options ;;;
               ret (Some auditLog)).
Proof.
  apply Invariant_bind; [apply Invariant_logger|intros _].
  apply Invariant_bind; [apply Invariant_detectSuspiciousActivity|intros _].
  apply Invariant_ret.
Qed.

Lemma Invariant_catch_block :
  Invariant P (logger error "Failed to create audit log:" ;;; ret (@None AuditLog)).
Proof. apply Invariant_bind; [apply Invariant_logger|intros _; apply Invariant_ret]. Qed.

Hypothesis P_auditLogs : forall l w, P w -> P (set_auditLogs l w).

Lemma Invariant_log now options : Invariant P (log now options).
Proof.
  unfold log. apply Invariant_try_catch.
  - apply Invariant_bind.
    + apply Invariant_query. intros w H. simpl. apply P_nextId, P_auditLogs, H.
    + intros auditLog. apply Invariant_after_entry.
  - intros e. apply Invariant_catch_block.
Qed.

Lemma Invariant_resolveIncident now id resolution resolvedBy :
  Invariant P (resolveIncident now id resolution resolvedBy).
Proof.
  unfold resolveIncident.
  apply Invariant_bind; [apply Invariant_securityIncident_update|intros incident].
  apply Invariant_bind; [apply Invariant_log|intros _; apply Invariant_ret].
Qed.

End Frame.

(** [log] issues its queries against a store that answers and leaves it so. *)
Lemma log_faults now options w : faults w = [] -> faults (snd (log now options w)) = [].
Proof.
  apply (Invariant_log (fun w => faults w = [])); intros; simpl in *;
    solve [assumption | congruence].
Qed.

Lemma log_accessTables now options w :
  accessTables (snd (log now options w)) = accessTables w.
Proof.
  apply (Invariant_log (fun w' => accessTables w' = accessTables w));
    intros; simpl in *; solve [assumption | reflexivity].
Qed.

(** The entries on record after [log]: under the written entry nothing
    changes any more. *)
Lemma log_auditLogs now options w :
  auditLogs (snd (log now options w))
  = match faults w with
    | true :: _ => auditLogs w
    | _ => (auditLogs w ++ [entryOf options (nextId w) now])%list
    end.
Proof.
  assert (Hrest : forall (a : AuditLog) w1,
    auditLogs (snd (try_catch
       (logger (logLevel options) (auditLine options) ;;;
        _detectSuspiciousActivity now options ;;;
        ret (Some a))
       (fun e => logger error "Failed to create audit log:" ;;; ret None) w1))
    = auditLogs w1).
  { intros a w1.
    apply (Invariant_try_catch (fun w' => auditLogs w' = auditLogs w1));
      [|intros e|reflexivity].
    - apply Invariant_after_entry; intros; simpl in *; assumption.
    - apply Invariant_catch_block; intros; simpl in *; assumption. }
  unfold log, try_catch, bind, auditLog_create, query.
  destruct (faults w) as [|[|] fs]; cbv beta iota zeta.
  - specialize (Hrest (entryOf options (nextId w) now)
      (set_nextId (S (nextId w))
         (set_auditLogs (auditLogs w ++ [entryOf options (nextId w) now])%list w))).
    unfold try_catch, bind in Hrest. exact Hrest.
  - reflexivity.
  - specialize (Hrest (entryOf options (nextId w) now)
      (set_nextId (S (nextId w))
         (set_auditLogs (auditLogs w ++ [entryOf options (nextId w) now])%list
            (set_faults fs w)))).
    unfold try_catch, bind in Hrest. exact Hrest.
Qed.

End Frames.

Module AuditTrail.
Import Prisma AuditService Frames.

(** X15.  The audit trail is append-only under [log] and [resolveIncident]:
    for every behaviour of the storage layer the entries on record stay as
    they are and in their order, at most one entry is added at the end, and
    [log] adds its entry whenever the first query is not rejected, even when
    the detection that follows fails.  Neither method touches the roles, the
    assignments or the team memberships. *)
Theorem audit_trail_append_only (now : Instant) (w : World) :
  (forall options,
      accessTables (snd (log now options w)) = accessTables w
      /\ (auditLogs (snd (log now options w)) = auditLogs w
          \/ auditLogs (snd (log now options w))
             = (auditLogs w ++ [entryOf options (nextId w) now])%list)
      /\ ((forall fs, faults w <> true :: fs) ->
          auditLogs (snd (log now options w))
          = (auditLogs w ++ [entryOf options (nextId w) now])%list))
  /\ (forall id resolution resolvedBy,
         accessTables (snd (resolveIncident now id resolution resolvedBy w))
         = accessTables w
         /\ exists suffix,
             auditLogs (snd (resolveIncident now id resolution resolvedBy w))
             = (auditLogs w ++ suffix)%list
             /\ (List.length suffix <= 1)%nat).
Proof.
  split.
  - intros options. split; [apply log_accessTables|].
    rewrite log_auditLogs. split.
    + destruct (faults w) as [|[|] fs]; auto.
    + intros H. destruct (faults w) as [|[|] fs]; try reflexivity.
      exfalso. exact (H fs eq_refl).
  - intros id resolution resolvedBy. split.
    + apply (Invariant_resolveIncident (fun w' => accessTables w' = accessTables w));
        intros; simpl in *; solve [assumption | reflexivity].
    + unfold resolveIncident, bind.
      pose proof (Invariant_securityIncident_update
                    (fun w' => auditLogs w' = auditLogs w)
                    (fun _ _ _ H _ => H) (fun _ _ H => H)
                    id (resolved now resolution resolvedBy) w eq_refl) as Hu.
      destruct (securityIncident_update id (resolved now resolution resolvedBy) w)
        as [[incident|e] w1]; simpl in Hu.
      * match goal with |- context [log now ?o w1] =>
          pose proof (log_auditLogs now o w1) as Hl;
          destruct (log now o w1) as [[r|e] w2] end;
        simpl in Hl |- *; rewrite Hl, Hu;
        destruct (faults w1) as [|[|] fs];
        solve [ eexists; split; [reflexivity|simpl; lia]
              | exists []; rewrite app_nil_r; split; [reflexivity|simpl; lia] ].
      * exists []. simpl. rewrite app_nil_r, Hu. split; [reflexivity|simpl; lia].
Qed.

Lemma audit_trail_append_only_witness :
  auditLogs (snd (log 1000 (failedLogin "u1" (Some "10.0.0.1")) detectorDown))
  = [entryOf (failedLogin "u1" (Some "10.0.0.1")) 0 1000]
  /\ fst (log 1000 (failedLogin "u1" (Some "10.0.0.1")) detectorDown) = Ok None.
Proof.
  split; [|reflexivity].
  destruct (audit_trail_append_only 1000 detectorDown) as [H _].
  destruct (H (failedLogin "u1" (Some "10.0.0.1"))) as (_ & _ & Hadd).
  apply Hadd. intros fs. discriminate.
Defined.

End AuditTrail.

Module MembershipFacts.
Import Prisma Auth.

Lemma set_faults_same (w : World) : set_faults (faults w) w = w.
Proof. destruct w; reflexivity. Qed.

(** The membership check against a store that answers, for a caller who is
    not an administrator *)
Lemma requireTeamMembership_run minRole req user teamId w :
  req_user req = Some user ->
  orElse (req_params_teamId req) (req_body_teamId req) = Some teamId ->
  teamId <> "" ->
  includes (u_roles user) "admin" = false ->
  faults w = [] ->
  requireTeamMembership minRole req w
  = (Ok match find (isMembership teamId (u_userId user)) (teamMembers w) with
        | None => NextError (AuthorizationError "Not a member of this team")
        | Some m =>
            if Nat.ltb (roleIndex (tm_role m)) (roleIndex minRole)
            then NextError (AuthorizationError
                              ("Requires " ++ roleName minRole ++ " role or higher in team"))
            else Next (set_teamMembership m req)
        end, w).
Proof.
  intros Hu Ht Hne Hadmin Hf. unfold requireTeamMembership.
  rewrite Hu, Ht, Hadmin.
  assert (Htr : truthy (Some teamId) = true).
  { destruct teamId; [contradiction Hne; reflexivity|reflexivity]. }
  rewrite Htr. cbv beta iota. unfold negb, bind, teamMember_findUnique. run_query.
  cbv beta iota. unfold interp.
  destruct (find (isMembership teamId (u_userId user)) (teamMembers w)) as [m|];
    [|reflexivity].
  destruct (Nat.ltb (roleIndex (tm_role m)) (roleIndex minRole)); reflexivity.
Qed.

End MembershipFacts.

Module Membership.
Import Prisma Auth MembershipFacts.

(** X16.  The membership check of an authenticated request that names a
    team.  It only reads: whatever the storage layer does, the tables and
    the local log are left as they were, and a denial is not logged.  An
    administrator passes without any query.  The check follows the
    hierarchy VIEWER < MEMBER < LEAD < OWNER: a request that passes for a
    role passes, with the same membership attached, for every lower role.
    For other callers and a store that answers, the request passes exactly
    when the row of the caller in the team carries a role at or above the
    required one, whether or not the row has a left-at instant; the row
    attached to the request is that row. *)
Theorem requireTeamMembership_hierarchy
        (minRole : TeamRole) (req : Request) (user : User) (teamId : string) (w : World) :
  req_user req = Some user ->
  orElse (req_params_teamId req) (req_body_teamId req) = Some teamId ->
  teamId <> "" ->
  (exists fs, snd (requireTeamMembership minRole req w) = set_faults fs w)
  /\ (includes (u_roles user) "admin" = true ->
      requireTeamMembership minRole req w = (Ok (Next req), w))
  /\ (forall lower r,
         (roleIndex lower <= roleIndex minRole)%nat ->
         fst (requireTeamMembership minRole req w) = Ok (Next r) ->
         requireTeamMembership lower req w = requireTeamMembership minRole req w)
  /\ (includes (u_roles user) "admin" = false -> faults w = [] ->
      forall r,
        fst (requireTeamMembership minRole req w) = Ok (Next r)
        <-> exists m,
            find (isMembership teamId (u_userId user)) (teamMembers w) = Some m
            /\ (roleIndex minRole <= roleIndex (tm_role m))%nat
            /\ r = set_teamMembership m req).
Proof.
  intros Hu Ht Hne.
  assert (Htr : truthy (Some teamId) = true).
  { destruct teamId; [contradiction Hne; reflexivity|reflexivity]. }
  split; [|split; [|split]].
  - unfold requireTeamMembership. rewrite Hu, Ht, Htr. cbv beta iota. unfold negb.
    destruct (includes (u_roles user) "admin").
    + exists (faults w). simpl. symmetry. apply set_faults_same.
    + unfold bind, teamMember_findUnique, query.
      destruct (faults w) as [|[|] fs] eqn:E; cbv beta iota.
      * exists []. rewrite <- E at 1.
        destruct (find _ _) as [m|]; [destruct (Nat.ltb _ _)|]; simpl;
          symmetry; rewrite E; rewrite <- E; apply set_faults_same.
      * exists fs. reflexivity.
      * exists fs.
        destruct (find _ _) as [m|]; [destruct (Nat.ltb _ _)|]; reflexivity.
  - intros Hadmin. unfold requireTeamMembership.
    rewrite Hu, Ht, Htr, Hadmin. reflexivity.
  - intros lower r Hle. unfold requireTeamMembership.
    rewrite Hu, Ht, Htr. cbv beta iota. unfold negb.
    destruct (includes (u_roles user) "admin"); [reflexivity|].
    unfold bind.
    destruct (teamMember_findUnique (interp (Some teamId)) (u_userId user) w)
      as [[[m|]|e] w1]; try reflexivity.
    destruct (Nat.ltb (roleIndex (tm_role m)) (roleIndex minRole)) eqn:E1.
    + simpl. discriminate.
    + intros _. apply Nat.ltb_ge in E1.
      assert (E2 : Nat.ltb (roleIndex (tm_role m)) (roleIndex lower) = false)
        by (apply Nat.ltb_ge; lia).
      rewrite E2. reflexivity.
  - intros Hadmin Hf r.
    rewrite (requireTeamMembership_run minRole req user teamId w Hu Ht Hne Hadmin Hf).
    simpl.
    destruct (find (isMembership teamId (u_userId user)) (teamMembers w)) as [m|].
    + destruct (Nat.ltb (roleIndex (tm_role m)) (roleIndex minRole)) eqn:E.
      * split; [discriminate|].
        intros (m' & Hm & Hle & _). inversion Hm; subst m'.
        apply Nat.ltb_lt in E. lia.
      * apply Nat.ltb_ge in E. split.
        -- intros H. inversion H. exists m. auto.
        -- intros (m' & Hm & _ & ->). inversion Hm. reflexivity.
    + split; [discriminate|]. intros (m' & Hm & _). discriminate.
Qed.

(** The lead who left team [t1] still passes the check for LEAD, with the
    row that carries the left-at instant attached. *)
Lemma requireTeamMembership_hierarchy_witness :
  requireTeamMembership LEAD (requestOf "u1" "t1") leftT1
  = (Ok (Next (set_teamMembership (mkTeamMember "t1" "u1" LEAD 0 (Some 50))
                 (requestOf "u1" "t1"))), leftT1)
  /\ requireTeamMembership VIEWER (requestOf "u1" "t1") leftT1
     = requireTeamMembership LEAD (requestOf "u1" "t1") leftT1.
Proof.
  split; [reflexivity|].
  destruct (requireTeamMembership_hierarchy LEAD (requestOf "u1" "t1")
              (mkUser "u1" "u1@example.org" [] []) "t1" leftT1 eq_refl eq_refl)
    as (_ & _ & Hmono & _).
  - discriminate.
  - apply (Hmono VIEWER (set_teamMembership (mkTeamMember "t1" "u1" LEAD 0 (Some 50))
                           (requestOf "u1" "t1"))).
    + simpl. lia.
    + reflexivity.
Defined.

End Membership.

Module RouteFacts.
Import Prisma Auth TeamRoutes AuditService Frames MembershipFacts.

Lemma updateFirst_first {A} (p : A -> bool) (f : A -> A) (l : list A) (m : A) :
  find p l = Some m ->
  exists rows,
    updateFirst p f l = Some (f m, rows)
    /\ (forall K (g : A -> K), g (f m) = g m -> map g rows = map g l)
    /\ (p (f m) = true -> find p rows = Some (f m)).
Proof.
  induction l as [|x l IH]; simpl; [discriminate|].
  destruct (p x) eqn:E.
  - intros H. inversion H; subst x. eexists. split; [reflexivity|]. split.
    + intros K g Hg. simpl. rewrite Hg. reflexivity.
    + intros Hp. simpl. rewrite Hp. reflexivity.
  - intros H. destruct (IH H) as (rows & Hu & Hmap & Hfind).
    rewrite Hu. eexists. split; [reflexivity|]. split.
    + intros K g Hg. simpl. rewrite (Hmap K g Hg). reflexivity.
    + intros Hp. simpl. rewrite E. exact (Hfind Hp).
Qed.

Lemma updateFirst_missing {A} (p : A -> bool) (f : A -> A) (l : list A) :
  find p l = None -> updateFirst p f l = None.
Proof.
  induction l as [|x l IH]; simpl; [reflexivity|].
  destruct (p x); [discriminate|]. intros H. rewrite (IH H). reflexivity.
Qed.

Lemma updateFirst_keeps {A K} (p : A -> bool) (f : A -> A) (g : A -> K) l row rows :
  (forall x, g (f x) = g x) ->
  updateFirst p f l = Some (row, rows) -> map g rows = map g l.
Proof.
  intros Hg. revert row rows. induction l as [|x l IH]; intros row rows; simpl;
    [discriminate|].
  destruct (p x).
  - intros H. inversion H; subst. simpl. rewrite Hg. reflexivity.
  - destruct (updateFirst p f l) as [[y rest]|]; [|discriminate].
    intros H. injection H as _ Hrows. subst rows. simpl.
    rewrite (IH y rest eq_refl). reflexivity.
Qed.

Lemma existsb_find_none {A} (p : A -> bool) (l : list A) :
  find p l = None -> existsb p l = false.
Proof.
  induction l as [|x l IH]; simpl; [reflexivity|].
  destruct (p x); [discriminate|]. exact IH.
Qed.

Lemma not_member_key teamId userId l :
  existsb (isMembership teamId userId) l = false ->
  ~ In (teamId, userId) (map membershipKey l).
Proof.
  intros H Hin. apply in_map_iff in Hin. destruct Hin as (m & Hk & Hin).
  assert (Hm : isMembership teamId userId m = true).
  { unfold membershipKey in Hk. inversion Hk. unfold isMembership.
    rewrite !String.eqb_refl. reflexivity. }
  assert (Hex : existsb (isMembership teamId userId) l = true)
    by (apply existsb_exists; eauto).
  congruence.
Qed.

(** The request handed on by the membership check differs from the
    incoming one in the attached membership only. *)
Lemma passed_request minRole req req' w w' :
  requireTeamMembership minRole req w = (Ok (Next req'), w') ->
  req_user req' = req_user req /\ req_clientIP req' = req_clientIP req
  /\ req_userAgent req' = req_userAgent req.
Proof.
  unfold requireTeamMembership.
  destruct (req_user req) as [user|] eqn:Hu; [|discriminate].
  destruct (negb (truthy (orElse (req_params_teamId req) (req_body_teamId req))));
    [discriminate|].
  destruct (includes (u_roles user) "admin").
  - intros H. inversion H; subst. auto.
  - unfold bind.
    destruct (teamMember_findUnique _ _ w) as [[[m|]|e] w1]; try discriminate.
    destruct (Nat.ltb _ _); [discriminate|].
    intros H. inversion H; subst. auto.
Qed.

(** [log] against a store that answers *)
Lemma log_answers now options w :
  faults w = [] ->
  exists r w',
    log now options w = (Ok r, w')
    /\ faults w' = []
    /\ accessTables w' = accessTables w
    /\ auditLogs w' = (auditLogs w ++ [entryOf options (nextId w) now])%list.
Proof.
  intros Hf.
  pose proof (log_faults now options w Hf) as H1.
  pose proof (log_accessTables now options w) as H2.
  pose proof (log_auditLogs now options w) as H3. rewrite Hf in H3.
  assert (Hok : exists r, fst (log now options w) = Ok r).
  { unfold log, try_catch.
    match goal with |- context [match ?b w with _ => _ end] =>
      destruct (b w) as [[r|e] w1] end; simpl; eauto. }
  destruct Hok as [r Hr].
  destruct (log now options w) as [o w']. simpl in *. subst o.
  exists r, w'. auto.
Qed.

Section Rows.
Variable P : World -> Prop.
Hypothesis P_faults : forall b fs w, P w -> faults w = b :: fs -> P (set_faults fs w).
Hypothesis P_appLog : forall l w, P w -> P (set_appLog l w).
Hypothesis P_incidents : forall l w, P w -> P (set_securityIncidents l w).
Hypothesis P_nextId : forall n w, P w -> P (set_nextId n w).
Hypothesis P_auditLogs : forall l w, P w -> P (set_auditLogs l w).
Hypothesis P_rows : forall rows w,
    P w -> map membershipKey rows = map membershipKey (teamMembers w) ->
    P (set_teamMembers rows w).

Lemma Invariant_teamMember_update teamId userId data :
  (forall m, membershipKey (data m) = membershipKey m) ->
  Invariant P (teamMember_update teamId userId data).
Proof.
  intros Hk. apply (Invariant_query P P_faults). intros w H.
  destruct (updateFirst (isMembership teamId userId) data (teamMembers w))
    as [[row rows]|] eqn:E; simpl; [|exact H].
  apply P_rows; [exact H|]. exact (updateFirst_keeps _ _ _ _ _ _ Hk E).
Qed.

Lemma Invariant_requireTeamMembership minRole req :
  Invariant P (requireTeamMembership minRole req).
Proof.
  unfold requireTeamMembership.
  destruct (req_user req) as [user|]; [|apply Invariant_ret].
  destruct (negb (truthy _)); [apply Invariant_ret|].
  destruct (includes (u_roles user) "admin"); [apply Invariant_ret|].
  apply Invariant_bind; [apply (Invariant_read P P_faults)|].
  intros [m|]; [|apply Invariant_ret].
  destruct (Nat.ltb _ _); apply Invariant_ret.
Qed.

Lemma Invariant_errorHandler e : Invariant P (errorHandler e).
Proof.
  unfold errorHandler. cbv zeta.
  apply Invariant_bind; [|intros _; apply Invariant_ret].
  destruct (Nat.leb 500 (statusCode e)); [apply (Invariant_logger P P_appLog)|].
  destruct (Nat.leb 400 (statusCode e));
    [apply (Invariant_logger P P_appLog)|apply Invariant_ret].
Qed.

Lemma Invariant_route minRole handler req :
  (forall req', Invariant P (handler req')) -> Invariant P (route minRole handler req).
Proof.
  intros Hh. unfold route. apply Invariant_bind; [apply Invariant_requireTeamMembership|].
  intros [req'|e]; [|apply Invariant_errorHandler].
  unfold asyncHandler. apply Invariant_try_catch; [apply Hh|].
  intros e. apply Invariant_errorHandler.
Qed.

Lemma Invariant_logAction now req action resource resourceId details :
  Invariant P (logAction now req action resource resourceId details).
Proof.
  unfold logAction.
  apply (Invariant_log P P_faults P_appLog P_incidents P_nextId P_auditLogs).
Qed.

Lemma Invariant_PUT_member teamId userId role req :
  Invariant P (PUT_member teamId userId role req).
Proof.
  unfold PUT_member. apply Invariant_route. intros _. unfold updateMemberRole.
  apply Invariant_bind; [|intros m; apply Invariant_ret].
  apply Invariant_teamMember_update. intros m. reflexivity.
Qed.

Lemma Invariant_DELETE_member now teamId userId req :
  Invariant P (DELETE_member now teamId userId req).
Proof.
  unfold DELETE_member. apply Invariant_route. intros req'. unfold removeMember.
  apply Invariant_bind; [apply (Invariant_read P P_faults)|intros owners].
  apply Invariant_bind; [apply (Invariant_read P P_faults)|intros member].
  destruct (_ && _); [apply Invariant_ret|].
  apply Invariant_bind;
    [apply Invariant_teamMember_update; intros m; reflexivity|intros _].
  apply Invariant_bind; [apply Invariant_logAction|intros _; apply Invariant_ret].
Qed.

Lemma Invariant_POST_member users now teamId userId role req :
  (forall w,
      P w -> ~ In (teamId, userId) (map membershipKey (teamMembers w)) ->
      P (set_teamMembers
           (teamMembers w ++ [mkTeamMember teamId userId role now None])%list w)) ->
  Invariant P (POST_member users now teamId userId role req).
Proof.
  intros P_added. unfold POST_member. apply Invariant_route. intros req'. unfold addMember.
  apply Invariant_bind; [apply (Invariant_read P P_faults)|intros [user|]];
    [|apply Invariant_ret].
  apply Invariant_bind; [apply (Invariant_read P P_faults)|intros [existing|]];
    [apply Invariant_ret|].
  apply Invariant_bind; [|intros membership].
  - apply (Invariant_query P P_faults). intros w H.
    destruct (existsb (isMembership teamId userId) (teamMembers w)) eqn:E; simpl;
      [exact H|].
    apply P_added; [exact H|]. apply not_member_key. exact E.
  - apply Invariant_bind; [apply Invariant_logAction|intros _; apply Invariant_ret].
Qed.

End Rows.

End RouteFacts.

Module MemberRemoval.
Import Prisma Auth TeamRoutes AuditService Frames MembershipFacts RouteFacts.

Lemma removeMember_branches now req teamId userId w :
  faults w = [] ->
  removeMember now req teamId userId w
  = (if (match find (isMembership teamId userId) (teamMembers w) with
         | Some m => isOwner (tm_role m)
         | None => false
         end)
        && Nat.leb (List.length (filter (ownerOf teamId) (teamMembers w))) 1
     then ret (Json 400%nat false
                 (ErrorText "Cannot remove the last owner. Transfer ownership first."))
     else
       teamMember_update teamId userId (set_leftAt (Some now)) ;;;
       logAction now req TEAM_MEMBER_REMOVED "Team" teamId (Some userId) ;;;
       ret (Json 200%nat true (MessageText "Member removed from team"))) w.
Proof.
  intros Hf. unfold removeMember, bind at 1 2, teamMember_count, teamMember_findUnique.
  run_query. cbv beta iota. run_query. reflexivity.
Qed.

(** X17.  [DELETE /teams/:teamId/members/:userId] for a caller who passes
    the membership check, against a store that answers.  Without a row for
    the pair the update is rejected with P2025 and the error handler answers
    404: no table is written, and the handler leaves the line
    [Client error:] in the local log at [warn].  When the row is an OWNER row
    and the team has at most one OWNER row, the response is 400 and nothing
    is written.  Otherwise the response is 200 and the removal
    is a soft delete: the row stays in place with its role and gets the
    current instant as left-at, no other row changes its key or role, one
    TEAM_MEMBER_REMOVED entry is added to the audit trail, and the removed
    member still passes the membership check of the team for every role up
    to the one on the row. *)
Theorem DELETE_member_soft_delete
        (now : Instant) (teamId userId : string) (req req' : Request) (w : World) :
  faults w = [] ->
  requireTeamMembership LEAD req w = (Ok (Next req'), w) ->
  (find (isMembership teamId userId) (teamMembers w) = None ->
   DELETE_member now teamId userId req w
   = (Ok (Json 404%nat false (ErrorText "Record not found")),
      set_appLog (appLog w ++ [(warn, "Client error:")])%list w))
  /\ (forall m,
         find (isMembership teamId userId) (teamMembers w) = Some m ->
         isOwner (tm_role m) = true ->
         (List.length (filter (ownerOf teamId) (teamMembers w)) <= 1)%nat ->
         DELETE_member now teamId userId req w
         = (Ok (Json 400%nat false
                  (ErrorText "Cannot remove the last owner. Transfer ownership first.")),
            w))
  /\ (forall m,
         find (isMembership teamId userId) (teamMembers w) = Some m ->
         isOwner (tm_role m) = false
         \/ (2 <= List.length (filter (ownerOf teamId) (teamMembers w)))%nat ->
         exists w' entry,
           DELETE_member now teamId userId req w
           = (Ok (Json 200%nat true (MessageText "Member removed from team")), w')
           /\ faults w' = []
           /\ find (isMembership teamId userId) (teamMembers w')
              = Some (set_leftAt (Some now) m)
           /\ map membershipKey (teamMembers w') = map membershipKey (teamMembers w)
           /\ map tm_role (teamMembers w') = map tm_role (teamMembers w)
           /\ auditLogs w' = (auditLogs w ++ [entry])%list
           /\ al_action entry = TEAM_MEMBER_REMOVED
           /\ al_resourceId entry = Some teamId
           /\ al_details entry = Some userId
           /\ al_createdAt entry = now
           /\ (forall minRole req2 user2,
                  req_user req2 = Some user2 -> u_userId user2 = userId ->
                  orElse (req_params_teamId req2) (req_body_teamId req2) = Some teamId ->
                  teamId <> "" ->
                  (roleIndex minRole <= roleIndex (tm_role m))%nat ->
                  exists r, requireTeamMembership minRole req2 w' = (Ok (Next r), w'))).
Proof.
  intros Hf Hpass.
  assert (Hroute : DELETE_member now teamId userId req w
                   = asyncHandler (removeMember now req' teamId userId) w).
  { unfold DELETE_member, route, bind. rewrite Hpass. reflexivity. }
  rewrite Hroute. unfold asyncHandler, try_catch.
  rewrite (removeMember_branches now req' teamId userId w Hf).
  split; [|split].
  - intros Hnone. rewrite Hnone. cbv beta iota delta [andb].
    unfold bind at 1, teamMember_update. run_query.
    rewrite (updateFirst_missing _ _ _ Hnone). reflexivity.
  - intros m Hm Hown Hle. rewrite Hm, Hown.
    assert (E : Nat.leb (List.length (filter (ownerOf teamId) (teamMembers w))) 1 = true)
      by (apply Nat.leb_le; exact Hle).
    rewrite E. reflexivity.
  - intros m Hm Hguard.
    assert (E : isOwner (tm_role m)
                && Nat.leb (List.length (filter (ownerOf teamId) (teamMembers w))) 1
                = false).
    { destruct Hguard as [H|H]; [rewrite H; reflexivity|].
      apply andb_false_iff. right. apply Nat.leb_gt. lia. }
    rewrite Hm, E.
    destruct (updateFirst_first (isMembership teamId userId) (set_leftAt (Some now))
                (teamMembers w) m Hm) as (rows & Hu & Hmap & Hfind).
    unfold bind at 1, teamMember_update. run_query. rewrite Hu. cbv beta iota.
    set (w1 := set_teamMembers rows w).
    assert (Hf1 : faults w1 = []) by exact Hf.
    unfold bind at 1, logAction.
    match goal with |- context [log now ?o w1] =>
      destruct (log_answers now o w1 Hf1) as (r & w2 & Hlog & Hf2 & Hacc & Hlogs);
      set (options := o) in * end.
    rewrite Hlog. cbv beta iota. unfold ret.
    assert (Hrows : teamMembers w2 = rows).
    { unfold accessTables in Hacc. injection Hacc as _ _ H. exact H. }
    exists w2, (entryOf options (nextId w1) now).
    split; [reflexivity|]. split; [exact Hf2|].
    assert (Hrow : find (isMembership teamId userId) (teamMembers w2)
                   = Some (set_leftAt (Some now) m)).
    { rewrite Hrows. apply Hfind.
      apply find_some in Hm. exact (proj2 Hm). }
    split; [exact Hrow|].
    split; [rewrite Hrows; apply Hmap; reflexivity|].
    split; [rewrite Hrows; apply Hmap; reflexivity|].
    split; [exact Hlogs|].
    split; [reflexivity|]. split; [reflexivity|]. split; [reflexivity|].
    split; [reflexivity|].
    intros minRole req2 user2 Hu2 Hid Ht Hne Hle.
    destruct (includes (u_roles user2) "admin") eqn:Hadmin.
    + exists req2. unfold requireTeamMembership. rewrite Hu2, Ht, Hadmin.
      destruct teamId; [contradiction Hne; reflexivity|reflexivity].
    + rewrite (requireTeamMembership_run minRole req2 user2 teamId w2 Hu2 Ht Hne Hadmin Hf2).
      rewrite Hid, Hrow.
      assert (E2 : Nat.ltb (roleIndex (tm_role (set_leftAt (Some now) m)))
                           (roleIndex minRole) = false)
        by (apply Nat.ltb_ge; simpl; exact Hle).
      rewrite E2. eexists. reflexivity.
Qed.

(** The member [u2] is removed by the lead [u1] at instant 100 and passes
    the membership check afterwards; the removal of [u9], who has no row, is
    answered with 404 and leaves a line in the local log. *)
Lemma DELETE_member_soft_delete_witness :
  (exists w',
      DELETE_member 100 "t1" "u2" (requestOf "u1" "t1") smallTeam
      = (Ok (Json 200%nat true (MessageText "Member removed from team")), w')
      /\ teamMembers w'
         = [mkTeamMember "t1" "u0" OWNER 0 None; mkTeamMember "t1" "u1" LEAD 0 None;
            mkTeamMember "t1" "u2" MEMBER 0 (Some 100)]
      /\ exists r,
           requireTeamMembership MEMBER (requestOf "u2" "t1") w' = (Ok (Next r), w'))
  /\ appLog (snd (DELETE_member 100 "t1" "u9" (requestOf "u1" "t1") smallTeam))
     = [(warn, "Client error:")].
Proof.
  split;
    [|rewrite (proj1 (DELETE_member_soft_delete 100 "t1" "u9" (requestOf "u1" "t1")
                        (set_teamMembership (mkTeamMember "t1" "u1" LEAD 0 None)
                           (requestOf "u1" "t1"))
                        smallTeam eq_refl eq_refl) eq_refl); reflexivity].
  destruct (DELETE_member_soft_delete 100 "t1" "u2" (requestOf "u1" "t1")
              (set_teamMembership (mkTeamMember "t1" "u1" LEAD 0 None)
                 (requestOf "u1" "t1"))
              smallTeam eq_refl eq_refl) as (_ & _ & H).
  destruct (H (mkTeamMember "t1" "u2" MEMBER 0 None) eq_refl (or_introl eq_refl))
    as (w' & entry & Hrun & _ & _ & _ & _ & _ & _ & _ & _ & _ & Hpass).
  exists w'. split; [exact Hrun|]. split.
  - assert (E : (Ok (Json 200%nat true (MessageText "Member removed from team")), w')
                = DELETE_member 100 "t1" "u2" (requestOf "u1" "t1") smallTeam)
      by (symmetry; exact Hrun).
    vm_compute in E. inversion E. reflexivity.
  - apply (Hpass MEMBER (requestOf "u2" "t1") (mkUser "u2" "u2@example.org" [] []));
      solve [reflexivity | discriminate | simpl; lia].
Defined.

End MemberRemoval.

Module MembershipRows.
Import Prisma Auth TeamRoutes AuditService Frames MembershipFacts RouteFacts.

(** X18.  The membership routes never drop a row and never store two rows
    for one pair of team and user, whatever the storage layer does and
    whether or not the caller is let through: after PUT and after DELETE the
    keys of the rows are what they were, in the same order; after POST they
    are what they were or have the posted pair added at the end, and this
    only when the pair had no row. *)
Theorem membership_rows_are_kept
        (users : list UserRow) (now : Instant) (teamId userId : string)
        (role : TeamRole) (req : Request) (w : World) :
  UniqueMemberships w ->
  (UniqueMemberships (snd (PUT_member teamId userId role req w))
   /\ map membershipKey (teamMembers (snd (PUT_member teamId userId role req w)))
      = map membershipKey (teamMembers w))
  /\ (UniqueMemberships (snd (DELETE_member now teamId userId req w))
      /\ map membershipKey (teamMembers (snd (DELETE_member now teamId userId req w)))
         = map membershipKey (teamMembers w))
  /\ (UniqueMemberships (snd (POST_member users now teamId userId role req w))
      /\ (map membershipKey
            (teamMembers (snd (POST_member users now teamId userId role req w)))
          = map membershipKey (teamMembers w)
          \/ (~ In (teamId, userId) (map membershipKey (teamMembers w))
              /\ map membershipKey
                   (teamMembers (snd (POST_member users now teamId userId role req w)))
                 = (map membershipKey (teamMembers w) ++ [(teamId, userId)])%list))).
Proof.
  intros Hu.
  assert (Hput : map membershipKey (teamMembers (snd (PUT_member teamId userId role req w)))
                 = map membershipKey (teamMembers w)).
  { apply (Invariant_PUT_member
             (fun w' => map membershipKey (teamMembers w') = map membershipKey (teamMembers w)));
      intros; simpl in *; solve [assumption | congruence | reflexivity]. }
  assert (Hdel : map membershipKey
                   (teamMembers (snd (DELETE_member now teamId userId req w)))
                 = map membershipKey (teamMembers w)).
  { apply (Invariant_DELETE_member
             (fun w' => map membershipKey (teamMembers w') = map membershipKey (teamMembers w)));
      intros; simpl in *; solve [assumption | congruence | reflexivity]. }
  assert (Hpost :
    map membershipKey (teamMembers (snd (POST_member users now teamId userId role req w)))
    = map membershipKey (teamMembers w)
    \/ (~ In (teamId, userId) (map membershipKey (teamMembers w))
        /\ map membershipKey
             (teamMembers (snd (POST_member users now teamId userId role req w)))
           = (map membershipKey (teamMembers w) ++ [(teamId, userId)])%list)).
  { apply (Invariant_POST_member
             (fun w' =>
                map membershipKey (teamMembers w') = map membershipKey (teamMembers w)
                \/ (~ In (teamId, userId) (map membershipKey (teamMembers w))
                    /\ map membershipKey (teamMembers w')
                       = (map membershipKey (teamMembers w) ++ [(teamId, userId)])%list)));
      try (intros; simpl in *; assumption).
    - intros w0 [H|[Hn H]] Hnot; simpl; rewrite map_app; simpl.
      + right. rewrite <- H. split; [exact Hnot|reflexivity].
      + exfalso. apply Hnot. rewrite H. apply in_or_app. right. left. reflexivity.
    - left. reflexivity. }
  unfold UniqueMemberships. rewrite Hput, Hdel.
  split; [split; [exact Hu|reflexivity]|].
  split; [split; [exact Hu|reflexivity]|].
  split; [|exact Hpost].
  destruct Hpost as [->|[Hn ->]]; [exact Hu|].
  apply NoDup_app; [exact Hu|constructor; [intros []|constructor]|].
  intros k Hk [<-|[]]. exact (Hn Hk).
Qed.

Lemma membership_rows_are_kept_witness :
  map membershipKey
    (teamMembers (snd (POST_member [mkUserRow "u3"] 100 "t1" "u3" MEMBER
                         (requestOf "u1" "t1") smallTeam)))
  = [("t1", "u0"); ("t1", "u1"); ("t1", "u2"); ("t1", "u3")]
  /\ UniqueMemberships (snd (POST_member [mkUserRow "u3"] 100 "t1" "u3" MEMBER
                               (requestOf "u1" "t1") smallTeam)).
Proof.
  split; [reflexivity|].
  refine (proj1 (proj2 (proj2 (membership_rows_are_kept [mkUserRow "u3"] 100 "t1" "u3"
                                 MEMBER (requestOf "u1" "t1") smallTeam _)))).
  unfold UniqueMemberships. simpl.
  repeat constructor; simpl; intuition discriminate.
Defined.

End MembershipRows.

Module MemberAddition.
Import Prisma Auth TeamRoutes AuditService Frames MembershipFacts RouteFacts.

(** X19.  [POST /teams/:teamId/members] for a caller who passes the
    membership check, against a store that answers.  For an unknown user the
    response is 404; for a pair that has a row, with or without a left-at
    instant, it is 409; in both cases nothing is written.  Otherwise the
    response is 201: a row with the posted role (any of the four, OWNER
    included), the current instant as joined-at and no left-at is added
    after the rows on record, one TEAM_MEMBER_ADDED entry is added to the
    audit trail, and a second POST for the pair is answered with 409. *)
Theorem POST_member_contract
        (users : list UserRow) (now : Instant) (teamId userId : string)
        (role : TeamRole) (req req' : Request) (w : World) :
  faults w = [] ->
  requireTeamMembership LEAD req w = (Ok (Next req'), w) ->
  (find (fun u => user_id u =? userId) users = None ->
   POST_member users now teamId userId role req w
   = (Ok (Json 404%nat false (ErrorText "User not found")), w))
  /\ (forall u m,
         find (fun u => user_id u =? userId) users = Some u ->
         find (isMembership teamId userId) (teamMembers w) = Some m ->
         POST_member users now teamId userId role req w
         = (Ok (Json 409%nat false (ErrorText "User is already a team member")), w))
  /\ (forall u,
         find (fun u => user_id u =? userId) users = Some u ->
         find (isMembership teamId userId) (teamMembers w) = None ->
         exists w' entry,
           POST_member users now teamId userId role req w
           = (Ok (Json 201%nat true
                    (MembershipData (mkTeamMember teamId userId role now None))), w')
           /\ faults w' = []
           /\ teamMembers w'
              = (teamMembers w ++ [mkTeamMember teamId userId role now None])%list
           /\ auditLogs w' = (auditLogs w ++ [entry])%list
           /\ al_action entry = TEAM_MEMBER_ADDED
           /\ al_resourceId entry = Some teamId
           /\ al_createdAt entry = now
           /\ (forall now2 role2 req2 req2',
                  requireTeamMembership LEAD req2 w' = (Ok (Next req2'), w') ->
                  POST_member users now2 teamId userId role2 req2 w'
                  = (Ok (Json 409%nat false (ErrorText "User is already a team member")),
                     w'))).
Proof.
  assert (Hroute : forall now0 role0 req0 req0' w0,
    requireTeamMembership LEAD req0 w0 = (Ok (Next req0'), w0) ->
    POST_member users now0 teamId userId role0 req0 w0
    = asyncHandler (addMember users now0 req0' teamId userId role0) w0).
  { intros now0 role0 req0 req0' w0 Hpass.
    unfold POST_member, route, bind at 1. rewrite Hpass. reflexivity. }
  assert (Hknown : forall now0 role0 req0 req0' w0 u m,
    faults w0 = [] ->
    requireTeamMembership LEAD req0 w0 = (Ok (Next req0'), w0) ->
    find (fun u => user_id u =? userId) users = Some u ->
    find (isMembership teamId userId) (teamMembers w0) = Some m ->
    POST_member users now0 teamId userId role0 req0 w0
    = (Ok (Json 409%nat false (ErrorText "User is already a team member")), w0)).
  { intros now0 role0 req0 req0' w0 u m Hf Hpass Hu Hm.
    rewrite (Hroute _ _ _ _ _ Hpass).
    unfold asyncHandler, try_catch, addMember, bind at 1, user_findUnique.
    run_query. cbv beta iota. rewrite Hu.
    unfold bind at 1, teamMember_findUnique. run_query. cbv beta iota. rewrite Hm.
    reflexivity. }
  intros Hf Hpass.
  split; [|split].
  - intros Hnone.
    rewrite (Hroute _ _ _ _ _ Hpass).
    unfold asyncHandler, try_catch, addMember, bind at 1, user_findUnique.
    run_query. cbv beta iota. rewrite Hnone. reflexivity.
  - intros u m Hu Hm. exact (Hknown now role req req' w u m Hf Hpass Hu Hm).
  - intros u Hu Hnone.
    rewrite (Hroute _ _ _ _ _ Hpass).
    unfold asyncHandler, try_catch, addMember, bind at 1, user_findUnique.
    run_query. cbv beta iota. rewrite Hu.
    unfold bind at 1, teamMember_findUnique. run_query. cbv beta iota. rewrite Hnone.
    unfold bind at 1, teamMember_create. run_query.
    rewrite (existsb_find_none _ _ Hnone). cbv beta iota zeta.
    set (row := mkTeamMember teamId userId role now None).
    set (w1 := set_teamMembers (teamMembers w ++ [row])%list w).
    assert (Hf1 : faults w1 = []) by exact Hf.
    unfold bind at 1, logAction.
    match goal with |- context [log now ?o w1] =>
      destruct (log_answers now o w1 Hf1) as (r & w2 & Hlog & Hf2 & Hacc & Hlogs);
      set (options := o) in * end.
    rewrite Hlog. cbv beta iota. unfold ret.
    assert (Hrows : teamMembers w2 = (teamMembers w ++ [row])%list).
    { unfold accessTables in Hacc. injection Hacc as _ _ H. exact H. }
    exists w2, (entryOf options (nextId w1) now).
    split; [reflexivity|]. split; [exact Hf2|]. split; [exact Hrows|].
    split; [exact Hlogs|].
    split; [reflexivity|]. split; [reflexivity|]. split; [reflexivity|].
    intros now2 role2 req2 req2' Hpass2.
    apply (Hknown now2 role2 req2 req2' w2 u row Hf2 Hpass2 Hu).
    rewrite Hrows, RoleAdminFacts.find_snoc, Hnone.
    unfold isMembership, row. simpl. rewrite !String.eqb_refl. reflexivity.
Qed.

(** The member [u2], removed from team [t1] at instant 100, cannot be added
    again: the row with the left-at instant is in the way. *)
Lemma POST_member_contract_witness :
  teamMembers (snd (DELETE_member 100 "t1" "u2" (requestOf "u1" "t1") smallTeam))
  = [mkTeamMember "t1" "u0" OWNER 0 None; mkTeamMember "t1" "u1" LEAD 0 None;
     mkTeamMember "t1" "u2" MEMBER 0 (Some 100)]
  /\ POST_member [mkUserRow "u2"] 200 "t1" "u2" MEMBER (requestOf "u1" "t1")
       (snd (DELETE_member 100 "t1" "u2" (requestOf "u1" "t1") smallTeam))
     = (Ok (Json 409%nat false (ErrorText "User is already a team member")),
        snd (DELETE_member 100 "t1" "u2" (requestOf "u1" "t1") smallTeam)).
Proof.
  split; [reflexivity|].
  refine (proj1 (proj2 (POST_member_contract [mkUserRow "u2"] 200 "t1" "u2" MEMBER
                          (requestOf "u1" "t1")
                          (set_teamMembership (mkTeamMember "t1" "u1" LEAD 0 None)
                             (requestOf "u1" "t1"))
                          (snd (DELETE_member 100 "t1" "u2" (requestOf "u1" "t1") smallTeam))
                          _ _))
            (mkUserRow "u2") (mkTeamMember "t1" "u2" MEMBER 0 (Some 100)) _ _);
    reflexivity.
Defined.

End MemberAddition.
